(** * Bulker: warehouse adapters and the SQL stream base, embedded in Rocq

    Shallow embedding of the parts of the bulk-ingestion library that the
    specification's testable properties talk about:

    - [Types]: the DataType-to-SQL-type tables of the ClickHouse,
      Postgres and BigQuery adapters, and BigQuery's [init];
    - [AbstractStream] (implementations/sql/abstract.go): the stream
      state, [newAbstractStream], [preprocess], [postConsume],
      [postComplete], [init];
    - [BigQuery] (bulkerlib/implementations/sql/bigquery.go and part_002,
      its earlier revision): [CreateStream], [GetTableSchema], [Insert],
      [DropTable], [ReplaceTable];
    - [BigQueryNames] (bigquery.go): [tableNameFunc], [columnNameFunc];
    - [ClickHouse] (part_000): [ReplaceTable], [DropTable], [LoadTable];
    - [Postgres] (part_001): [GetTableSchema], [LoadTable].

    Go values are modelled as they are used: strings as [string], maps
    as [gmap], slices as lists, [int] as [Z] with its wrap-around,
    [error] as an inductive type, a pointer result that may be nil as
    [option].  Calls into a warehouse are modelled by explicit state
    passing over a small model of the warehouse, or take the answer the
    warehouse gave as an argument.  Code that the files above call but
    do not contain is a parameter, or is modelled from the
    specification where its doc comment says so.

    The definitions come first; the properties follow, one module of
    facts per operation. *)

From Stdlib Require Import ZArith List Ascii String Bool Lia.
From stdpp Require Import base option list sorting gmap strings.
Import ListNotations.

Local Open Scope string_scope.

(** ** types.DataType and the adapters' type tables *)

Module Types.

(** The closed set of types.DataType. *)
Inductive DataType : Type :=
| STRING | INT64 | FLOAT64 | TIMESTAMP | BOOL | JSON | UNKNOWN.

#[export] Instance DataType_eq_dec : EqDecision DataType.
Proof. solve_decision. Defined.

(** A Go map literal: the list of its key/value pairs and the lookup
    [m[k]] with the "comma ok" flag as [option]. *)
Fixpoint map_get {V : Type} (m : list (DataType * V)) (k : DataType) : option V :=
  match m with
  | [] => None
  | (k', v) :: m' => if decide (k' = k) then Some v else map_get m' k
  end.

(** part_000, SchemaToClickhouse. *)
Definition SchemaToClickhouse : list (DataType * string) :=
  [ (STRING, "String"); (INT64, "Int64"); (FLOAT64, "Float64");
    (TIMESTAMP, "DateTime"); (BOOL, "UInt8"); (UNKNOWN, "String") ].

(** part_001, SchemaToPostgres. *)
Definition SchemaToPostgres : list (DataType * string) :=
  [ (STRING, "text"); (INT64, "bigint"); (FLOAT64, "double precision");
    (TIMESTAMP, "timestamp"); (BOOL, "boolean"); (UNKNOWN, "text") ].

(** cloud.google.com/go/bigquery field type names. *)
Definition StringFieldType : string := "STRING".
Definition IntegerFieldType : string := "INTEGER".
Definition FloatFieldType : string := "FLOAT".
Definition TimestampFieldType : string := "TIMESTAMP".
Definition BooleanFieldType : string := "BOOLEAN".
Definition JSONFieldType : string := "JSON".

(** part_002, SchemaToBigQueryString (earlier revision of the adapter). *)
Definition SchemaToBigQueryString : list (DataType * string) :=
  [ (STRING, StringFieldType); (INT64, IntegerFieldType);
    (FLOAT64, FloatFieldType); (TIMESTAMP, TimestampFieldType);
    (BOOL, BooleanFieldType); (UNKNOWN, StringFieldType) ].

(** bigquery.go, bigqueryTypes: each DataType with its list of
    dialect types, the first being the one used for DDL. *)
Definition bigqueryTypes : list (DataType * list string) :=
  [ (STRING, [StringFieldType]); (INT64, [IntegerFieldType]);
    (FLOAT64, [FloatFieldType]); (TIMESTAMP, [TimestampFieldType]);
    (BOOL, [BooleanFieldType]); (JSON, [JSONFieldType]);
    (UNKNOWN, [StringFieldType]) ].

Definition dt_index (d : DataType) : nat :=
  match d with
  | STRING => 0 | INT64 => 1 | FLOAT64 => 2 | TIMESTAMP => 3
  | BOOL => 4 | JSON => 5 | UNKNOWN => 6
  end.

Definition dt_of_index (n : nat) : DataType :=
  match n with
  | 0 => STRING | 1 => INT64 | 2 => FLOAT64 | 3 => TIMESTAMP
  | 4 => BOOL | 5 => JSON | _ => UNKNOWN
  end.

#[export] Instance DataType_countable : Countable DataType.
Proof. apply (inj_countable' dt_index dt_of_index). by intros []. Defined.

(** The two maps filled by [init]: bigqueryTypeMapping and
    bigqueryReverseTypeMapping. *)
Record TypeMappings : Type := mkTypeMappings {
  forward : gmap DataType string;
  reverse : gmap string DataType
}.

(** Inner loop of [init]: [for i, sqlType := range sqlTypes]. *)
Fixpoint init_inner (dataType : DataType) (i : nat) (sqlTypes : list string)
         (m : TypeMappings) : TypeMappings :=
  match sqlTypes with
  | [] => m
  | sqlType :: rest =>
      let m1 :=
        if decide (i = 0)
        then mkTypeMappings (<[dataType := sqlType]> (forward m)) (reverse m)
        else m in
      let m2 :=
        if decide (dataType ≠ UNKNOWN)
        then mkTypeMappings (forward m1) (<[sqlType := dataType]> (reverse m1))
        else m1 in
      init_inner dataType (S i) rest m2
  end.

(** Outer loop of [init]: [for dataType, sqlTypes := range bigqueryTypes].
    Go ranges over a map in an unspecified order; [order] is the order
    of one run, a permutation of the map's entries. *)
Definition init (order : list (DataType * list string)) : TypeMappings :=
  fold_left (fun m e => init_inner (fst e) 0 (snd e) m) order
            (mkTypeMappings ∅ ∅).

(** The adapters' GetSQLType / GetDataType. *)
Definition ClickHouse_GetSQLType (d : DataType) : option string :=
  map_get SchemaToClickhouse d.
Definition Postgres_GetSQLType (d : DataType) : option string :=
  map_get SchemaToPostgres d.
Definition BigQueryOld_GetSQLType (d : DataType) : option string :=
  map_get SchemaToBigQueryString d.
Definition BigQuery_GetSQLType (order : list (DataType * list string))
           (d : DataType) : option string :=
  forward (init order) !! d.
Definition BigQuery_GetDataType (order : list (DataType * list string))
           (sqlType : string) : option DataType :=
  reverse (init order) !! sqlType.

End Types.

(** ** Go values shared by the adapters *)

Module Go.

(** Go's [error] values, by how the code builds them. *)
Inductive error : Type :=
| errorNew (msg : string)
    (* errors.New(msg) *)
| errorf (format : string) (args : list string)
    (* fmt.Errorf(format, args...) *)
| errorfOf (format : string) (args : list string) (cause : error)
    (* fmt.Errorf(format, args..., cause): [cause] is printed with %v
       or wrapped with %w *)
| googleapiError (code : Z)
    (* *googleapi.Error{Code: code} *)
| errorjWrap (kind : string) (msg : string) (cause : error)
    (* errorj.<kind>.Wrap(cause, msg).WithProperty(...) *)
| multiError (msgs : list string)
    (* multierror.Append of errors.New(msg) for each msg *)
| driverError (class : ErrClass) (msg : string)
    (* an error coming from database/sql, a driver, the warehouse, the
       file system or a decoder *)
with ErrClass : Type :=
| NotExist        (* the warehouse reports that a table does not exist *)
| AlreadyExists   (* the warehouse reports that a table already exists *)
| PutMulti        (* bigquery.PutMultiError *)
| OtherClass.

(** A call returning [(T, error)]. *)
Definition result (T : Type) : Type := (error + T)%type.

(** Go's [int] on the 64-bit targets the library is built for:
    two's-complement wrap-around. *)
Definition wrap_int (z : Z) : Z := ((z + 2 ^ 63) mod 2 ^ 64 - 2 ^ 63)%Z.
Definition incr (z : Z) : Z := wrap_int (z + 1).

(** The dynamic values of [any] that reach the adapters. *)
Inductive any : Type :=
| Nil
| Bool (b : bool)
| Int (z : Z)
| Float64 (bits : Z)
| Str (s : string)
| Time (unixNano : Z)
| Nested (json : string).

(** types.Object: [map[string]any]. *)
Abbreviation Object := (gmap string any).

(** strings.Join. *)
Definition Join (elems : list string) (sep : string) : string :=
  String.concat sep elems.

(** strings.HasPrefix. *)
Definition HasPrefix (s prefix : string) : bool := String.prefix prefix s.

End Go.

(** ** Package bulker: stream state, modes and options *)

Module Bulker.
Import Go.

Inductive Status : Type := Active | Completed | Failed | Aborted.

#[export] Instance Status_eq_dec : EqDecision Status.
Proof. solve_decision. Defined.

(** What [%s] prints for a status; the constants' texts are not in
    src. *)
Definition Status_String (s : Status) : string :=
  match s with
  | Active => "active" | Completed => "completed"
  | Failed => "failed" | Aborted => "aborted"
  end.

(** bulker.State. *)
Record State : Type := mkState {
  Status_ : Status;
  LastError : option error;
  ProcessedRows : Z;
  SuccessfulRows : Z;
  ErrorRowIndex : Z
}.

(** bulker.BulkMode is a string type: besides the four modes the
    library names, a caller can pass any other string.  The first mode
    is called [Stream] in bigquery.go and [AutoCommit] in the earlier
    revision, the second [Batch] resp. [Transactional]. *)
Inductive BulkMode : Type :=
| Stream | Batch | ReplaceTable | ReplacePartition
| OtherMode (name : string).

(** What [%s] prints for a mode; the constants' texts are not in src. *)
Definition BulkMode_String (m : BulkMode) : string :=
  match m with
  | Stream => "stream" | Batch => "batch"
  | ReplaceTable => "replace_table" | ReplacePartition => "replace_partition"
  | OtherMode name => name
  end.

(** bulker.StreamOptions, with the options the SQL streams read. *)
Record StreamOptions : Type := mkStreamOptions {
  primaryKey : list string;
  mergeRows : bool;
  partitionId : string;
  columnTypes : list (string * string);
  timestampColumn : string;
  temporaryTable : bool;
  batchSize : Z;
  localBatchFile : string
}.

Definition emptyOptions : StreamOptions :=
  mkStreamOptions [] false "" [] "" false 0 "".

(** Modelled from the spec: the option constructors of package bulker
    are not in src; section 6.2 lists them and what each one sets. *)
Inductive StreamOption : Type :=
| WithPrimaryKey (cols : list string)
| WithMergeRows
| WithPartition (id : string)
| WithColumnTypes (typs : list (string * string))
| WithTimestamp (col : string)
| WithTemporaryTable
| WithBatchSize (n : Z)
| withLocalBatchFile (name : string).

(** [option(&ps.options)]. *)
Definition applyOption (o : StreamOptions) (opt : StreamOption) : StreamOptions :=
  match opt with
  | WithPrimaryKey cols =>
      mkStreamOptions cols (mergeRows o) (partitionId o) (columnTypes o)
        (timestampColumn o) (temporaryTable o) (batchSize o) (localBatchFile o)
  | WithMergeRows =>
      mkStreamOptions (primaryKey o) true (partitionId o) (columnTypes o)
        (timestampColumn o) (temporaryTable o) (batchSize o) (localBatchFile o)
  | WithPartition id =>
      mkStreamOptions (primaryKey o) (mergeRows o) id (columnTypes o)
        (timestampColumn o) (temporaryTable o) (batchSize o) (localBatchFile o)
  | WithColumnTypes typs =>
      mkStreamOptions (primaryKey o) (mergeRows o) (partitionId o) typs
        (timestampColumn o) (temporaryTable o) (batchSize o) (localBatchFile o)
  | WithTimestamp col =>
      mkStreamOptions (primaryKey o) (mergeRows o) (partitionId o) (columnTypes o)
        col (temporaryTable o) (batchSize o) (localBatchFile o)
  | WithTemporaryTable =>
      mkStreamOptions (primaryKey o) (mergeRows o) (partitionId o) (columnTypes o)
        (timestampColumn o) true (batchSize o) (localBatchFile o)
  | WithBatchSize n =>
      mkStreamOptions (primaryKey o) (mergeRows o) (partitionId o) (columnTypes o)
        (timestampColumn o) (temporaryTable o) n (localBatchFile o)
  | withLocalBatchFile name =>
      mkStreamOptions (primaryKey o) (mergeRows o) (partitionId o) (columnTypes o)
        (timestampColumn o) (temporaryTable o) (batchSize o) name
  end.

End Bulker.

(** ** Package sql: tables and columns *)

Module Sql.
Import Go Types.

(** SQLColumn. *)
Record SQLColumn : Type := mkSQLColumn {
  Type_ : string;
  DataType_ : option DataType;
  Override : bool
}.

(** Table, with the fields the adapters below read or write. *)
Record Table : Type := mkTable {
  Name : string;
  Columns : gmap string SQLColumn;
  PKFields : gset string;
  PrimaryKeyName : string
}.

(** LoadSource.Type and LoadSource.Format. *)
Inductive LoadSourceType : Type := LocalFile | OtherSourceType.
Inductive FileFormat : Type := CSV | JSONFormat.

#[export] Instance LoadSourceType_eq_dec : EqDecision LoadSourceType.
Proof. solve_decision. Defined.
#[export] Instance FileFormat_eq_dec : EqDecision FileFormat.
Proof. solve_decision. Defined.

(** sort.Strings orders by bytes, as [String.leb] does. *)
Definition string_le (a b : string) : Prop := String.leb a b = true.

#[export] Instance string_le_dec : RelDecision string_le.
Proof. intros a b. unfold string_le. apply _. Defined.

(** Table.SortedColumnNames: the column names in ascending order. *)
Definition SortedColumnNames (t : Table) : list string :=
  merge_sort string_le (map fst (map_to_list (Columns t))).

End Sql.

(** ** implementations/sql/abstract.go *)

Module AbstractStream.
Import Go Bulker Sql.

(** What preprocess gets from code outside abstract.go: ProcessEvents
    (batch header and flattened objects of one object, or an error)
    and TableHelper.MapTableSchema applied to the header, after the
    column type overrides of the stream options. *)
Record Collaborators : Type := mkCollaborators {
  BatchHeader : Type;
  ProcessEvents : string → list Object → result (BatchHeader * list Object);
  OverrideTypes : BatchHeader → list (string * string) → BatchHeader;
  MapTableSchema : BatchHeader → Table;
  InitDatabase : option error
}.

(** AbstractSQLStream. *)
Record AbstractSQLStream : Type := mkStream {
  id : string;
  mode : BulkMode;
  options : StreamOptions;
  tableName : string;
  merge : bool;
  state : State;
  inited : bool
}.

Definition set_state (ps : AbstractSQLStream) (st : State) : AbstractSQLStream :=
  mkStream (id ps) (mode ps) (options ps) (tableName ps) (merge ps) st (inited ps).

Definition errMergeRequiresPrimaryKey : error :=
  errorf "MergeRows option requires primary key in the destination table. Please provide WithPrimaryKey option" [].

(** newAbstractStream. *)
Definition newAbstractStream (id tableName : string) (mode : BulkMode)
           (streamOptions : list StreamOption) : result AbstractSQLStream :=
  let options := fold_left applyOption streamOptions emptyOptions in
  let merge := mergeRows options in
  if merge && (length (primaryKey options) =? 0)%nat
  then inl errMergeRequiresPrimaryKey
  else inr (mkStream id mode options tableName merge
                     (mkState Active None 0 0 0) false).

Definition errNotActive (s : Status) : error :=
  errorf "stream is not active. Status: %s" [Status_String s].

(** preprocess: the stream afterwards, and the table and processed
    objects or the error. *)
Definition preprocess (C : Collaborators) (ps : AbstractSQLStream) (object : Object)
  : AbstractSQLStream * result (Table * list Object) :=
  if decide (Status_ (state ps) ≠ Active)
  then (ps, inl (errNotActive (Status_ (state ps))))
  else
    match ProcessEvents C (tableName ps) [object] with
    | inl err => (ps, inl err)
    | inr (batchHeader, processedObjects) =>
        let customFields := columnTypes (options ps) in
        let batchHeader :=
          if (0 <? length customFields)%nat
          then OverrideTypes C batchHeader customFields
          else batchHeader in
        let table := MapTableSchema C batchHeader in
        let st := state ps in
        (set_state ps (mkState (Status_ st) (LastError st)
                               (incr (ProcessedRows st))
                               (SuccessfulRows st) (ErrorRowIndex st)),
         inr (table, processedObjects))
    end.

(** postConsume. *)
Definition postConsume (ps : AbstractSQLStream) (err : option error)
  : AbstractSQLStream * option error :=
  let st := state ps in
  match err with
  | Some e =>
      (set_state ps (mkState (Status_ st) (Some e) (ProcessedRows st)
                             (SuccessfulRows st) (ProcessedRows st)),
       Some e)
  | None =>
      (set_state ps (mkState (Status_ st) (LastError st) (ProcessedRows st)
                             (incr (SuccessfulRows st)) (ErrorRowIndex st)),
       None)
  end.

(** postComplete. *)
Definition postComplete (ps : AbstractSQLStream) (err : option error)
  : AbstractSQLStream * (State * option error) :=
  let st := state ps in
  let st' :=
    match err with
    | Some e => mkState Failed (Some e) (ProcessedRows st)
                        (SuccessfulRows st) (ErrorRowIndex st)
    | None => mkState Completed (LastError st) (ProcessedRows st)
                      (SuccessfulRows st) (ErrorRowIndex st)
    end in
  (set_state ps st', (st', err)).

(** init. *)
Definition init (C : Collaborators) (ps : AbstractSQLStream)
  : AbstractSQLStream * option error :=
  if negb (inited ps)
  then match InitDatabase C with
       | Some err => (ps, Some err)
       | None => (mkStream (id ps) (mode ps) (options ps) (tableName ps)
                           (merge ps) (state ps) true, None)
       end
  else (ps, None).

(** Modelled from the spec: Consume of the concrete streams is not in
    src.  Section 4.4: every mode first validates that the status is
    Active, processes the object and increments processedRows (that is
    [preprocess]); a Consume on an inactive stream fails with the
    stream-inactive error; then the mode writes the object, success
    increments successfulRows and failure sets lastError and
    errorRowIndex and returns the error (that is [postConsume]).
    [write] is the outcome of the mode's own write of the accepted
    object (Insert, or the append to the staging file). *)
Definition Consume (C : Collaborators) (ps : AbstractSQLStream)
           (object : Object) (write : option error)
  : AbstractSQLStream * option error :=
  match preprocess C ps object with
  | (ps', inl err) => (ps', Some err)
  | (ps', inr _) => postConsume ps' write
  end.

(** Whether [preprocess] accepts the object. *)
Definition accepts (C : Collaborators) (ps : AbstractSQLStream) (object : Object) : bool :=
  match snd (preprocess C ps object) with
  | inl _ => false
  | inr _ => true
  end.

(** One Consume call of a run, as the caller and the warehouse make it. *)
Record Call : Type := mkCall { object : Object; write : option error }.

(** What a run records of each call: whether the object was accepted
    and the error Consume returned. *)
Record Outcome : Type := mkOutcome { accepted : bool; returned : option error }.

(** A caller driving Consume sequentially. *)
Fixpoint run (C : Collaborators) (ps : AbstractSQLStream) (calls : list Call)
  : AbstractSQLStream * list Outcome :=
  match calls with
  | [] => (ps, [])
  | c :: rest =>
      let a := accepts C ps (object c) in
      let '(ps', err) := Consume C ps (object c) (write c) in
      let '(ps'', log) := run C ps' rest in
      (ps'', mkOutcome a err :: log)
  end.

Definition is_error (o : Outcome) : bool :=
  match returned o with Some _ => true | None => false end.

(** Number of Consume calls that returned an error. *)
Definition errors (log : list Outcome) : nat :=
  length (List.filter is_error log).

(** Number of accepted objects, and of those whose write failed. *)
Definition accepted_calls (log : list Outcome) : nat :=
  length (List.filter accepted log).
Definition accepted_failures (log : list Outcome) : nat :=
  length (List.filter (fun o => accepted o && is_error o) log).

(** The methods of abstract.go as steps on a stream. *)
Inductive Step : Type :=
| StepInit
| StepPreprocess (object : Object)
| StepPostConsume (err : option error)
| StepPostComplete (err : option error)
| StepConsume (object : Object) (write : option error).

Definition step (C : Collaborators) (ps : AbstractSQLStream) (s : Step) : AbstractSQLStream :=
  match s with
  | StepInit => fst (init C ps)
  | StepPreprocess o => fst (preprocess C ps o)
  | StepPostConsume e => fst (postConsume ps e)
  | StepPostComplete e => fst (postComplete ps e)
  | StepConsume o w => fst (Consume C ps o w)
  end.

Definition steps (C : Collaborators) (ps : AbstractSQLStream) (l : list Step)
  : AbstractSQLStream :=
  fold_left (step C) l ps.

End AbstractStream.

(** ** The BigQuery adapter (bigquery.go, and part_002 its earlier revision) *)

Module BigQuery.
Import Go Bulker Sql Types.

Definition BigQueryAutocommitUnsupported : string :=
  "BigQuery bulker doesn't support auto commit mode as not efficient".

Definition bigqueryRowsLimitPerInsertOperation : nat := 500.

(** *** CreateStream *)

(** The stream constructors and utils.SanitizeString, none of them in
    src: each returns a stream or an error, as Go's
    [(bulker.BulkerStream, error)]. *)
Record StreamConstructors (BulkerStream : Type) : Type := mkStreamConstructors {
  newAutoCommitStream :
    string → string → list StreamOption → option BulkerStream * option error;
  newTransactionalStream :
    string → string → list StreamOption → option BulkerStream * option error;
  newReplaceTableStream :
    string → string → list StreamOption → option BulkerStream * option error;
  newReplacePartitionStream :
    string → string → list StreamOption → option BulkerStream * option error;
  SanitizeString : string → string
}.
Arguments newAutoCommitStream {BulkerStream}.
Arguments newTransactionalStream {BulkerStream}.
Arguments newReplaceTableStream {BulkerStream}.
Arguments newReplacePartitionStream {BulkerStream}.
Arguments SanitizeString {BulkerStream}.

(** bigquery.go, BigQuery.CreateStream.  validateOptions only collects
    the options and returns nil. *)
Definition CreateStream {BulkerStream : Type} (K : StreamConstructors BulkerStream)
           (id tableName : string) (mode : BulkMode)
           (streamOptions : list StreamOption)
  : option BulkerStream * option error :=
  let streamOptions :=
    (streamOptions ++ [withLocalBatchFile ("bulker_" ++ SanitizeString K id)])%list in
  match mode with
  | Stream => (None, Some (errorNew BigQueryAutocommitUnsupported))
  | Batch => newTransactionalStream K id tableName streamOptions
  | ReplaceTable => newReplaceTableStream K id tableName streamOptions
  | ReplacePartition => newReplacePartitionStream K id tableName streamOptions
  | OtherMode _ =>
      (None, Some (errorf "unsupported bulk mode: %s" [BulkMode_String mode]))
  end.

(** part_002, BigQuery.CreateStream of the earlier revision. *)
Definition CreateStream_old {BulkerStream : Type} (K : StreamConstructors BulkerStream)
           (id tableName : string) (mode : BulkMode)
           (streamOptions : list StreamOption)
  : option BulkerStream * option error :=
  match mode with
  | Stream => newAutoCommitStream K id tableName streamOptions
  | Batch => newTransactionalStream K id tableName streamOptions
  | ReplaceTable => newReplaceTableStream K id tableName streamOptions
  | ReplacePartition => newReplacePartitionStream K id tableName streamOptions
  | OtherMode _ =>
      (None, Some (errorf "unsupported bulk mode: %s" [BulkMode_String mode]))
  end.

(** *** The warehouse as the client sees it *)

Record FieldSchema : Type := mkFieldSchema { fieldName : string; fieldType : string }.

(** A table of the dataset: its metadata (schema, and labels in the
    order a [range] visits them) and its rows. *)
Record BQTable : Type := mkBQTable {
  Schema : list FieldSchema;
  Labels : list (string * string);
  data : list Object
}.

(** The client: the dataset's tables, and a fault that, when present,
    makes every call fail with that error (network, credentials). *)
Record Client : Type := mkClient {
  dataset : gmap string BQTable;
  fault : option error
}.

Definition StatusNotFound : Z := 404.

(** isNotFoundErr. *)
Definition isNotFoundErr (err : error) : bool :=
  match err with
  | googleapiError code => (code =? StatusNotFound)%Z
  | _ => false
  end.

(** Table(name).Metadata(ctx). *)
Definition Metadata (bq : Client) (tableName : string) : result BQTable :=
  match fault bq with
  | Some err => inl err
  | None =>
      match dataset bq !! tableName with
      | Some t => inr t
      | None => inl (googleapiError StatusNotFound)
      end
  end.

(** Table(name).Delete(ctx). *)
Definition Delete (bq : Client) (tableName : string) : Client * option error :=
  match fault bq with
  | Some err => (bq, Some err)
  | None =>
      match dataset bq !! tableName with
      | Some _ => (mkClient (delete tableName (dataset bq)) None, None)
      | None => (bq, Some (googleapiError StatusNotFound))
      end
  end.

(** RunJob on a copier from [src] to [dst] with WriteTruncate and
    CreateIfNeeded: the job replaces [dst] by a copy of [src], creating
    it when missing, or fails and changes nothing. *)
Definition RunCopyTruncate (bq : Client) (dst src : string) (jobDescription : string)
  : Client * option error :=
  let failed err :=
    errorfOf "Failed to %s. Job ID: %s Completed with error: %s" [jobDescription] err in
  match fault bq with
  | Some err => (bq, Some (failed err))
  | None =>
      match dataset bq !! src with
      | Some t => (mkClient (<[dst := t]> (dataset bq)) None, None)
      | None => (bq, Some (failed (googleapiError StatusNotFound)))
      end
  end.

(** *** GetTableSchema *)

(** strings.Split(s, sep) for a non-empty [sep]: [skip] characters of a
    separator just matched are still to be dropped, [cur] is the piece
    being read. *)
Fixpoint Split_go (sep : string) (skip : nat) (cur : string) (s : string) : list string :=
  match s with
  | EmptyString => [cur]
  | String c s' =>
      match skip with
      | S k => Split_go sep k cur s'
      | O =>
          if String.prefix sep s
          then cur :: Split_go sep (String.length sep - 1) "" s'
          else Split_go sep 0 (cur ++ String c "") s'
      end
  end.
Definition Split (s sep : string) : list string := Split_go sep 0 "" s.

(** Modelled from the spec: the constant BulkerManagedPkConstraintPrefix
    is not in src; section 6.5 gives the prefix of bulker-managed
    primary-key constraint names. *)
Definition BulkerManagedPkConstraintPrefix : string := "bulker_pk_".

(** [for _, field := range meta.Schema]. *)
Definition schemaColumns (GetDataType : string → option DataType)
           (fields : list FieldSchema) (columns : gmap string SQLColumn)
  : gmap string SQLColumn :=
  fold_left (fun cols field =>
               <[fieldName field :=
                   mkSQLColumn (fieldType field) (GetDataType (fieldType field)) false]> cols)
            fields columns.

(** [for k, v := range meta.Labels]: the first bulker-managed label in
    ranging order sets the primary key, then the loop breaks. *)
Fixpoint labelsPrimaryKey (labels : list (string * string)) (table : Table) : Table :=
  match labels with
  | [] => table
  | (k, v) :: rest =>
      if HasPrefix k BulkerManagedPkConstraintPrefix
      then mkTable (Name table) (Columns table)
                   (fold_left (fun pk f => {[f]} ∪ pk) (Split v "---") (PKFields table))
                   k
      else labelsPrimaryKey rest table
  end.

(** bigquery.go, BigQuery.GetTableSchema.  [TableName] is the
    adapter's table-name normalisation (TableHelper.TableName, not in
    src). *)
Definition GetTableSchema (TableName : string → string) (bq : Client)
           (tableName : string) : option Table * option error :=
  let tableName := TableName tableName in
  let table := mkTable tableName ∅ ∅ "" in
  match Metadata bq tableName with
  | inl err =>
      if isNotFoundErr err
      then (Some table, None)
      else (None, Some (errorjWrap "GetTableError" "failed to get table" err))
  | inr meta =>
      let table :=
        mkTable (Name table)
                (schemaColumns (BigQuery_GetDataType bigqueryTypes) (Schema meta)
                               (Columns table))
                (PKFields table) (PrimaryKeyName table) in
      (Some (labelsPrimaryKey (Labels meta) table), None)
  end.

(** part_002, BigQuery.GetTableSchema of the earlier revision. *)
Definition GetTableSchema_old (bq : Client) (tableName : string)
  : option Table * option error :=
  let table := mkTable tableName ∅ ∅ "" in
  match Metadata bq tableName with
  | inl err =>
      if isNotFoundErr err
      then (Some table, None)
      else (None, Some (errorjWrap "GetTableError" "failed to get table" err))
  | inr meta =>
      (Some (mkTable (Name table)
                     (schemaColumns (fun _ => None) (Schema meta) (Columns table))
                     (PKFields table) (PrimaryKeyName table)),
       None)
  end.

(** *** Insert *)

(** BQItem: [&BQItem{values: object}]. *)
Abbreviation BQItem := (gmap string any).

(** insertItems: inserter.Put, whose outcome [put] gives for the items
    it is called with; a PutMultiError is flattened into a multierror. *)
Definition insertItems (put : list BQItem → option error) (items : list BQItem)
  : option error :=
  match put items with
  | Some (driverError PutMulti msg) => Some (multiError [msg])
  | Some err => Some err
  | None => None
  end.

Definition errMiddleInsert (operation : nat) (err : error) : error :=
  errorjWrap "ExecuteInsertInBatchError"
             "failed to execute middle insert %d of %d in batch" err.

(** The loop [for _, object := range objects]: [items] is the chunk
    being filled, [calls] the chunks handed to insertItems so far. *)
Fixpoint insertLoop (put : list BQItem → option error) (objects : list Object)
         (items : list BQItem) (operation : nat) (calls : list (list BQItem))
  : (error * list (list BQItem)) + (list BQItem * nat * list (list BQItem)) :=
  match objects with
  | [] => inr (items, operation, calls)
  | object :: rest =>
      if (bigqueryRowsLimitPerInsertOperation <? length items)%nat
      then
        let operation := S operation in
        match insertItems put items with
        | Some err => inl (errMiddleInsert operation err, (calls ++ [items])%list)
        | None => insertLoop put rest [object] operation (calls ++ [items])%list
        end
      else insertLoop put rest (items ++ [object])%list operation calls
  end.

(** BigQuery.Insert: the chunks handed to insertItems, in order, and
    the error returned.  [lastKind] is the errorj kind of a failure of
    the last insert (ExecuteInsertInBatchError in bigquery.go,
    DeleteFromTableError in part_002); the number of operations, a
    float computation, only appears in the error text. *)
Definition Insert_with (lastKind : string) (put : list BQItem → option error)
           (objects : list Object) : list (list BQItem) * option error :=
  match insertLoop put objects [] 0 [] with
  | inl (err, calls) => (calls, Some err)
  | inr (items, operation, calls) =>
      if (0 <? length items)%nat
      then
        match insertItems put items with
        | Some err =>
            ((calls ++ [items])%list,
             Some (errorjWrap lastKind
                              "failed to execute last insert %d of %d in batch" err))
        | None => ((calls ++ [items])%list, None)
        end
      else (calls, None)
  end.

Definition Insert := Insert_with "ExecuteInsertInBatchError".
Definition Insert_old := Insert_with "DeleteFromTableError".

(** *** DropTable and ReplaceTable *)

(** bigquery.go, BigQuery.DropTable. *)
Definition DropTable (TableName : string → string) (bq : Client)
           (tableName : string) (ifExists : bool) : Client * option error :=
  let tableName := TableName tableName in
  let notFound :=
    match Metadata bq tableName with
    | inl (googleapiError code) => (code =? 404)%Z
    | _ => false
    end in
  if notFound && ifExists
  then (bq, None)
  else
    match Delete bq tableName with
    | (bq', Some err) => (bq', Some (errorjWrap "DropError" "failed to drop table" err))
    | (bq', None) => (bq', None)
    end.

(** part_002, BigQuery.DropTable of the earlier revision. *)
Definition DropTable_old (bq : Client) (tableName : string) (ifExists : bool)
  : Client * option error :=
  match Delete bq tableName with
  | (bq', Some err) => (bq', Some (errorjWrap "DropError" "failed to drop table" err))
  | (bq', None) => (bq', None)
  end.

(** The deferred wrapper of ReplaceTable. *)
Definition wrapReplace (r : Client * option error) : Client * option error :=
  match r with
  | (bq, Some err) => (bq, Some (errorjWrap "CopyError" "failed to replace table" err))
  | (bq, None) => (bq, None)
  end.

(** bigquery.go, BigQuery.ReplaceTable. *)
Definition ReplaceTable (TableName : string → string) (bq : Client)
           (targetTableName : string) (replacementTable : Table) (dropOldTable : bool)
  : Client * option error :=
  let targetTableName := TableName targetTableName in
  let replacementTableName := TableName (Name replacementTable) in
  wrapReplace
    match RunCopyTruncate bq targetTableName replacementTableName "replace table" with
    | (bq', Some err) => (bq', Some err)
    | (bq', None) =>
        if dropOldTable
        then DropTable TableName bq' replacementTableName false
        else (bq', None)
    end.

(** part_002, BigQuery.ReplaceTable of the earlier revision. *)
Definition ReplaceTable_old (bq : Client) (originalTable replacementTable : string)
           (dropOldTable : bool) : Client * option error :=
  wrapReplace
    match RunCopyTruncate bq originalTable replacementTable "replace table" with
    | (bq', Some err) => (bq', Some err)
    | (bq', None) =>
        if dropOldTable
        then DropTable_old bq' replacementTable false
        else (bq', None)
    end.

End BigQuery.

(** ** The ClickHouse adapter (part_000) *)

Module ClickHouse.
Import Go Bulker Sql Types.

(** A row as a statement binds it: one value per column. *)
Definition Row : Type := list any.

(** *** ReplaceTable *)

(** The database: the rows of each table, by name. *)
Abbreviation Database := (gmap string (list Row)).

(** The statements ReplaceTable and DropTable send, by template. *)
Inductive Statement : Type :=
| ExchangeTables (a b : string)          (* chExchangeTableTemplate *)
| RenameTable (a b : string)             (* chRenameTableTemplate *)
| DropTableStmt (ifExists : bool) (a : string).   (* chDropTableTemplate *)

(** txOrDb(ctx).ExecContext(ctx, query): EXCHANGE TABLES needs both
    tables and swaps them; RENAME TABLE needs the source and a free
    target name; DROP TABLE needs the table unless IF EXISTS is given.
    A statement that fails changes nothing. *)
Definition ExecContext (db : Database) (q : Statement) : Database * option error :=
  match q with
  | ExchangeTables a b =>
      match db !! a, db !! b with
      | Some ra, Some rb => (<[a := rb]> (<[b := ra]> db), None)
      | None, _ => (db, Some (driverError NotExist a))
      | _, None => (db, Some (driverError NotExist b))
      end
  | RenameTable a b =>
      match db !! a, db !! b with
      | Some ra, None => (<[b := ra]> (delete a db), None)
      | None, _ => (db, Some (driverError NotExist a))
      | Some _, Some _ => (db, Some (driverError AlreadyExists b))
      end
  | DropTableStmt ifExists a =>
      match db !! a with
      | Some _ => (delete a db, None)
      | None => if ifExists then (db, None) else (db, Some (driverError NotExist a))
      end
  end.

(** checkNotExistErr(err) == ErrTableNotExist. *)
Definition isTableNotExist (err : error) : bool :=
  match err with
  | driverError NotExist _ => true
  | _ => false
  end.

Definition chDistributedPrefix : string := "dist_".

(** fullTableName and fullDistTableName: NewClickHouse sets
    _tableNameFunc to the table name itself. *)
Definition fullTableName (tableName : string) : string := tableName.
Definition fullDistTableName (tableName : string) : string :=
  fullTableName (chDistributedPrefix ++ tableName).

(** ClickHouse.dropTable. *)
Definition dropTable (db : Database) (fullTableName : string) (ifExists : bool)
  : Database * option error :=
  match ExecContext db (DropTableStmt ifExists fullTableName) with
  | (db', Some err) => (db', Some (errorjWrap "DropError" "failed to drop table" err))
  | (db', None) => (db', None)
  end.

(** ClickHouse.DropTable; [cluster] is [ch.config.Cluster != ""]. *)
Definition DropTable (cluster : bool) (db : Database) (tableName : string)
           (ifExists : bool) : Database * option error :=
  match dropTable db (fullTableName tableName) ifExists with
  | (db', Some err) => (db', Some err)
  | (db', None) =>
      if cluster then dropTable db' (fullDistTableName tableName) true
      else (db', None)
  end.

(** ClickHouse.ReplaceTable. *)
Definition ReplaceTable (cluster : bool) (db : Database)
           (originalTable replacementTable : string) (dropOldTable : bool)
  : Database * option error :=
  match ExecContext db (ExchangeTables (fullTableName originalTable)
                                       (fullTableName replacementTable)) with
  | (db1, Some err) =>
      if isTableNotExist err
      then
        match ExecContext db1 (RenameTable (fullTableName replacementTable)
                                           (fullTableName originalTable)) with
        | (db2, Some err) =>
            (db2, Some (errorfOf "error renaming [%s] table: %v" [replacementTable] err))
        | (db2, None) =>
            if cluster
            then
              match ExecContext db2 (RenameTable (fullDistTableName replacementTable)
                                                 (fullDistTableName originalTable)) with
              | (db3, Some err) =>
                  (db3, Some (errorfOf "error renaming [%s] distributed table: %v"
                                       [originalTable] err))
              | (db3, None) => (db3, None)
              end
            else (db2, None)
        end
      else (db1, Some (errorfOf "error replacing [%s] table: %v" [originalTable] err))
  | (db1, None) =>
      let afterDist :=
        if cluster
        then
          match ExecContext db1 (ExchangeTables (fullDistTableName originalTable)
                                                (fullDistTableName replacementTable)) with
          | (db2, Some err) =>
              (db2, Some (errorfOf "error replacing [%s] distributed table: %v"
                                   [originalTable] err))
          | (db2, None) => (db2, None)
          end
        else (db1, None) in
      match afterDist with
      | (db2, Some err) => (db2, Some err)
      | (db2, None) =>
          if dropOldTable then DropTable cluster db2 replacementTable true
          else (db2, None)
      end
  end.

(** *** LoadTable *)

(** LoadSource; [Path] is represented by the lines of the file there. *)
Record LoadSource : Type := mkLoadSource {
  SourceType : LoadSourceType;
  Format : FileFormat;
  File : list string
}.

(** NewClickHouse sets batchFileFormat to JSON. *)
Definition batchFileFormat : FileFormat := JSONFormat.

(** bufio.MaxScanTokenSize, the limit of a Scanner made by
    bufio.NewScanner. *)
Definition MaxScanTokenSize : N := 65536.

Definition ErrTooLong : error := errorNew "bufio.Scanner: token too long".

(** bufio.Scanner with the default split function over the lines of the
    file: each Scan yields the next line; Scan returns false at the end
    of the file, and also at a line that does not fit the buffer, whose
    error stays in the scanner until Err() is called.  The result is
    the lines yielded while Scan returned true, and Err(). *)
Fixpoint scanLines (lines : list string) : list string * option error :=
  match lines with
  | [] => ([], None)
  | line :: rest =>
      if (MaxScanTokenSize <=? N.of_nat (String.length line))%N
      then ([], Some ErrTooLong)
      else let '(tokens, err) := scanLines rest in (line :: tokens, err)
  end.

(** What LoadTable gets from outside part_000: the outcomes of BeginTx,
    PrepareContext, os.Open and Commit, of the [i]-th ExecContext of the
    prepared statement, the JSON decoder, convertType (a pure function
    of the value and the column: a value or an error) and checkErr (it
    keeps an error an error). *)
Record LoadEnv : Type := mkLoadEnv {
  beginErr : option error;
  prepareErr : option error;
  openErr : option error;
  commitErr : option error;
  execErr : nat → Row → option error;
  Decode : string → result Object;
  convertType : any → SQLColumn → result any;
  checkErr : error → error
}.

(** The connection: the rows of the target table, and those executed
    in the open transaction, if any, which only Commit adds to it. *)
Record Conn : Type := mkConn {
  committed : list Row;
  pending : option (list Row)
}.

Definition BeginTx (c : Conn) : Conn := mkConn (committed c) (Some []).
Definition ExecInTx (c : Conn) (args : Row) : Conn :=
  mkConn (committed c) (option_map (fun p => (p ++ [args])%list) (pending c)).
Definition Commit (c : Conn) : Conn :=
  mkConn (committed c ++ default [] (pending c))%list None.
Definition Rollback (c : Conn) : Conn := mkConn (committed c) None.

(** [for i, v := range columns { l, err := convertType(object[v],
    targetTable.Columns[v]) ... args[i] = l }]. *)
Fixpoint convertArgs (E : LoadEnv) (object : Object) (targetTable : Table)
         (columns : list string) : result Row :=
  match columns with
  | [] => inr []
  | v :: rest =>
      match convertType E (default Nil (object !! v))
                        (default (mkSQLColumn "" None false) (Columns targetTable !! v)) with
      | inl err => inl err
      | inr l =>
          match convertArgs E object targetTable rest with
          | inl err => inl err
          | inr args => inr (l :: args)
          end
      end
  end.

(** [for scanner.Scan() { ... }] over the lines the scanner yields:
    the connection afterwards and the error the body returned, if any. *)
Fixpoint loadLines (E : LoadEnv) (targetTable : Table) (columns : list string)
         (tokens : list string) (i : nat) (c : Conn) : Conn * option error :=
  match tokens with
  | [] => (c, None)
  | line :: rest =>
      match Decode E line with
      | inl err => (c, Some err)
      | inr object =>
          match convertArgs E object targetTable columns with
          | inl err => (c, Some err)
          | inr args =>
              match execErr E i args with
              | Some err => (c, Some (checkErr E err))
              | None => loadLines E targetTable columns rest (S i) (ExecInTx c args)
              end
          end
      end
  end.

(** How a call ends. *)
Inductive Outcome : Type :=
| Returned (err : option error)
| Panicked.

(** The deferred function of LoadTable: on an error, Rollback and wrap. *)
Definition deferred (c : Conn) (err : option error) : Conn * Outcome :=
  match err with
  | Some e => (Rollback c, Returned (Some (errorjWrap "LoadError" "failed to load table" e)))
  | None => (c, Returned None)
  end.

(** ClickHouse.LoadTable.  When BeginTx fails the error is wrapped but
    not returned, and [tx], which is nil, is dereferenced by
    tx.PrepareContext. *)
Definition LoadTable (E : LoadEnv) (c : Conn) (targetTable : Table)
           (loadSource : LoadSource) : Conn * Outcome :=
  if decide (SourceType loadSource ≠ LocalFile)
  then (c, Returned (Some (errorf "LoadTable: only local file is supported" [])))
  else if decide (Format loadSource ≠ batchFileFormat)
  then (c, Returned (Some (errorf "LoadTable: only %s format is supported" ["json"])))
  else
    match beginErr E with
    | Some _ => (c, Panicked)
    | None =>
        let c := BeginTx c in
        let columns := SortedColumnNames targetTable in
        match prepareErr E with
        | Some err => deferred c (Some err)
        | None =>
            match openErr E with
            | Some err => deferred c (Some err)
            | None =>
                let tokens := fst (scanLines (File loadSource)) in
                match loadLines E targetTable columns tokens 0 c with
                | (c', Some err) => deferred c' (Some err)
                | (c', None) =>
                    match commitErr E with
                    | Some err => deferred c' (Some err)
                    | None => deferred (Commit c') None
                    end
                end
            end
        end
    end.


End ClickHouse.

(** ** The Postgres adapter (part_001) *)

Module Postgres.
Import Go Bulker Sql Types.

(** *** GetTableSchema *)

(** What a query gives: QueryContext's error, or the rows with what
    Scan returns for each, and rows.Err() after the last one. *)
Record Rows (A : Type) : Type := mkRows {
  queryErr : option error;
  scanned : list (result A);
  rowsErr : option error
}.
Arguments mkRows {A}.
Arguments queryErr {A}.
Arguments scanned {A}.
Arguments rowsErr {A}.

(** The server as the two catalog queries see it: for a table name,
    the (attname, column_type) rows of pgTableSchemaQuery and the
    (constraint_name, key_column) rows of pgPrimaryKeyFieldsQuery. *)
Record Server : Type := mkServer {
  tableSchemaQuery : string → Rows (string * string);
  primaryKeyFieldsQuery : string → Rows (string * string)
}.

(** A table that does not exist has no attribute in the catalog: the
    schema query succeeds with no row. *)
Definition absent (srv : Server) (tableName : string) : Prop :=
  tableSchemaQuery srv tableName = mkRows None [] None.

Definition wrapGetTable (msg : string) (err : error) : error :=
  errorjWrap "GetTableError" msg err.

(** [for rows.Next() { ... }] of getTable. *)
Fixpoint getTableRows (rows : list (result (string * string))) (table : Table)
  : result Table :=
  match rows with
  | [] => inr table
  | inl err :: _ => inl (wrapGetTable "failed to scan result" err)
  | inr (columnName, columnPostgresType) :: rest =>
      if String.eqb columnPostgresType "-"
      then getTableRows rest table
      else getTableRows rest
             (mkTable (Name table)
                      (<[columnName := mkSQLColumn columnPostgresType None false]>
                         (Columns table))
                      (PKFields table) (PrimaryKeyName table))
  end.

(** Postgres.getTable. *)
Definition getTable (srv : Server) (tableName : string) : result Table :=
  let table := mkTable tableName ∅ ∅ "" in
  let q := tableSchemaQuery srv tableName in
  match queryErr q with
  | Some err => inl (wrapGetTable "failed to get table columns" err)
  | None =>
      match getTableRows (scanned q) table with
      | inl err => inl err
      | inr table =>
          match rowsErr q with
          | Some err => inl (wrapGetTable "failed read last row" err)
          | None => inr table
          end
      end
  end.

Definition wrapGetPrimaryKeys (msg : string) (err : error) : error :=
  errorjWrap "GetPrimaryKeysError" msg err.

(** [for pkFieldsRows.Next() { ... }] of getPrimaryKey. *)
Fixpoint primaryKeyRows (rows : list (result (string * string)))
         (primaryKeyName : string) (pkFields : list string)
  : result (string * list string) :=
  match rows with
  | [] => inr (primaryKeyName, pkFields)
  | inl err :: _ => inl (wrapGetPrimaryKeys "failed to scan result" err)
  | inr (constraintName, keyColumn) :: rest =>
      let primaryKeyName :=
        if String.eqb primaryKeyName "" && negb (String.eqb constraintName "")
        then constraintName else primaryKeyName in
      primaryKeyRows rest primaryKeyName (pkFields ++ [keyColumn])%list
  end.

(** Postgres.getPrimaryKey. *)
Definition getPrimaryKey (srv : Server) (tableName : string)
  : result (string * gset string) :=
  let q := primaryKeyFieldsQuery srv tableName in
  match queryErr q with
  | Some err => inl (wrapGetPrimaryKeys "failed to get primary key" err)
  | None =>
      match primaryKeyRows (scanned q) "" [] with
      | inl err => inl err
      | inr (primaryKeyName, pkFields) =>
          match rowsErr q with
          | Some err => inl (wrapGetPrimaryKeys "failed read last row" err)
          | None => inr (primaryKeyName, list_to_set pkFields)
          end
      end
  end.

(** Postgres.GetTableSchema (the warning it logs about a primary key
    not managed by the library has no effect on the result). *)
Definition GetTableSchema (srv : Server) (tableName : string)
  : option Table * option error :=
  match getTable srv tableName with
  | inl err => (None, Some err)
  | inr table =>
      if (size (Columns table) =? 0)%nat
      then (Some table, None)
      else
        match getPrimaryKey srv tableName with
        | inl err => (None, Some err)
        | inr (primaryKeyName, pkFields) =>
            (Some (mkTable (Name table) (Columns table) pkFields primaryKeyName), None)
        end
  end.

(** *** LoadTable *)

(** LoadSource; [Path] is represented by what csv.Reader makes of the
    file there: the result of each Read before io.EOF, a record or a
    parse error. *)
Record LoadSource : Type := mkLoadSource {
  SourceType : LoadSourceType;
  Format : FileFormat;
  Records : list (result (list string))
}.

(** A value bound to the COPY statement: nil or a string. *)
Inductive Arg : Type :=
| NULL
| Text (s : string).

(** What LoadTable gets from outside part_001: the schema of the
    config, the outcomes of PrepareContext and os.Open, of the [i]-th
    ExecContext with arguments, of the final ExecContext and of Close,
    and checkErr (it keeps nil nil and an error an error). *)
Record LoadEnv : Type := mkLoadEnv {
  schema : string;
  prepareErr : option error;
  openErr : option error;
  execErr : nat → list Arg → option error;
  flushErr : option error;
  closeErr : option error;
  checkErr : error → error
}.

Definition pgCopyTemplate (table columns : string) : string :=
  "COPY " ++ table ++ "(" ++ columns ++ ") FROM STDIN".

(** [fmt.Sprintf(`"%s"`, name)]. *)
Definition dquote : string := String (ascii_of_nat 34) EmptyString.
Definition quoted (name : string) : string := dquote ++ name ++ dquote.

(** fullTableName: NewPostgres sets _tableNameFunc to
    ["schema"."table"]. *)
Definition fullTableName (E : LoadEnv) (tableName : string) : string :=
  quoted (schema E) ++ "." ++ quoted tableName.

(** [for i, v := range record { if v == "\\N" ... }]. *)
Definition bind (v : string) : Arg :=
  if String.eqb v "\N" then NULL else Text v.

(** What a call of LoadTable did: the statement it prepared, if it got
    that far, the argument lists it executed, in order, and whether it
    flushed with the final ExecContext. *)
Record Trace : Type := mkTrace {
  prepared : option string;
  executed : list (list Arg);
  flushed : bool
}.

(** The loop [for { record, err := reader.Read() ... }]. *)
Fixpoint copyRecords (E : LoadEnv) (reads : list (result (list string)))
         (i : nat) (done : list (list Arg)) : list (list Arg) * option error :=
  match reads with
  | [] => (done, None)            (* io.EOF: break *)
  | inl err :: _ => (done, Some err)
  | inr record :: rest =>
      let args := map bind record in
      match execErr E i args with
      | Some err => ((done ++ [args])%list, Some (checkErr E err))
      | None => copyRecords E rest (S i) (done ++ [args])%list
      end
  end.

(** The deferred wrapper of LoadTable. *)
Definition wrapLoad (err : option error) : option error :=
  option_map (errorjWrap "LoadError" "failed to load table") err.

(** Postgres.LoadTable. *)
Definition LoadTable (E : LoadEnv) (targetTable : Table) (loadSource : LoadSource)
  : Trace * option error :=
  if decide (SourceType loadSource ≠ LocalFile)
  then (mkTrace None [] false,
        Some (errorf "LoadTable: only local file is supported" []))
  else if decide (Format loadSource ≠ CSV)
  then (mkTrace None [] false,
        Some (errorf "LoadTable: only CSV format is supported" []))
  else
    let headerWithQuotes := map quoted (SortedColumnNames targetTable) in
    let copyStatement :=
      pgCopyTemplate (fullTableName E (Name targetTable)) (Join headerWithQuotes ", ") in
    match prepareErr E with
    | Some err => (mkTrace None [] false, wrapLoad (Some err))
    | None =>
        match openErr E with
        | Some err => (mkTrace (Some copyStatement) [] false, wrapLoad (Some err))
        | None =>
            (* _, _ = reader.Read() //skip header *)
            let reads := tail (Records loadSource) in
            match copyRecords E reads 0 [] with
            | (done, Some err) =>
                (mkTrace (Some copyStatement) done false, wrapLoad (Some err))
            | (done, None) =>
                match flushErr E with
                | Some err =>
                    (mkTrace (Some copyStatement) done true,
                     wrapLoad (Some (checkErr E err)))
                | None =>
                    (mkTrace (Some copyStatement) done true,
                     wrapLoad (option_map (checkErr E) (closeErr E)))
                end
            end
        end
    end.

End Postgres.

(** ** BigQuery identifiers (bigquery.go): tableNameFunc and columnNameFunc *)

Module BigQueryNames.
Import Go.

Definition bigqueryReservedWords : list string :=
  ["all"; "and"; "any"; "array"; "as"; "asc"; "assert_rows_modified"; "at";
    "between"; "by"; "case"; "cast"; "collate"; "contains"; "create";
    "cross"; "cube"; "current"; "default"; "define"; "desc"; "distinct";
    "else"; "end"; "enum"; "escape"; "except"; "exclude"; "exists";
    "extract"; "false"; "fetch"; "following"; "for"; "from"; "full";
    "group"; "grouping"; "groups"; "hash"; "having"; "if"; "ignore"; "in";
    "inner"; "intersect"; "interval"; "into"; "is"; "join"; "lateral";
    "left"; "like"; "limit"; "lookup"; "merge"; "natural"; "new"; "no";
    "not"; "null"; "nulls"; "of"; "on"; "or"; "order"; "outer"; "over";
    "partition"; "preceding"; "proto"; "qualify"; "range"; "recursive";
    "respect"; "right"; "rollup"; "rows"; "select"; "set"; "some";
    "struct"; "tablesample"; "then"; "to"; "treat"; "true"; "unbounded";
    "union"; "unnest"; "using"; "when"; "where"; "window"; "with";
    "within" ].

Definition bigqueryReservedPrefixes : list string :=
  [ "_table_"; "_file_"; "_partition"; "_row_timestamp"; "__root__";
    "_colidentifier" ].

(** bigqueryReservedWordsSet.Contains. *)
Definition isReservedWord (s : string) : bool :=
  existsb (String.eqb s) bigqueryReservedWords.

Definition in_range (lo hi : N) (c : ascii) : bool :=
  ((lo <=? N_of_ascii c) && (N_of_ascii c <=? hi))%N.

Definition is_digit (c : ascii) : bool := in_range 48 57 c.
Definition is_upper (c : ascii) : bool := in_range 65 90 c.
Definition is_lower (c : ascii) : bool := in_range 97 122 c.
Definition is_underscore (c : ascii) : bool := Ascii.eqb c "_"%char.

(** The characters bigqueryColumnUnsupportedCharacters, [^0-9A-Za-z_],
    does not match.  A Go string is a sequence of bytes; every byte of
    a character outside ASCII is above 127, so removing the matches
    rune by rune removes exactly the bytes outside the class. *)
Definition supported (c : ascii) : bool :=
  is_digit c || is_upper c || is_lower c || is_underscore c.

(** bigqueryColumnUnsupportedCharacters.ReplaceAllString(s, ""). *)
Fixpoint stripUnsupported (s : string) : string :=
  match s with
  | EmptyString => EmptyString
  | String c s' =>
      if supported c then String c (stripUnsupported s') else stripUnsupported s'
  end.

(** bigqueryColumnUndescores.ReplaceAllString(s, "_"): every run of two
    or more underscores becomes one underscore. *)
Fixpoint collapseUnderscores (s : string) : string :=
  match s with
  | EmptyString => EmptyString
  | String c s' =>
      if is_underscore c
      then match s' with
           | String c' _ =>
               if is_underscore c' then collapseUnderscores s'
               else String c (collapseUnderscores s')
           | EmptyString => String c EmptyString
           end
      else String c (collapseUnderscores s')
  end.

(** strings.ReplaceAll(s, " ", "_"). *)
Fixpoint replaceSpaces (s : string) : string :=
  match s with
  | EmptyString => EmptyString
  | String c s' =>
      String (if Ascii.eqb c " "%char then "_"%char else c) (replaceSpaces s')
  end.

(** strings.ToLower on the bytes of ASCII; the strings columnNameFunc
    lowers hold supported characters only. *)
Definition lower (c : ascii) : ascii :=
  if is_upper c then ascii_of_N (N_of_ascii c + 32) else c.

Fixpoint ToLower (s : string) : string :=
  match s with
  | EmptyString => EmptyString
  | String c s' => String (lower c) (ToLower s')
  end.

(** Modelled from the spec: utils.IsNumber is not in src; section 4.2
    names the step "numeric-prefix escape": a leading digit. *)
Definition IsNumber (c : ascii) : bool := is_digit c.

Fixpoint firstN (n : nat) (s : string) : string :=
  match n, s with
  | S n', String c s' => String c (firstN n' s')
  | _, _ => EmptyString
  end.

(** Modelled from the spec: utils.ShortenString is not in src; section
    4.2 names the step "length clamp": a string longer than [n] is cut
    to its first [n] characters. *)
Definition ShortenString (s : string) (n : nat) : string :=
  if (String.length s <=? n)%nat then s else firstN n s.

(** tableNameFunc; [unquoted] is
    sqlUnquotedIdentifierPattern.MatchString, not in src. *)
Definition tableNameFunc (unquoted : string → bool) (identifier : string)
  : string * bool :=
  (identifier, negb (unquoted identifier)).

(** columnNameFunc.  [HashHex identifier] is the text
    [fmt.Sprintf("%x", utils.HashString(identifier))]; utils.HashString
    is not in src.  [result[0]] on an empty string would panic: [None]. *)
Definition columnNameFunc (HashHex : string → string) (identifier : string)
  : option (string * bool) :=
  let cleanIdentifier := stripUnsupported identifier in
  let cleanIdentifier := collapseUnderscores cleanIdentifier in
  if String.eqb cleanIdentifier "" || String.eqb cleanIdentifier "_"
  then Some ("column_" ++ HashHex identifier, false)
  else
    let identifier := replaceSpaces identifier in
    let result := stripUnsupported identifier in
    match result with
    | EmptyString => None
    | String c _ =>
        let result := if IsNumber c then "_" ++ result else result in
        let lc := ToLower result in
        if isReservedWord lc
        then Some (result, true)
        else if existsb (fun reserved => HasPrefix lc reserved) bigqueryReservedPrefixes
        then Some (ShortenString ("_" ++ result) 300, false)
        else Some (ShortenString result 300, false)
    end.

End BigQueryNames.

(** ** More of the ClickHouse adapter (part_000) *)

Module ClickHouseOps.
Import Go Bulker Sql Types ClickHouse.

(** *** Insert *)

(** [for _, object := range objects { ... }] of Insert: the connection
    afterwards and the error the body returned, if any. *)
Fixpoint insertObjects (E : LoadEnv) (targetTable : Table) (columns : list string)
         (objects : list Object) (i : nat) (c : Conn) : Conn * option error :=
  match objects with
  | [] => (c, None)
  | object :: rest =>
      match convertArgs E object targetTable columns with
      | inl err => (c, Some err)
      | inr args =>
          match execErr E i args with
          | Some err => (c, Some (checkErr E err))
          | None => insertObjects E targetTable columns rest (S i) (ExecInTx c args)
          end
      end
  end.

(** The deferred function of Insert: on an error, Rollback and wrap. *)
Definition deferredInsert (c : Conn) (err : option error) : Conn * Outcome :=
  match err with
  | Some e =>
      (Rollback c,
       Returned (Some (errorjWrap "ExecuteInsertError" "failed to insert to table" e)))
  | None => (c, Returned None)
  end.

(** ClickHouse.Insert.  [insert] is ch.insert, the HTTP path, not in
    part_000.  As in LoadTable, when BeginTx fails the error is wrapped
    but not returned, and [tx], which is nil, is dereferenced by
    tx.PrepareContext. *)
Definition Insert (httpMode : bool)
           (insert : Conn → Table → list Object → Conn * Outcome)
           (E : LoadEnv) (c : Conn) (targetTable : Table) (objects : list Object)
  : Conn * Outcome :=
  if httpMode then insert c targetTable objects
  else
    match beginErr E with
    | Some _ => (c, Panicked)
    | None =>
        let c := BeginTx c in
        let columns := SortedColumnNames targetTable in
        match prepareErr E with
        | Some err => deferredInsert c (Some err)
        | None =>
            match insertObjects E targetTable columns objects 0 c with
            | (c', Some err) => deferredInsert c' (Some err)
            | (c', None) =>
                match commitErr E with
                | Some err => deferredInsert c' (Some err)
                | None => deferredInsert (Commit c') None
                end
            end
        end
    end.

(** *** GetTableSchema *)

(** What chTableSchemaQuery gives: QueryContext's error, or the rows
    (name, type, is_in_primary_key) with what Scan returns for each,
    and rows.Err() after the last one. *)
Record SchemaRows : Type := mkSchemaRows {
  queryErr : option error;
  scanned : list (result (string * string * bool));
  rowsErr : option error
}.

Definition wrapGetTable (msg : string) (err : error) : error :=
  errorjWrap "GetTableError" msg err.

(** [for rows.Next() { ... }] of GetTableSchema. *)
Fixpoint schemaRows (rows : list (result (string * string * bool))) (table : Table)
  : result Table :=
  match rows with
  | [] => inr table
  | inl err :: _ => inl (wrapGetTable "failed to scan result" err)
  | inr (columnName, columnClickhouseType, isPk) :: rest =>
      schemaRows rest
        (mkTable (Name table)
                 (<[columnName := mkSQLColumn columnClickhouseType None false]>
                    (Columns table))
                 (PKFields table) (PrimaryKeyName table))
  end.

(** ClickHouse.GetTableSchema; [q] is what the query gives for the
    table name. *)
Definition GetTableSchema (q : SchemaRows) (tableName : string)
  : option Table * option error :=
  let table := mkTable tableName ∅ ∅ "" in
  match queryErr q with
  | Some err => (None, Some (wrapGetTable "failed to get table columns" err))
  | None =>
      match schemaRows (scanned q) table with
      | inl err => (None, Some err)
      | inr table =>
          match rowsErr q with
          | Some err => (None, Some (wrapGetTable "failed read last row" err))
          | None => (Some table, None)
          end
      end
  end.

(** *** Validate *)

(** ClickHouseConfig, the fields Validate reads. *)
Record ClickHouseConfig : Type := mkClickHouseConfig {
  Dsns : list string;
  Database : string;
  Cluster : string
}.

(** [for _, dsn := range chc.Dsns { ... }]; [TrimSpace] is
    strings.TrimSpace. *)
Fixpoint validateDsns (TrimSpace : string → string) (dsns : list string) : option error :=
  match dsns with
  | [] => None
  | dsn :: rest =>
      if String.eqb dsn ""
      then Some (errorNew "DSNs values can't be empty")
      else if negb (HasPrefix (TrimSpace dsn) "http")
      then Some (errorNew "DSNs must have http:// or https:// prefix")
      else validateDsns TrimSpace rest
  end.

(** ClickHouseConfig.Validate; a nil receiver is [None]. *)
Definition Validate (TrimSpace : string → string) (chc : option ClickHouseConfig)
  : option error :=
  match chc with
  | None => Some (errorNew "ClickHouse config is required")
  | Some chc =>
      if (length (Dsns chc) =? 0)%nat
      then Some (errorNew "dsn is required parameter")
      else
        match validateDsns TrimSpace (Dsns chc) with
        | Some err => Some err
        | None =>
            if String.eqb (Cluster chc) "" && (1 <? length (Dsns chc))%nat
            then Some (errorNew "cluster is required parameter when dsns count > 1")
            else if String.eqb (Database chc) ""
            then Some (errorNew "db is required parameter")
            else None
        end
  end.

End ClickHouseOps.

(** ** More of the Postgres adapter (part_001) *)

Module PostgresOps.
Import Go Bulker Sql Types.

(** The character U+0000, one zero byte in UTF-8. *)
Definition zero : ascii := Ascii.zero.

(** strings.ContainsRune(v, '\u0000'). *)
Fixpoint ContainsZero (v : string) : bool :=
  match v with
  | EmptyString => false
  | String c v' => Ascii.eqb c zero || ContainsZero v'
  end.

(** strings.ReplaceAll(v, "\u0000", ""). *)
Fixpoint RemoveZero (v : string) : string :=
  match v with
  | EmptyString => EmptyString
  | String c v' => if Ascii.eqb c zero then RemoveZero v' else String c (RemoveZero v')
  end.

(** valueMappingFunc of NewPostgres. *)
Definition valueMappingFunc (value : any) (valuePresent : bool) (sqlColumn : SQLColumn)
  : any :=
  if String.eqb (Type_ sqlColumn) "text"
  then
    match value with
    | Str v => if ContainsZero v then Str (RemoveZero v) else value
    | _ => value
    end
  else value.

End PostgresOps.

(** ** More of the BigQuery adapter (bigquery.go) *)

Module BigQueryOps.
Import Go Bulker Sql Types BigQuery.

(** *** CreateTable and PatchTableSchema *)

(** Granularity, with the values the adapter names. *)
Inductive Granularity : Type :=
| HOUR | DAY | WEEK | MONTH | QUARTER | YEAR | ALL
| OtherGranularity (name : string).

#[export] Instance Granularity_eq_dec : EqDecision Granularity.
Proof. solve_decision. Defined.

(** The fields of Table that CreateTable and PatchTableSchema read
    besides those of [Sql.Table]: Partition.Field,
    Partition.Granularity, TimestampColumn, Temporary and
    DeletePkFields. *)
Record TableOptions : Type := mkTableOptions {
  PartitionField : string;
  PartitionGranularity : Granularity;
  TimestampColumn : string;
  Temporary : bool;
  DeletePkFields : bool
}.

(** bigquery.TimePartitioning{Field, Type}. *)
Record TimePartitioning : Type := mkTimePartitioning {
  tpField : string;
  tpType : string
}.

(** bigquery.TableMetadata as CreateTable fills it; [mdExpires] says
    that ExpirationTime is set, to one hour from now. *)
Record TableMetadata : Type := mkTableMetadata {
  mdName : string;
  mdSchema : list FieldSchema;
  mdLabels : list (string * string);
  mdTimePartitioning : option TimePartitioning;
  mdExpires : bool
}.

Definition DayPartitioningType : string := "DAY".
Definition MonthPartitioningType : string := "MONTH".
Definition YearPartitioningType : string := "YEAR".

(** [switch table.Partition.Granularity] of bigquery.go; the zero value
    of TimePartitioningType is the empty string. *)
Definition partitioningType (g : Granularity) : string :=
  match g with
  | DAY | WEEK => DayPartitioningType
  | MONTH | QUARTER => MonthPartitioningType
  | YEAR => YearPartitioningType
  | _ => ""
  end.

(** Table(name).Create(ctx, metadata): a new, empty table with the
    metadata's schema and labels. *)
Definition Create (bq : Client) (tableName : string) (md : TableMetadata)
  : Client * option error :=
  match fault bq with
  | Some err => (bq, Some err)
  | None =>
      match dataset bq !! tableName with
      | Some _ => (bq, Some (googleapiError 409))
      | None =>
          (mkClient (<[tableName := mkBQTable (mdSchema md) (mdLabels md) []]> (dataset bq))
                    None, None)
      end
  end.

(** Table(name).Update(ctx, TableMetadataToUpdate{Schema: schema}, etag):
    of the metadata only the schema is sent and replaced. *)
Definition UpdateSchema (bq : Client) (tableName : string) (schema : list FieldSchema)
  : Client * option error :=
  match fault bq with
  | Some err => (bq, Some err)
  | None =>
      match dataset bq !! tableName with
      | Some t =>
          (mkClient (<[tableName := mkBQTable schema (Labels t) (data t)]> (dataset bq))
                    None, None)
      | None => (bq, Some (googleapiError StatusNotFound))
      end
  end.

Section WithHelpers.

(** From outside bigquery.go: the name normalisations of TableHelper,
    strings.ToUpper, SQLColumn.GetDDLType and Table.GetPKFields. *)
Context (TableName ColumnName ToUpper : string → string)
        (GetDDLType : SQLColumn → string)
        (GetPKFields : gset string → list string).

(** [for _, columnName := range table.SortedColumnNames() { ... }]: the
    fields CreateTable and PatchTableSchema make of a table's columns. *)
Definition schemaOf (table : Table) : list FieldSchema :=
  map (fun columnName =>
         let column := default (mkSQLColumn "" None false) (Columns table !! columnName) in
         mkFieldSchema (ColumnName columnName) (ToUpper (GetDDLType column)))
      (SortedColumnNames table).

(** BigQuery.CreateTable: the client afterwards, the metadata handed
    to Create, if it got that far, and the error. *)
Definition CreateTable (bq : Client) (table : Table) (opts : TableOptions)
  : Client * option TableMetadata * option error :=
  let tableName := TableName (Name table) in
  match Metadata bq tableName with
  | inr _ => (bq, None, None)
  | inl err =>
      if negb (isNotFoundErr err)
      then (bq, None, Some (errorjWrap "GetTableError" "failed to get table metadata" err))
      else
        let bqSchema := schemaOf table in
        let labels :=
          if (0 <? size (PKFields table))%nat && negb (String.eqb (PrimaryKeyName table) "")
          then [(PrimaryKeyName table, Join (GetPKFields (PKFields table)) "---")]
          else [] in
        let partition :=
          if String.eqb (PartitionField opts) "" && negb (String.eqb (TimestampColumn opts) "")
          then (TimestampColumn opts, MONTH)
          else (PartitionField opts, PartitionGranularity opts) in
        let timePartitioning :=
          if negb (String.eqb (fst partition) "") && negb (bool_decide (snd partition = ALL))
          then Some (mkTimePartitioning (fst partition) (partitioningType (snd partition)))
          else None in
        let tableMetaData :=
          mkTableMetadata tableName bqSchema labels timePartitioning (Temporary opts) in
        match Create bq tableName tableMetaData with
        | (bq', Some err) =>
            (bq', Some tableMetaData,
             Some (errorjWrap "GetTableError" "failed to create table" err))
        | (bq', None) => (bq', Some tableMetaData, None)
        end
  end.

(** BigQuery.PatchTableSchema.  The labels are computed into the local
    metadata; the update request is built from its schema alone. *)
Definition PatchTableSchema (bq : Client) (patchSchema : Table) (opts : TableOptions)
  : Client * option error :=
  match Metadata bq (Name patchSchema) with
  | inl err =>
      (bq, Some (errorjWrap "PatchTableError" "failed to get table metadata" err))
  | inr metadata =>
      let labels := if DeletePkFields opts then [] else Labels metadata in
      let labels :=
        if (0 <? size (PKFields patchSchema))%nat
           && negb (String.eqb (PrimaryKeyName patchSchema) "")
        then [(PrimaryKeyName patchSchema, Join (GetPKFields (PKFields patchSchema)) ",")]
        else labels in
      let metadata :=
        mkBQTable (Schema metadata ++ schemaOf patchSchema)%list labels (data metadata) in
      match UpdateSchema bq (Name patchSchema) (Schema metadata) with
      | (bq', Some err) =>
          (bq', Some (errorjWrap "PatchTableError" "failed to patch table" err))
      | (bq', None) => (bq', None)
      end
  end.

End WithHelpers.

(** *** LoadTable *)

(** [mp[field.Name] = field] for each field of the schema. *)
Definition schemaMap (schema : list FieldSchema) : gmap string FieldSchema :=
  fold_left (fun mp field => <[fieldName field := field]> mp) schema ∅.

(** How the loop that sorts the schema ends: at a field that is not in
    the schema, at an index outside the slice, or with the schema. *)
Inductive SortOutcome : Type :=
| Missing (field : string)
| OutOfRange
| SortedSchema (schema : list FieldSchema).

(** [for i, field := range targetTable.SortedColumnNames() { if _, ok :=
    mp[field]; !ok { return ... }; meta.Schema[i] = mp[field] }]. *)
Fixpoint sortSchema (mp : gmap string FieldSchema) (columns : list string) (i : nat)
         (schema : list FieldSchema) : SortOutcome :=
  match columns with
  | [] => SortedSchema schema
  | field :: rest =>
      match mp !! field with
      | None => Missing field
      | Some f =>
          if (i <? length schema)%nat
          then sortSchema mp rest (S i) (<[i := f]> schema)
          else OutOfRange
      end
  end.

Definition wrapLoad (err : error) : error :=
  errorjWrap "ExecuteInsertInBatchError" "failed to execute middle insert batch" err.

(** BigQuery.LoadTable: the schema given to the loader, if it got that
    far, and how the call ends.  [openErr] is what os.Open returns and
    [runLoad] what the load job does.  The error of Metadata is not
    looked at: after it [meta] is nil and [meta.Schema] is a nil
    dereference. *)
Definition LoadTable (TableName : string → string) (openErr : option error)
           (runLoad : string → list FieldSchema → option error)
           (bq : Client) (targetTable : Table)
  : option (list FieldSchema) * ClickHouse.Outcome :=
  let tableName := TableName (Name targetTable) in
  match openErr with
  | Some err => (None, ClickHouse.Returned (Some (wrapLoad err)))
  | None =>
      match Metadata bq tableName with
      | inl _ => (None, ClickHouse.Panicked)
      | inr meta =>
          match sortSchema (schemaMap (Schema meta)) (SortedColumnNames targetTable) 0
                           (Schema meta) with
          | Missing field =>
              (None,
               ClickHouse.Returned
                 (Some (wrapLoad (errorf "field %s is not in table schema" [field]))))
          | OutOfRange => (None, ClickHouse.Panicked)
          | SortedSchema schema =>
              (Some schema,
               ClickHouse.Returned (option_map wrapLoad (runLoad tableName schema)))
          end
      end
  end.

(** *** toWhenConditions and Delete *)

(** WhenCondition and WhenConditions. *)
Record WhenCondition : Type := mkWhenCondition {
  Field : string;
  Clause : string;
  Value : any
}.

Record WhenConditions : Type := mkWhenConditions {
  Conditions : list WhenCondition;
  JoinCondition : string
}.

(** bigquery.QueryParameter{Name, Value}. *)
Record QueryParameter : Type := mkQueryParameter {
  paramName : string;
  paramValue : any
}.

Section WithQueryHelpers.

(** From outside bigquery.go: strings.ToLower, quotedColumnName of
    TableHelper and types.ReformatValue. *)
Context (ToLower quotedColumnName : string → string) (ReformatValue : any → any).

(** The body of [for _, condition := range conditions.Conditions]:
    [case "is null":] has no statement, and Go does not fall through. *)
Definition whenCondition (condition : WhenCondition)
           (acc : list string * list QueryParameter) : list string * list QueryParameter :=
  let '(queryConditions, values) := acc in
  let clause := ToLower (Clause condition) in
  if String.eqb clause "is null" then (queryConditions, values)
  else if String.eqb clause "is not null"
  then ((queryConditions
           ++ [(quotedColumnName (Field condition) ++ " " ++ Clause condition)%string])%list,
        values)
  else ((queryConditions
           ++ [(quotedColumnName (Field condition) ++ " " ++ Clause condition
                ++ " @when_" ++ Field condition)%string])%list,
        (values ++ [mkQueryParameter ("when_" ++ Field condition)%string
                                     (ReformatValue (Value condition))])%list).

(** BigQuery.toWhenConditions; a nil pointer is [None]. *)
Definition toWhenConditions (conditions : option WhenConditions)
  : string * list QueryParameter :=
  match conditions with
  | None => ("", [])
  | Some conditions =>
      let '(queryConditions, values) :=
        fold_left (fun acc condition => whenCondition condition acc)
                  (Conditions conditions) ([], []) in
      (Join queryConditions (" " ++ JoinCondition conditions ++ " "), values)
  end.

Definition bigqueryDeleteTemplate (table condition : string) : string :=
  "DELETE FROM " ++ table ++ " WHERE " ++ condition.

(** BigQuery.Delete: the query run with its parameters, if any, and the
    error.  [fullTableName] is the adapter's and [runQuery] what RunJob
    returns for the query. *)
Definition Delete (TableName fullTableName : string → string)
           (runQuery : string → list QueryParameter → option error)
           (tableName : string) (deleteConditions : option WhenConditions)
  : option (string * list QueryParameter) * option error :=
  let tableName := TableName tableName in
  let '(whenCondition, values) := toWhenConditions deleteConditions in
  if (String.length whenCondition =? 0)%nat
  then (None, Some (errorNew "delete conditions are empty"))
  else
    let deleteQuery := bigqueryDeleteTemplate (fullTableName tableName) whenCondition in
    (Some (deleteQuery, values),
     option_map (errorjWrap "DeleteFromTableError" "failed execute delete")
                (runQuery deleteQuery values)).

End WithQueryHelpers.

End BigQueryOps.

(** ** Theorems *)

Module TypesFacts.
Import Types.

Lemma init_inner_forward_pos dataType i sqlTypes m :
  i ≠ 0 → forward (init_inner dataType i sqlTypes m) = forward m.
Proof.
  revert i m. induction sqlTypes as [|t ts IH]; intros i m Hi; simpl; [done|].
  rewrite IH by lia.
  destruct (decide (i = 0)) as [->|_]; [done|].
  by destruct (decide (dataType ≠ UNKNOWN)).
Qed.

Lemma init_inner_forward_first dataType t ts m :
  forward (init_inner dataType 0 (t :: ts) m) = <[dataType := t]> (forward m).
Proof.
  simpl. rewrite init_inner_forward_pos by lia.
  by destruct (decide (dataType ≠ UNKNOWN)).
Qed.

Lemma init_inner_forward_other dataType i sqlTypes m d :
  d ≠ dataType →
  forward (init_inner dataType i sqlTypes m) !! d = forward m !! d.
Proof.
  intros Hd. destruct sqlTypes as [|t ts]; [done|].
  destruct (decide (i = 0)) as [->|Hi].
  - rewrite init_inner_forward_first. by rewrite lookup_insert_ne.
  - by rewrite init_inner_forward_pos.
Qed.

Definition no_unknown (r : gmap string DataType) : Prop :=
  ∀ s, r !! s ≠ Some UNKNOWN.

Lemma init_inner_no_unknown dataType i sqlTypes m :
  no_unknown (reverse m) →
  no_unknown (reverse (init_inner dataType i sqlTypes m)).
Proof.
  revert i m. induction sqlTypes as [|t ts IH]; intros i m Hm; simpl; [done|].
  apply IH.
  destruct (decide (dataType ≠ UNKNOWN)) as [Hne|_]; simpl.
  - intros s. destruct (decide (i = 0)); simpl;
      (destruct (decide (t = s)) as [->|Hs];
       [rewrite lookup_insert_eq; congruence
       |rewrite lookup_insert_ne by done; apply Hm]).
  - by destruct (decide (i = 0)).
Qed.

Lemma fold_init_no_unknown order m :
  no_unknown (reverse m) →
  no_unknown (reverse (fold_left (fun m e => init_inner (fst e) 0 (snd e) m)
                                 order m)).
Proof.
  revert m. induction order as [|e es IH]; intros m Hm; simpl; [done|].
  by apply IH, init_inner_no_unknown.
Qed.

Lemma fold_init_forward_absent order m d :
  d ∉ map fst order →
  forward (fold_left (fun m e => init_inner (fst e) 0 (snd e) m) order m) !! d
  = forward m !! d.
Proof.
  revert m. induction order as [|[k ts] es IH]; intros m Hd; simpl; [done|].
  simpl in Hd. apply not_elem_of_cons in Hd as [Hk Hes].
  rewrite IH by done. by apply init_inner_forward_other.
Qed.

Lemma fold_init_forward_present order m d t ts :
  NoDup (map fst order) → (d, t :: ts) ∈ order →
  forward (fold_left (fun m e => init_inner (fst e) 0 (snd e) m) order m) !! d
  = Some t.
Proof.
  revert m. induction order as [|[k us] es IH]; intros m Hnd Hin.
  - by apply elem_of_nil in Hin.
  - simpl in Hnd. apply NoDup_cons in Hnd as [Hk Hes].
    apply elem_of_cons in Hin as [Heq|Hin]; simpl.
    + inversion Heq; subst k us.
      rewrite fold_init_forward_absent by done.
      rewrite init_inner_forward_first. apply lookup_insert_eq.
    + by apply IH.
Qed.

(** Whatever the order in which [init] ranges over bigqueryTypes, the
    forward map holds the first dialect type of each entry. *)
Lemma BigQuery_GetSQLType_order order d t ts :
  order ≡ₚ bigqueryTypes → (d, t :: ts) ∈ bigqueryTypes →
  BigQuery_GetSQLType order d = Some t.
Proof.
  intros Hp Hin. unfold BigQuery_GetSQLType, init.
  apply fold_init_forward_present with ts.
  - rewrite Hp. by apply (bool_decide_unpack _); vm_compute.
  - by rewrite Hp.
Qed.

(** C3. In every adapter's DataType-to-SQL-type table UNKNOWN is
    present and maps to the dialect type of STRING: "String" for
    ClickHouse, "text" for Postgres, StringFieldType for both
    revisions of the BigQuery adapter (for the maps built by [init],
    in whatever order it ranges over bigqueryTypes); and BigQuery's
    reverse map never yields UNKNOWN, so no dialect type is read back
    as UNKNOWN. *)
Theorem unknown_materializes_as_string (order : list (DataType * list string)) :
  order ≡ₚ bigqueryTypes →
  ClickHouse_GetSQLType UNKNOWN = Some "String" ∧
  ClickHouse_GetSQLType STRING = Some "String" ∧
  Postgres_GetSQLType UNKNOWN = Some "text" ∧
  Postgres_GetSQLType STRING = Some "text" ∧
  BigQueryOld_GetSQLType UNKNOWN = Some StringFieldType ∧
  BigQueryOld_GetSQLType STRING = Some StringFieldType ∧
  BigQuery_GetSQLType order UNKNOWN = Some StringFieldType ∧
  BigQuery_GetSQLType order STRING = Some StringFieldType ∧
  (∀ sqlType, BigQuery_GetDataType order sqlType ≠ Some UNKNOWN).
Proof.
  intros Hp.
  split; [reflexivity|]. split; [reflexivity|].
  split; [reflexivity|]. split; [reflexivity|].
  split; [reflexivity|]. split; [reflexivity|].
  split; [|split].
  - apply BigQuery_GetSQLType_order with []; [done|].
    unfold bigqueryTypes. set_solver.
  - apply BigQuery_GetSQLType_order with []; [done|].
    unfold bigqueryTypes. set_solver.
  - unfold BigQuery_GetDataType, init.
    apply fold_init_no_unknown. intros s. simpl. by rewrite lookup_empty.
Qed.

Lemma unknown_materializes_as_string_witness :
  BigQuery_GetSQLType (rev bigqueryTypes) UNKNOWN = Some StringFieldType.
Proof.
  apply (unknown_materializes_as_string (rev bigqueryTypes)).
  symmetry. apply Permutation_rev.
Defined.

End TypesFacts.

(** *** The stream base: sticky terminal states and the row counters *)

Module StreamFacts.
Import Go Bulker Sql AbstractStream.

Lemma wrap_int_idemp_add a b : wrap_int (wrap_int a + b) = wrap_int (a + b).
Proof.
  unfold wrap_int.
  replace (((a + 2 ^ 63) mod 2 ^ 64 - 2 ^ 63 + b + 2 ^ 63))%Z
    with (((a + 2 ^ 63) mod 2 ^ 64 + b))%Z by lia.
  rewrite Zplus_mod_idemp_l. f_equal. f_equal. lia.
Qed.

Lemma wrap_int_idemp a : wrap_int (wrap_int a) = wrap_int a.
Proof.
  transitivity (wrap_int (wrap_int a + 0)); [f_equal; lia|].
  rewrite wrap_int_idemp_add. f_equal. lia.
Qed.

Lemma wrap_int_small z : (- 2 ^ 63 ≤ z < 2 ^ 63)%Z → wrap_int z = z.
Proof. intros H. unfold wrap_int. rewrite Z.mod_small; lia. Qed.

Section WithCollaborators.
Context (C : Collaborators).

(** The guard of preprocess: an inactive stream is left as it is. *)
Lemma preprocess_inactive ps o :
  Status_ (state ps) ≠ Active →
  preprocess C ps o = (ps, inl (errNotActive (Status_ (state ps)))).
Proof. intros H. unfold preprocess. by rewrite decide_True. Qed.

Lemma Consume_inactive ps o w :
  Status_ (state ps) ≠ Active →
  Consume C ps o w = (ps, Some (errNotActive (Status_ (state ps)))).
Proof. intros H. unfold Consume. by rewrite preprocess_inactive. Qed.

Lemma accepts_inactive ps o :
  Status_ (state ps) ≠ Active → accepts C ps o = false.
Proof. intros H. unfold accepts. by rewrite preprocess_inactive. Qed.

Lemma preprocess_status ps o :
  Status_ (state (fst (preprocess C ps o))) = Status_ (state ps).
Proof.
  unfold preprocess. destruct (decide _); [done|].
  destruct (ProcessEvents C _ _) as [e|[h objs]]; done.
Qed.

Lemma postConsume_status ps e :
  Status_ (state (fst (postConsume ps e))) = Status_ (state ps).
Proof. by destruct e. Qed.

(** postConsume with an error touches lastError and errorRowIndex only. *)
Lemma postConsume_error ps e :
  let ps' := fst (postConsume ps (Some e)) in
  Status_ (state ps') = Status_ (state ps) ∧
  ProcessedRows (state ps') = ProcessedRows (state ps) ∧
  SuccessfulRows (state ps') = SuccessfulRows (state ps) ∧
  LastError (state ps') = Some e ∧
  ErrorRowIndex (state ps') = ProcessedRows (state ps) ∧
  snd (postConsume ps (Some e)) = Some e.
Proof. done. Qed.

Lemma postComplete_status ps e :
  Status_ (state (fst (postComplete ps e))) ≠ Active.
Proof. by destruct e. Qed.

Lemma init_state ps : state (fst (init C ps)) = state ps.
Proof.
  unfold init. destruct (inited ps); simpl; [done|].
  by destruct (InitDatabase C).
Qed.

Lemma Consume_status ps o w :
  Status_ (state (fst (Consume C ps o w))) = Status_ (state ps).
Proof.
  unfold Consume. pose proof (preprocess_status ps o) as H.
  destruct (preprocess C ps o) as [ps' [e|r]]; simpl in *; [done|].
  by rewrite postConsume_status.
Qed.

Lemma step_inactive ps s :
  Status_ (state ps) ≠ Active → Status_ (state (step C ps s)) ≠ Active.
Proof.
  intros H. destruct s; simpl.
  - by rewrite init_state.
  - by rewrite preprocess_status.
  - by rewrite postConsume_status.
  - apply postComplete_status.
  - by rewrite Consume_status.
Qed.

Lemma steps_inactive ps l :
  Status_ (state ps) ≠ Active → Status_ (state (steps C ps l)) ≠ Active.
Proof.
  revert ps. induction l as [|s l IH]; intros ps H; simpl; [done|].
  by apply IH, step_inactive.
Qed.

Lemma run_inactive ps calls :
  Status_ (state ps) ≠ Active →
  run C ps calls =
    (ps, map (fun _ => mkOutcome false (Some (errNotActive (Status_ (state ps)))))
             calls).
Proof.
  intros H. induction calls as [|c rest IH]; simpl; [done|].
  rewrite Consume_inactive, accepts_inactive by done. by rewrite IH.
Qed.

(** C6. Once the status of a stream is not Active (Completed, Failed
    or Aborted), no method of abstract.go and no Consume brings it
    back to Active; preprocess, the preamble of every Consume,
    returns the stream-inactive error and leaves the whole stream
    as it was, so does Consume, and so does any further sequence of
    Consume calls: status, processedRows, successfulRows and every
    other field keep their values.  (A caller that hands the error on
    to postConsume has it recorded in lastError and errorRowIndex;
    status, processedRows and successfulRows still keep their values.) *)
Theorem terminal_status_is_sticky (ps : AbstractSQLStream) :
  Status_ (state ps) ≠ Active →
  (∀ l, Status_ (state (steps C ps l)) ≠ Active) ∧
  (∀ o, preprocess C ps o = (ps, inl (errNotActive (Status_ (state ps))))) ∧
  (∀ o w, Consume C ps o w = (ps, Some (errNotActive (Status_ (state ps))))) ∧
  (∀ calls, fst (run C ps calls) = ps ∧
            Forall (fun out => returned out
                               = Some (errNotActive (Status_ (state ps))))
                   (snd (run C ps calls))) ∧
  (∀ e, let ps' := fst (postConsume ps (Some e)) in
        Status_ (state ps') = Status_ (state ps) ∧
        ProcessedRows (state ps') = ProcessedRows (state ps) ∧
        SuccessfulRows (state ps') = SuccessfulRows (state ps)).
Proof.
  intros H. split; [|split; [|split; [|split]]].
  - intros l. by apply steps_inactive.
  - intros o. by apply preprocess_inactive.
  - intros o w. by apply Consume_inactive.
  - intros calls. rewrite run_inactive by done. split; [done|].
    simpl. apply Forall_forall. intros out Hin.
    apply list_elem_of_In, in_map_iff in Hin as (c & <- & _). done.
  - intros e. by destruct (postConsume_error ps e) as (? & ? & ? & _).
Qed.

(** What one Consume call does to the counters. *)
Lemma Consume_accepted ps o w :
  accepts C ps o = true →
  let ps' := fst (Consume C ps o w) in
  ProcessedRows (state ps') = incr (ProcessedRows (state ps)) ∧
  SuccessfulRows (state ps') =
    match w with
    | Some _ => SuccessfulRows (state ps)
    | None => incr (SuccessfulRows (state ps))
    end ∧
  snd (Consume C ps o w) = w ∧
  (∀ e, w = Some e →
        LastError (state ps') = Some e ∧
        ErrorRowIndex (state ps') = ProcessedRows (state ps')).
Proof.
  unfold accepts, Consume, preprocess.
  destruct (decide _); [done|].
  destruct (ProcessEvents C _ _) as [e|[h objs]]; [done|].
  intros _. destruct w as [e|]; simpl; repeat split; try done.
  all: by intros e' [= <-].
Qed.

Lemma Consume_rejected ps o w :
  accepts C ps o = false →
  fst (Consume C ps o w) = ps ∧ is_Some (snd (Consume C ps o w)).
Proof.
  unfold accepts, Consume, preprocess.
  destruct (decide _); [by eauto|].
  destruct (ProcessEvents C _ _) as [e|[h objs]]; [by eauto|done].
Qed.

Lemma run_counters ps calls :
  wrap_int (ProcessedRows (state ps)) = ProcessedRows (state ps) →
  wrap_int (SuccessfulRows (state ps)) = SuccessfulRows (state ps) →
  let ps' := fst (run C ps calls) in
  let log := snd (run C ps calls) in
  ProcessedRows (state ps') =
    wrap_int (ProcessedRows (state ps) + Z.of_nat (accepted_calls log)) ∧
  SuccessfulRows (state ps') =
    wrap_int (SuccessfulRows (state ps)
              + Z.of_nat (accepted_calls log - accepted_failures log)) ∧
  (accepted_failures log ≤ accepted_calls log)%nat.
Proof.
  revert ps. induction calls as [|c rest IH]; intros ps Hp Hs; simpl.
  - rewrite !Z.add_0_r. done.
  - destruct (accepts C ps (object c)) eqn:Hacc.
    + pose proof (Consume_accepted ps (object c) (write c) Hacc)
        as (Hp' & Hs' & Hret & _).
      destruct (Consume C ps (object c) (write c)) as [ps1 err] eqn:HC.
      simpl in Hp', Hs', Hret. subst err.
      specialize (IH ps1).
      destruct (run C ps1 rest) as [ps2 log] eqn:Hrun. simpl in *.
      destruct IH as (IHp & IHs & IHle).
      { rewrite Hp'. apply wrap_int_idemp. }
      { rewrite Hs'. destruct (write c); [done|]. apply wrap_int_idemp. }
      unfold accepted_calls, accepted_failures, is_error in *. simpl.
      rewrite IHp, IHs, Hp', Hs'.
      destruct (write c) as [e|] eqn:Hw; simpl;
        unfold incr; rewrite ?wrap_int_idemp_add;
        (split; [f_equal; lia|]); (split; [f_equal; lia|lia]).
    + pose proof (Consume_rejected ps (object c) (write c) Hacc) as (Hps & _).
      destruct (Consume C ps (object c) (write c)) as [ps1 err] eqn:HC.
      simpl in Hps. subst ps1.
      specialize (IH ps Hp Hs).
      destruct (run C ps rest) as [ps2 log] eqn:Hrun. simpl in *.
      done.
Qed.

(** C7 (amended). For a stream as newAbstractStream creates it and
    every sequence of Consume calls, in Go int arithmetic
    processedRows is the number of objects preprocess accepted and
    successfulRows the number of accepted objects whose write
    returned no error, so that (below 2^63 accepted objects)
    processedRows = successfulRows + the number of accepted objects
    whose write returned an error.  A call preprocess rejects
    (inactive stream, ProcessEvents error) returns an error and
    changes nothing; for an accepted object preprocess increments
    processedRows once and postConsume increments successfulRows
    exactly when the write returned no error, recording lastError
    and errorRowIndex otherwise. *)
Theorem counter_equation_for_accepted_objects
        (id tableName : string) (mode : BulkMode) (opts : list StreamOption)
        (ps : AbstractSQLStream) (calls : list Call) :
  newAbstractStream id tableName mode opts = inr ps →
  let ps' := fst (run C ps calls) in
  let log := snd (run C ps calls) in
  ProcessedRows (state ps') = wrap_int (Z.of_nat (accepted_calls log)) ∧
  SuccessfulRows (state ps') =
    wrap_int (Z.of_nat (accepted_calls log - accepted_failures log)) ∧
  ((Z.of_nat (accepted_calls log) < 2 ^ 63)%Z →
   ProcessedRows (state ps') =
     (SuccessfulRows (state ps') + Z.of_nat (accepted_failures log))%Z) ∧
  (∀ ps1 o w, accepts C ps1 o = false →
     fst (Consume C ps1 o w) = ps1 ∧ is_Some (snd (Consume C ps1 o w))) ∧
  (∀ ps1 o w, accepts C ps1 o = true →
     let ps2 := fst (Consume C ps1 o w) in
     ProcessedRows (state ps2) = incr (ProcessedRows (state ps1)) ∧
     SuccessfulRows (state ps2) =
       match w with
       | Some _ => SuccessfulRows (state ps1)
       | None => incr (SuccessfulRows (state ps1))
       end ∧
     snd (Consume C ps1 o w) = w ∧
     (∀ e, w = Some e →
           LastError (state ps2) = Some e ∧
           ErrorRowIndex (state ps2) = ProcessedRows (state ps2))).
Proof.
  intros Hnew ps' log.
  assert (ProcessedRows (state ps) = 0%Z ∧ SuccessfulRows (state ps) = 0%Z)
    as [Hp0 Hs0].
  { unfold newAbstractStream in Hnew.
    destruct (_ && _) in Hnew; [done|]. by inversion Hnew. }
  destruct (run_counters ps calls) as (Hp & Hs & Hle).
  { by rewrite Hp0. }
  { by rewrite Hs0. }
  fold ps' log in Hp, Hs, Hle. rewrite Hp0 in Hp. rewrite Hs0 in Hs.
  simpl in Hp, Hs.
  split; [done|]. split; [done|]. split.
  - intros Hlt. rewrite Hp, Hs, !wrap_int_small by lia. lia.
  - split; [apply Consume_rejected | apply Consume_accepted].
Qed.

End WithCollaborators.

(** A run to evaluate the definitions on: collaborators that accept
    every object, and the stream of table "events" in Batch mode. *)
Definition plain : Collaborators :=
  mkCollaborators unit (fun _ objs => inr (tt, objs)) (fun h _ => h)
                  (fun _ => mkTable "events" ∅ ∅ "") None.

Definition events_stream : AbstractSQLStream :=
  mkStream "s1" Batch emptyOptions "events" false (mkState Active None 0 0 0) false.

Example events_stream_new :
  newAbstractStream "s1" "events" Batch [] = inr events_stream.
Proof. reflexivity. Qed.

Example events_stream_run :
  let r := run plain events_stream
               [mkCall ∅ None; mkCall ∅ (Some (errorNew "insert failed"));
                mkCall ∅ None] in
  ProcessedRows (state (fst r)) = 3%Z ∧ SuccessfulRows (state (fst r)) = 2%Z ∧
  ErrorRowIndex (state (fst r)) = 2%Z ∧ errors (snd r) = 1.
Proof. vm_compute. done. Qed.

Lemma terminal_status_is_sticky_witness :
  Status_ (state (fst (postComplete events_stream None))) ≠ Active ∧
  Consume plain (fst (postComplete events_stream None)) ∅ None
  = (fst (postComplete events_stream None), Some (errNotActive Completed)).
Proof.
  assert (Status_ (state (fst (postComplete events_stream None))) ≠ Active) as H
    by (simpl; discriminate).
  split; [exact H|].
  exact (proj1 (proj2 (proj2 (terminal_status_is_sticky plain _ H))) ∅ None).
Defined.

Lemma counter_equation_for_accepted_objects_witness :
  newAbstractStream "s1" "events" Batch [] = inr events_stream ∧
  ProcessedRows (state (fst (run plain events_stream [mkCall ∅ None])))
  = wrap_int (Z.of_nat (accepted_calls (snd (run plain events_stream [mkCall ∅ None])))).
Proof.
  split; [reflexivity|].
  exact (proj1 (counter_equation_for_accepted_objects plain "s1" "events" Batch []
                  events_stream [mkCall ∅ None] eq_refl)).
Defined.

(** C7 as stated fails: a completed stream (no row consumed) rejects
    the next Consume with an error, and neither counter moves:
    processedRows = 0 but successfulRows + errors = 1. *)
Lemma counter_equation_counts_rejected_calls :
  let completed := fst (postComplete events_stream None) in
  let r := run plain completed [mkCall ∅ None] in
  errors (snd r) = 1 ∧
  ProcessedRows (state (fst r)) = 0%Z ∧
  SuccessfulRows (state (fst r)) = 0%Z ∧
  ProcessedRows (state (fst r))
  ≠ (SuccessfulRows (state (fst r)) + Z.of_nat (errors (snd r)))%Z.
Proof. vm_compute. repeat split; discriminate. Qed.

End StreamFacts.

(** *** BigQuery.CreateStream: which modes are accepted *)

Module CreateStreamFacts.
Import Go Bulker Sql AbstractStream BigQuery.

(** C5 (amended). On the BigQuery adapter of bigquery.go, for every
    stream id, table name and option list, CreateStream in mode Stream
    returns a nil stream and the error BigQueryAutocommitUnsupported,
    at creation and without calling any constructor; in the modes Batch,
    ReplaceTable and ReplacePartition it returns exactly what the
    mode's constructor returns for the options extended with the local
    batch file: a stream and no error when the constructor succeeds,
    the constructor's error otherwise; any other mode is rejected as
    unsupported. *)
Theorem CreateStream_by_mode
        {BulkerStream : Type} (K : StreamConstructors BulkerStream)
        (id tableName : string) (streamOptions : list StreamOption) :
  let opts :=
    (streamOptions ++ [withLocalBatchFile ("bulker_" ++ SanitizeString K id)])%list in
  CreateStream K id tableName Stream streamOptions
    = (None, Some (errorNew BigQueryAutocommitUnsupported)) ∧
  CreateStream K id tableName Batch streamOptions
    = newTransactionalStream K id tableName opts ∧
  CreateStream K id tableName Bulker.ReplaceTable streamOptions
    = newReplaceTableStream K id tableName opts ∧
  CreateStream K id tableName ReplacePartition streamOptions
    = newReplacePartitionStream K id tableName opts ∧
  (∀ name, CreateStream K id tableName (OtherMode name) streamOptions
           = (None, Some (errorf "unsupported bulk mode: %s" [name]))).
Proof. repeat split. Qed.

(** Constructors to evaluate CreateStream with: the stream is its
    AbstractSQLStream, built by newAbstractStream of abstract.go, whose
    error the constructor returns. *)
Definition fromAbstract (mode : BulkMode) (id tableName : string)
           (streamOptions : list StreamOption)
  : option AbstractSQLStream * option error :=
  match newAbstractStream id tableName mode streamOptions with
  | inl err => (None, Some err)
  | inr ps => (Some ps, None)
  end.

Definition abstractConstructors : StreamConstructors AbstractSQLStream :=
  mkStreamConstructors AbstractSQLStream
    (fromAbstract Stream) (fromAbstract Batch)
    (fromAbstract Bulker.ReplaceTable) (fromAbstract ReplacePartition)
    (fun id => id).

Example CreateStream_batch_plain :
  ∃ ps, CreateStream abstractConstructors "s1" "events" Batch [] = (Some ps, None).
Proof. eexists. reflexivity. Qed.

(** C5 as stated fails: in Batch mode, with MergeRows and no primary
    key, CreateStream returns the constructor's error and no stream
    (the guard of newAbstractStream); and the earlier revision of the
    adapter (part_002) hands the row-at-a-time mode to
    newAutoCommitStream instead of rejecting it. *)
Lemma CreateStream_batch_can_fail :
  CreateStream abstractConstructors "s1" "events" Batch [WithMergeRows]
    = (None, Some errMergeRequiresPrimaryKey) ∧
  CreateStream_old abstractConstructors "s1" "events" Stream []
    = newAutoCommitStream abstractConstructors "s1" "events" [] ∧
  CreateStream_old abstractConstructors "s1" "events" Stream []
    = (Some (mkStream "s1" Stream emptyOptions "events" false
                      (mkState Active None 0 0 0) false), None).
Proof. repeat split. Qed.

End CreateStreamFacts.

(** *** GetTableSchema: a missing table is an empty table *)

Module GetTableSchemaFacts.
Import Go Bulker Sql.

Lemma BigQuery_GetTableSchema_cases TableName bq tableName :
  (∃ t, BigQuery.GetTableSchema TableName bq tableName = (Some t, None)) ∨
  (∃ cause,
      BigQuery.GetTableSchema TableName bq tableName
      = (None, Some (errorjWrap "GetTableError" "failed to get table" cause)) ∧
      BigQuery.Metadata bq (TableName tableName) = inl cause ∧
      BigQuery.isNotFoundErr cause = false).
Proof.
  unfold BigQuery.GetTableSchema.
  destruct (BigQuery.Metadata bq (TableName tableName)) as [err|meta] eqn:HM.
  - destruct (BigQuery.isNotFoundErr err) eqn:Hnf; [left|right]; eauto.
  - left. eauto.
Qed.

Lemma BigQuery_GetTableSchema_old_cases bq tableName :
  (∃ t, BigQuery.GetTableSchema_old bq tableName = (Some t, None)) ∨
  (∃ cause,
      BigQuery.GetTableSchema_old bq tableName
      = (None, Some (errorjWrap "GetTableError" "failed to get table" cause)) ∧
      BigQuery.Metadata bq tableName = inl cause ∧
      BigQuery.isNotFoundErr cause = false).
Proof.
  unfold BigQuery.GetTableSchema_old.
  destruct (BigQuery.Metadata bq tableName) as [err|meta] eqn:HM.
  - destruct (BigQuery.isNotFoundErr err) eqn:Hnf; [left|right]; eauto.
  - left. eauto.
Qed.

Lemma BigQuery_Metadata_missing bq tableName :
  BigQuery.fault bq = None → BigQuery.dataset bq !! tableName = None →
  BigQuery.Metadata bq tableName = inl (googleapiError 404).
Proof. intros Hf Hd. unfold BigQuery.Metadata. by rewrite Hf, Hd. Qed.

Lemma Postgres_GetTableSchema_cases srv tableName :
  (∃ t, Postgres.GetTableSchema srv tableName = (Some t, None)) ∨
  (∃ err, Postgres.GetTableSchema srv tableName = (None, Some err)).
Proof.
  unfold Postgres.GetTableSchema.
  destruct (Postgres.getTable srv tableName) as [err|table]; [right; eauto|].
  destruct (_ =? _)%nat; [left; eauto|].
  destruct (Postgres.getPrimaryKey srv tableName) as [err|[n pk]];
    [right|left]; eauto.
Qed.

Lemma Postgres_GetTableSchema_absent srv tableName :
  Postgres.absent srv tableName →
  Postgres.GetTableSchema srv tableName = (Some (mkTable tableName ∅ ∅ ""), None).
Proof.
  intros Habs. unfold Postgres.absent in Habs.
  unfold Postgres.GetTableSchema, Postgres.getTable.
  cbv zeta. rewrite !Habs. reflexivity.
Qed.

(** C4. GetTableSchema returns either a table and no error, or no table
    and an error, and the error is never the table's absence:
    - BigQuery (bigquery.go, and part_002): when the dataset has no
      table of that name (Metadata answers 404), the result is the
      table named as requested (through the adapter's TableName in
      bigquery.go) with no column and no primary key, and no error; an
      error returned wraps a Metadata error that is not a not-found
      error;
    - Postgres: when the catalog has no attribute for the name, the
      result is the table of that name with no column, and no error; an
      error is returned only when a catalog query did not answer as for
      an absent table. *)
Theorem GetTableSchema_missing_table_is_empty :
  (∀ (TableName : string → string) bq tableName,
      (BigQuery.fault bq = None →
       BigQuery.dataset bq !! TableName tableName = None →
       BigQuery.GetTableSchema TableName bq tableName
       = (Some (mkTable (TableName tableName) ∅ ∅ ""), None)) ∧
      ((∃ t, BigQuery.GetTableSchema TableName bq tableName = (Some t, None)) ∨
       (∃ cause,
           BigQuery.GetTableSchema TableName bq tableName
           = (None, Some (errorjWrap "GetTableError" "failed to get table" cause)) ∧
           BigQuery.Metadata bq (TableName tableName) = inl cause ∧
           BigQuery.isNotFoundErr cause = false))) ∧
  (∀ bq tableName,
      (BigQuery.fault bq = None →
       BigQuery.dataset bq !! tableName = None →
       BigQuery.GetTableSchema_old bq tableName
       = (Some (mkTable tableName ∅ ∅ ""), None)) ∧
      ((∃ t, BigQuery.GetTableSchema_old bq tableName = (Some t, None)) ∨
       (∃ cause,
           BigQuery.GetTableSchema_old bq tableName
           = (None, Some (errorjWrap "GetTableError" "failed to get table" cause)) ∧
           BigQuery.Metadata bq tableName = inl cause ∧
           BigQuery.isNotFoundErr cause = false))) ∧
  (∀ srv tableName,
      (Postgres.absent srv tableName →
       Postgres.GetTableSchema srv tableName
       = (Some (mkTable tableName ∅ ∅ ""), None)) ∧
      ((∃ t, Postgres.GetTableSchema srv tableName = (Some t, None)) ∨
       (∃ err, Postgres.GetTableSchema srv tableName = (None, Some err) ∧
               ¬ Postgres.absent srv tableName))).
Proof.
  split; [|split].
  - intros TableName bq tableName. split.
    + intros Hf Hd. unfold BigQuery.GetTableSchema.
      by rewrite BigQuery_Metadata_missing.
    + apply BigQuery_GetTableSchema_cases.
  - intros bq tableName. split.
    + intros Hf Hd. unfold BigQuery.GetTableSchema_old.
      by rewrite BigQuery_Metadata_missing.
    + apply BigQuery_GetTableSchema_old_cases.
  - intros srv tableName. split.
    + apply Postgres_GetTableSchema_absent.
    + destruct (Postgres_GetTableSchema_cases srv tableName) as [H|[err H]];
        [by left|right].
      exists err. split; [done|]. intros Habs.
      rewrite Postgres_GetTableSchema_absent in H by done. discriminate.
Qed.

(** A dataset and a server to evaluate on. *)
Definition events_table : BigQuery.BQTable :=
  BigQuery.mkBQTable
    [BigQuery.mkFieldSchema "id" "INTEGER"; BigQuery.mkFieldSchema "name" "STRING"]
    [("bulker_pk_events", "id")] [].

Definition one_table : BigQuery.Client :=
  BigQuery.mkClient {[ "events" := events_table ]} None.

Definition empty_server : Postgres.Server :=
  Postgres.mkServer (fun _ => Postgres.mkRows None [] None)
                    (fun _ => Postgres.mkRows None [] None).

Example GetTableSchema_events :
  ∃ t, BigQuery.GetTableSchema id one_table "events" = (Some t, None) ∧
       Name t = "events" ∧ PrimaryKeyName t = "bulker_pk_events" ∧
       Columns t !! "id" = Some (mkSQLColumn "INTEGER" (Some Types.INT64) false) ∧
       Columns t !! "name" = Some (mkSQLColumn "STRING" (Some Types.STRING) false) ∧
       size (Columns t) = 2.
Proof. eexists. split; [reflexivity|]. by vm_compute. Qed.

Lemma GetTableSchema_missing_table_is_empty_witness :
  BigQuery.GetTableSchema id one_table "clicks" = (Some (mkTable "clicks" ∅ ∅ ""), None) ∧
  BigQuery.GetTableSchema_old one_table "clicks" = (Some (mkTable "clicks" ∅ ∅ ""), None) ∧
  Postgres.GetTableSchema empty_server "clicks" = (Some (mkTable "clicks" ∅ ∅ ""), None).
Proof.
  destruct GetTableSchema_missing_table_is_empty as (Hnew & Hold & Hpg).
  split; [|split].
  - apply (proj1 (Hnew id one_table "clicks")); reflexivity.
  - apply (proj1 (Hold one_table "clicks")); reflexivity.
  - apply (proj1 (Hpg empty_server "clicks")); reflexivity.
Defined.

End GetTableSchemaFacts.

(** *** BigQuery.Insert: the chunks handed to insertItems *)

Module InsertFacts.
Import Go Bulker Sql BigQuery.

Section Chunks.
Context (put : list BQItem → option error).
Hypothesis put_ok : ∀ items, put items = None.

Lemma insertItems_ok items : insertItems put items = None.
Proof. unfold insertItems. by rewrite put_ok. Qed.

(** The loop keeps every object, in order, and lets a chunk grow to
    one item more than the limit before handing it over. *)
Lemma insertLoop_chunks objects items operation calls :
  (length items ≤ S bigqueryRowsLimitPerInsertOperation)%nat →
  Forall (fun c => length c = S bigqueryRowsLimitPerInsertOperation) calls →
  ∃ items' operation' calls',
    insertLoop put objects items operation calls = inr (items', operation', calls') ∧
    (concat calls' ++ items' = concat calls ++ items ++ objects)%list ∧
    (length items' ≤ S bigqueryRowsLimitPerInsertOperation)%nat ∧
    (objects ≠ [] → items' ≠ []) ∧
    Forall (fun c => length c = S bigqueryRowsLimitPerInsertOperation) calls'.
Proof.
  revert items operation calls.
  induction objects as [|object rest IH]; intros items operation calls Hlen Hcalls.
  - exists items, operation, calls. simpl. rewrite app_nil_r. done.
  - simpl. destruct (_ <? _)%nat eqn:Hfull.
    + apply Nat.ltb_lt in Hfull. rewrite insertItems_ok.
      destruct (IH [object] (S operation) (calls ++ [items])%list)
        as (items' & op' & calls' & Heq & Hcat & Hlen' & Hne & Hall).
      { unfold bigqueryRowsLimitPerInsertOperation. simpl. lia. }
      { apply Forall_app. split; [done|]. constructor; [lia|constructor]. }
      exists items', op', calls'. split; [done|]. split.
      * rewrite Hcat, concat_app. simpl. rewrite app_nil_r, <- !app_assoc. done.
      * split; [done|]. split; [|done]. intros _.
        destruct rest as [|o rest']; [|apply Hne; done].
        simpl in Heq. injection Heq as <- _ _. done.
    + apply Nat.ltb_ge in Hfull.
      destruct (IH (items ++ [object])%list operation calls)
        as (items' & op' & calls' & Heq & Hcat & Hlen' & Hne & Hall).
      { rewrite length_app. simpl. lia. }
      { done. }
      exists items', op', calls'. split; [done|]. split.
      * rewrite Hcat, <- !app_assoc. done.
      * split; [done|]. split; [|done]. intros _.
        destruct rest as [|o rest']; [|apply Hne; done].
        simpl in Heq. injection Heq as <- _ _. by destruct items.
Qed.

(** When no insert fails, Insert hands every object to insertItems
    exactly once, in order, in consecutive non-empty chunks of at most
    limit + 1 = 501 items. *)
Lemma Insert_chunks lastKind objects :
  let '(calls, err) := Insert_with lastKind put objects in
  err = None ∧ concat calls = objects ∧
  Forall (fun c => (0 < length c ≤ S bigqueryRowsLimitPerInsertOperation)%nat) calls.
Proof.
  unfold Insert_with.
  destruct (insertLoop_chunks objects [] 0 [])
    as (items & op & calls & Heq & Hcat & Hlen & Hne & Hall).
  { simpl. lia. }
  { constructor. }
  rewrite Heq. simpl in Hcat.
  assert (Forall (fun c => (0 < length c ≤ S bigqueryRowsLimitPerInsertOperation)%nat)
                 calls) as Hall'.
  { eapply Forall_impl; [exact Hall|]. simpl. intros c ->. lia. }
  destruct (0 <? length items)%nat eqn:Hpos.
  - apply Nat.ltb_lt in Hpos. rewrite insertItems_ok.
    split; [done|]. split.
    + rewrite concat_app. simpl. by rewrite app_nil_r.
    + apply Forall_app. split; [done|]. constructor; [lia|constructor].
  - apply Nat.ltb_ge in Hpos. destruct items; [|simpl in Hpos; lia].
    rewrite app_nil_r in Hcat. done.
Qed.

End Chunks.

(** While the objects still fit into limit + 1 items, the loop only
    appends them to the chunk being filled. *)
Lemma insertLoop_fits put (objects : list Object) items operation calls :
  (length items + length objects ≤ S bigqueryRowsLimitPerInsertOperation)%nat →
  insertLoop put objects items operation calls
  = inr ((items ++ objects)%list, operation, calls).
Proof.
  revert items. induction objects as [|object rest IH]; intros items Hlen; simpl.
  - by rewrite app_nil_r.
  - simpl in Hlen. destruct (_ <? _)%nat eqn:Hfull.
    + apply Nat.ltb_lt in Hfull. lia.
    + rewrite IH by (rewrite length_app; simpl; lia).
      by rewrite <- app_assoc.
Qed.

(** C10: the code at 501 objects.  All 501 are handed to insertItems
    in one chunk, one more than rowsLimitPerInsertOperation = 500: the
    loop tests [len(items) > 500] before it appends, so a chunk is
    flushed only once it holds 501 items.  Both revisions of Insert
    behave so. *)
Theorem Insert_hands_over_501_items (objects : list Object) :
  length objects = 501 →
  Insert (fun _ => None) objects = ([objects], None) ∧
  Insert_old (fun _ => None) objects = ([objects], None) ∧
  Forall (fun chunk => (bigqueryRowsLimitPerInsertOperation < length chunk)%nat)
         (fst (Insert (fun _ => None) objects)).
Proof.
  intros Hlen.
  assert (∀ kind, Insert_with kind (fun _ => None) objects = ([objects], None)) as H.
  { intros kind. unfold Insert_with.
    rewrite insertLoop_fits by (simpl; rewrite Hlen; done).
    simpl. destruct objects; [done|]. done. }
  unfold Insert, Insert_old. rewrite !H. split; [done|]. split; [done|].
  cbn [fst]. constructor; [|constructor].
  unfold bigqueryRowsLimitPerInsertOperation. lia.
Qed.

(** 501 distinct objects, [{id: 0}] to [{id: 500}]. *)
Definition numbered (n : nat) : list Object :=
  map (fun i => {[ "id" := Int (Z.of_nat i) ]}) (seq 0 n).

Lemma Insert_hands_over_501_items_witness :
  length (numbered 501) = 501 ∧
  Insert (fun _ => None) (numbered 501) = ([numbered 501], None).
Proof.
  assert (length (numbered 501) = 501) as H
    by (unfold numbered; rewrite length_map, length_seq; reflexivity).
  split; [exact H|].
  exact (proj1 (Insert_hands_over_501_items (numbered 501) H)).
Defined.

End InsertFacts.

(** *** ReplaceTable: the cutover of a table by its replacement *)

Module ReplaceTableFacts.
Import Go Bulker Sql.

(** Two maps are equal when they agree at every key; the lookups of
    inserts and deletes are decided key by key. *)
Ltac map_ext :=
  apply map_eq; intros ?k;
  repeat (progress (rewrite ?lookup_insert, ?lookup_delete;
                    repeat case_decide; simplify_eq));
  try done.

Lemma string_length_append (a b : string) :
  String.length (a ++ b) = (String.length a + String.length b)%nat.
Proof. induction a as [|c a IH]; simpl; [done|]. by rewrite IH. Qed.

Lemma dist_name_ne (s : string) : ClickHouse.fullDistTableName s ≠ s.
Proof.
  unfold ClickHouse.fullDistTableName, ClickHouse.fullTableName. intros H.
  apply (f_equal String.length) in H.
  rewrite string_length_append in H. simpl in H. lia.
Qed.


Section ClickHouseSingle.
Import ClickHouse.
Context (db : Database) (t r : string) (new : list Row).
Hypothesis Hr : db !! r = Some new.
Hypothesis Htr : t ≠ r.

(** Without a cluster, target present: EXCHANGE TABLES, then DROP of
    the old rows (now under the replacement's name) when asked. *)
Lemma ReplaceTable_exchange old dropOldTable :
  db !! t = Some old →
  ReplaceTable false db t r dropOldTable
  = (if dropOldTable then <[t := new]> (delete r db)
     else <[t := new]> (<[r := old]> db), None).
Proof.
  intros Ht. unfold ReplaceTable, fullTableName. simpl. rewrite Ht, Hr.
  destruct dropOldTable; [|done].
  unfold DropTable, dropTable, fullTableName. simpl.
  rewrite lookup_insert_ne by done. rewrite lookup_insert_eq.
  f_equal. map_ext.
Qed.


End ClickHouseSingle.

Section ClickHouseCluster.
Import ClickHouse.
Context (db : Database) (t r : string) (new dnew : list Row).
Hypothesis Hr : db !! r = Some new.
Hypothesis Hdr : db !! fullDistTableName r = Some dnew.
Hypothesis Htr : t ≠ r.
Hypothesis Htdr : t ≠ fullDistTableName r.
Hypothesis Hrdt : r ≠ fullDistTableName t.



End ClickHouseCluster.

Section BigQueryReplace.
Import BigQuery.
Context (TableName : string → string).
Hypothesis TableName_idem : ∀ x, TableName (TableName x) = TableName x.


End BigQueryReplace.



(** Scenario S3: table t holds three rows, the replacement two. *)
Definition old_rows : list ClickHouse.Row := [[Int 1]; [Int 2]; [Int 3]].
Definition new_rows : list ClickHouse.Row := [[Int 9]; [Int 10]].



Example ClickHouse_ReplaceTable_S3 :
  ClickHouse.ReplaceTable false {[ "t" := old_rows; "tmp" := new_rows ]} "t" "tmp" true
  = ({[ "t" := new_rows ]}, None).
Proof. by vm_compute. Qed.



End ReplaceTableFacts.

(** *** ClickHouse.LoadTable: what reaches the target table *)

Module LoadTableFacts.
Import Go Bulker Sql ClickHouse.

Section WithEnv.
Context (E : LoadEnv) (targetTable : Table).

Lemma ExecInTx_committed c args : committed (ExecInTx c args) = committed c.
Proof. done. Qed.



Lemma deferred_error c e :
  deferred c (Some e)
  = (Rollback c, Returned (Some (errorjWrap "LoadError" "failed to load table" e))).
Proof. done. Qed.



(** The scanner yields a prefix of the file, and all of it exactly
    when no line reaches the token limit. *)
Lemma scanLines_prefix lines :
  ∃ rest, lines = (fst (scanLines lines) ++ rest)%list ∧
          (snd (scanLines lines) = None → rest = []).
Proof.
  induction lines as [|line lines IH]; simpl.
  - by exists [].
  - destruct (_ <=? _)%N.
    + exists (line :: lines). done.
    + destruct IH as (rest & Heq & Hnone).
      destruct (scanLines lines) as [tokens err]. simpl in *.
      exists rest. split; [by f_equal|done].
Qed.


End WithEnv.

(** A run to evaluate LoadTable on: table "events" with the single
    column "raw", a decoder that reads a line as [{raw: line}], no
    conversion and no failure anywhere. *)
Definition events : Table :=
  mkTable "events" {[ "raw" := mkSQLColumn "String" (Some Types.STRING) false ]} ∅ "".

Definition quiet : LoadEnv :=
  mkLoadEnv None None None None (fun _ _ => None)
            (fun line => inr {[ "raw" := Str line ]})
            (fun v _ => inr v) (fun err => err).

Fixpoint replicate_char (n : nat) (c : ascii) : string :=
  match n with
  | O => EmptyString
  | S n' => String c (replicate_char n' c)
  end.

(** A line of 65536 bytes. *)
Definition long_line : string := replicate_char (N.to_nat 65536) "x"%char.

Example LoadTable_three_short_lines :
  LoadTable quiet (mkConn [[Str "r0"]] None) events
            (mkLoadSource LocalFile JSONFormat ["a"; "b"; "c"])
  = (mkConn [[Str "r0"]; [Str "a"]; [Str "b"]; [Str "c"]] None, Returned None).
Proof. by vm_compute. Qed.

Example LoadTable_exec_error_rolls_back :
  LoadTable (mkLoadEnv None None None None
                       (fun i _ => if (i =? 1)%nat then Some (driverError OtherClass "exec") else None)
                       (Decode quiet) (convertType quiet) (checkErr quiet))
            (mkConn [[Str "r0"]] None) events
            (mkLoadSource LocalFile JSONFormat ["a"; "b"; "c"])
  = (mkConn [[Str "r0"]] None,
     Returned (Some (errorjWrap "LoadError" "failed to load table"
                                (driverError OtherClass "exec")))).
Proof. by vm_compute. Qed.

(** C1: the code on a staging file of three lines whose second line is
    65536 bytes long.  The scanner stops at that line, the loop ends as
    at the end of the file, scanner.Err() is not consulted, the
    transaction is committed and LoadTable returns nil: the target
    table has gained the first row only, one of the three consumed. *)
Theorem LoadTable_commits_lines_before_long_line :
  N.of_nat (String.length long_line) = 65536%N ∧
  scanLines ["a"; long_line; "c"] = (["a"], Some ErrTooLong) ∧
  LoadTable quiet (mkConn [[Str "r0"]] None) events
            (mkLoadSource LocalFile JSONFormat ["a"; long_line; "c"])
  = (mkConn [[Str "r0"]; [Str "a"]] None, Returned None).
Proof. repeat split; vm_compute; reflexivity. Qed.

End LoadTableFacts.

(** *** Postgres.LoadTable: what is bound to the COPY statement *)

Module CopyFacts.
Import Go Bulker Sql Postgres.

#[local] Instance string_le_total : Total string_le.
Proof. intros a b. unfold string_le. apply String.leb_total. Qed.

(** SortedColumnNames lists exactly the table's column names, in
    ascending order. *)
Lemma SortedColumnNames_sorted (t : Table) :
  Sorted string_le (SortedColumnNames t) ∧
  SortedColumnNames t ≡ₚ map fst (map_to_list (Columns t)).
Proof.
  unfold SortedColumnNames. split.
  - apply Sorted_merge_sort. apply _.
  - apply merge_sort_Permutation.
Qed.

Lemma bind_null : bind "\N" = NULL.
Proof. reflexivity. Qed.

Lemma bind_text v : v ≠ "\N" → bind v = Text v.
Proof. intros H. unfold bind. by apply String.eqb_neq in H as ->. Qed.

Section WithEnv.
Context (E : LoadEnv).

Lemma copyRecords_all_ok data i done :
  (∀ j args, execErr E j args = None) →
  copyRecords E (map inr data) i done = ((done ++ map (map bind) data)%list, None).
Proof.
  intros Hexec. revert i done.
  induction data as [|record rest IH]; intros i done; simpl.
  - by rewrite app_nil_r.
  - rewrite Hexec, IH, <- app_assoc. done.
Qed.


(** C9. For a local CSV staging file and a run in which the statement
    is prepared, the file opened and no ExecContext, flush or Close
    fails: LoadTable prepares [COPY "schema"."table"(columns) FROM STDIN]
    with the table's column names quoted, in SortedColumnNames order
    (ascending); it skips the first record the CSV reader yields, the
    header; for every other record, in order, it executes the statement
    with one argument per field, positionally: NULL for a field that
    reads \N, the field's string otherwise; then it flushes and returns
    nil. *)
Theorem LoadTable_binds_fields (targetTable : Table) (loadSource : LoadSource)
        (data : list (list string)) :
  SourceType loadSource = LocalFile →
  Format loadSource = CSV →
  prepareErr E = None → openErr E = None →
  (∀ i args, execErr E i args = None) →
  flushErr E = None → closeErr E = None →
  tail (Records loadSource) = map inr data →
  LoadTable E targetTable loadSource
  = (mkTrace (Some (pgCopyTemplate
                      (fullTableName E (Name targetTable))
                      (Join (map quoted (SortedColumnNames targetTable)) ", ")))
             (map (map bind) data) true,
     None) ∧
  bind "\N" = NULL ∧
  (∀ v, v ≠ "\N" → bind v = Text v) ∧
  Sorted string_le (SortedColumnNames targetTable) ∧
  SortedColumnNames targetTable ≡ₚ map fst (map_to_list (Columns targetTable)).
Proof.
  intros Hty Hfmt Hprep Hopen Hexec Hflush Hclose Hdata.
  split; [|split; [apply bind_null|split; [apply bind_text|
                                           apply SortedColumnNames_sorted]]].
  unfold LoadTable.
  rewrite decide_False by (rewrite Hty; auto).
  rewrite decide_False by (rewrite Hfmt; auto).
  rewrite Hprep, Hopen, Hdata, copyRecords_all_ok by done.
  rewrite Hflush, Hclose. done.
Qed.

End WithEnv.

(** A run to evaluate LoadTable on: table "events" with columns name
    and id, schema "public", nothing failing. *)
Definition events : Table :=
  mkTable "events"
          {[ "name" := mkSQLColumn "text" None false;
             "id" := mkSQLColumn "bigint" None false ]} ∅ "".

Definition quiet : LoadEnv :=
  mkLoadEnv "public" None None (fun _ _ => None) None None (fun err => err).

Definition staging : LoadSource :=
  mkLoadSource LocalFile CSV
               [inr [quoted "id"; quoted "name"]; inr ["1"; "\N"]; inr ["2"; "bob"]].

Example SortedColumnNames_events : SortedColumnNames events = ["id"; "name"].
Proof. by vm_compute. Qed.

Lemma LoadTable_binds_fields_witness :
  LoadTable quiet events staging
  = (mkTrace (Some (pgCopyTemplate (fullTableName quiet "events")
                                   (Join (map quoted (SortedColumnNames events)) ", ")))
             [[Text "1"; NULL]; [Text "2"; Text "bob"]] true,
     None).
Proof.
  exact (proj1 (LoadTable_binds_fields quiet events staging [["1"; "\N"]; ["2"; "bob"]]
                  eq_refl eq_refl eq_refl eq_refl (fun _ _ => eq_refl)
                  eq_refl eq_refl eq_refl)).
Defined.

Example LoadTable_statement :
  prepared (fst (LoadTable quiet events staging))
  = Some ("COPY " ++ dquote ++ "public" ++ dquote ++ "." ++ dquote ++ "events" ++ dquote
          ++ "(" ++ dquote ++ "id" ++ dquote ++ ", " ++ dquote ++ "name" ++ dquote
          ++ ") FROM STDIN").
Proof. by vm_compute. Qed.

End CopyFacts.

(** *** BigQuery identifiers: is the normalisation idempotent? *)

Module NamesFacts.
Import Go BigQueryNames.

(** Predicates on the characters of a string. *)
Fixpoint all_chars (p : ascii → bool) (s : string) : bool :=
  match s with
  | EmptyString => true
  | String c s' => p c && all_chars p s'
  end.

Fixpoint some_char (p : ascii → bool) (s : string) : bool :=
  match s with
  | EmptyString => false
  | String c s' => p c || some_char p s'
  end.

(** The string holds a character other than the underscore. *)
Definition has_other (s : string) : bool :=
  some_char (fun c => negb (is_underscore c)) s.

Definition first_not_digit (s : string) : bool :=
  match s with
  | EmptyString => false
  | String c _ => negb (IsNumber c)
  end.

Definition hasReservedPrefix (lc : string) : bool :=
  existsb (fun reserved => HasPrefix lc reserved) bigqueryReservedPrefixes.

Lemma string_length_app (a b : string) :
  String.length (a ++ b) = (String.length a + String.length b)%nat.
Proof. induction a as [|c a IH]; simpl; [done|]. by rewrite IH. Qed.

(** **** Stripping, collapsing, replacing *)

Lemma strip_all_supported s : all_chars supported (stripUnsupported s) = true.
Proof.
  induction s as [|c s IH]; simpl; [done|].
  destruct (supported c) eqn:Hc; simpl; [by rewrite Hc|done].
Qed.

Lemma strip_fixed s : all_chars supported s = true → stripUnsupported s = s.
Proof.
  induction s as [|c s IH]; simpl; [done|].
  intros [Hc Hs]%andb_true_iff. by rewrite Hc, IH.
Qed.

Lemma supported_not_space c : supported c = true → Ascii.eqb c " "%char = false.
Proof.
  intros Hc. destruct (Ascii.eqb c " "%char) eqn:He; [|done].
  apply Ascii.eqb_eq in He. subst c. by vm_compute in Hc.
Qed.

Lemma replaceSpaces_fixed s : all_chars supported s = true → replaceSpaces s = s.
Proof.
  induction s as [|c s IH]; simpl; [done|].
  intros [Hc Hs]%andb_true_iff. by rewrite supported_not_space, IH.
Qed.

Lemma has_other_collapse s : has_other (collapseUnderscores s) = has_other s.
Proof.
  unfold has_other. induction s as [|c s IH]; [done|].
  cbn [collapseUnderscores]. destruct (is_underscore c) eqn:Hc.
  - destruct s as [|c' s']; [done|].
    destruct (is_underscore c') eqn:Hc'.
    + rewrite IH. cbn [some_char]. by rewrite Hc, Hc'.
    + cbn [some_char] in *. by rewrite IH.
  - cbn [some_char]. by rewrite IH.
Qed.

Lemma collapse_not_blank s :
  has_other s = true →
  String.eqb (collapseUnderscores s) "" || String.eqb (collapseUnderscores s) "_" = false.
Proof.
  intros H. rewrite <- has_other_collapse in H.
  destruct (collapseUnderscores s) as [|c [|c' s']]; [done| |].
  - unfold has_other in H. cbn in H. rewrite orb_false_r in H.
    apply negb_true_iff in H. unfold is_underscore in H.
    cbn. by rewrite H.
  - cbn. by destruct (Ascii.eqb c "_"%char).
Qed.

Lemma collapse_blank s :
  has_other s = false →
  collapseUnderscores s = "" ∨ collapseUnderscores s = "_".
Proof.
  unfold has_other. induction s as [|a s IH]; [by left|].
  cbn [some_char]. intros [Ha Hs]%orb_false_iff. apply negb_false_iff in Ha.
  cbn [collapseUnderscores]. rewrite Ha. destruct s as [|b s2].
  - right. unfold is_underscore in Ha. apply Ascii.eqb_eq in Ha. by subst a.
  - pose proof Hs as Hs'. cbn [some_char] in Hs'.
    apply orb_false_iff in Hs' as [Hb _]. apply negb_false_iff in Hb.
    rewrite Hb. by apply IH.
Qed.

(** **** Lower case *)

Lemma ToLower_length s : String.length (ToLower s) = String.length s.
Proof. induction s as [|c s IH]; simpl; [done|]. by rewrite IH. Qed.

Lemma ToLower_firstN n s : ToLower (firstN n s) = firstN n (ToLower s).
Proof.
  revert s. induction n as [|n IH]; intros [|c s]; simpl; try done.
  by rewrite IH.
Qed.

Lemma ToLower_ShortenString s n :
  ToLower (ShortenString s n) = ShortenString (ToLower s) n.
Proof.
  unfold ShortenString. rewrite ToLower_length.
  destruct (_ <=? _)%nat; [done|apply ToLower_firstN].
Qed.

(** **** Prefixes and the length clamp *)

Lemma prefix_firstN p n s :
  String.prefix p (firstN n s) = true → String.prefix p s = true.
Proof.
  revert p s. induction n as [|n IH]; intros [|a p] [|b s]; simpl; try done.
  destruct (ascii_dec a b); [apply IH|done].
Qed.

Lemma prefix_ShortenString p s n :
  String.prefix p (ShortenString s n) = true → String.prefix p s = true.
Proof.
  unfold ShortenString. destruct (_ <=? _)%nat; [done|apply prefix_firstN].
Qed.

Lemma prefix_both a b s :
  String.prefix a s = true → String.prefix b s = true →
  String.prefix a b = true ∨ String.prefix b a = true.
Proof.
  revert a b. induction s as [|c s IH]; intros [|x a] [|y b]; simpl; auto;
    try done.
  destruct (ascii_dec x c) as [Hx|]; [|done].
  destruct (ascii_dec y c) as [Hy|]; [|done].
  subst x y. intros Ha Hb.
  destruct (ascii_dec c c); [by apply IH|done].
Qed.

Lemma firstN_length n s :
  (n ≤ String.length s)%nat → String.length (firstN n s) = n.
Proof.
  revert s. induction n as [|n IH]; intros [|c s]; simpl; try done; try lia.
  intros H. rewrite IH; lia.
Qed.

Lemma ShortenString_length s n : (String.length (ShortenString s n) ≤ n)%nat.
Proof.
  unfold ShortenString. destruct (_ <=? _)%nat eqn:H.
  - by apply Nat.leb_le in H.
  - apply Nat.leb_gt in H. rewrite firstN_length; lia.
Qed.

Lemma ShortenString_short s n :
  (String.length s ≤ n)%nat → ShortenString s n = s.
Proof. intros H. unfold ShortenString. by apply Nat.leb_le in H as ->. Qed.

Lemma ShortenString_long s n :
  (n < String.length s)%nat → String.length (ShortenString s n) = n.
Proof.
  intros H. unfold ShortenString.
  destruct (_ <=? _)%nat eqn:E; [apply Nat.leb_le in E; lia|].
  apply firstN_length. lia.
Qed.

Lemma all_chars_firstN p n s :
  all_chars p s = true → all_chars p (firstN n s) = true.
Proof.
  revert s. induction n as [|n IH]; intros [|c s]; simpl; try done.
  intros [Hc Hs]%andb_true_iff. by rewrite Hc, IH.
Qed.

Lemma all_chars_ShortenString p s n :
  all_chars p s = true → all_chars p (ShortenString s n) = true.
Proof.
  unfold ShortenString. destruct (_ <=? _)%nat; [done|apply all_chars_firstN].
Qed.

Lemma all_chars_app p a b :
  all_chars p (a ++ b) = all_chars p a && all_chars p b.
Proof. induction a as [|c a IH]; simpl; [done|]. by rewrite IH, andb_assoc. Qed.

Lemma all_chars_impl (p q : ascii → bool) s :
  (∀ c, p c = true → q c = true) → all_chars p s = true → all_chars q s = true.
Proof.
  intros Hpq. induction s as [|c s IH]; simpl; [done|].
  intros [Hc Hs]%andb_true_iff. by rewrite (Hpq c Hc), IH.
Qed.

Lemma first_not_digit_ShortenString s n :
  first_not_digit s = true → first_not_digit (ShortenString s (S n)) = true.
Proof.
  unfold ShortenString. destruct (_ <=? _)%nat; [done|]. by destruct s.
Qed.

(** **** The reserved words and prefixes *)

Lemma reserved_words_table :
  forallb (fun w => (String.length w <=? 20)%nat
                    && negb (String.prefix "_" w)
                    && negb (String.prefix "column_" w))
          bigqueryReservedWords = true.
Proof. by vm_compute. Qed.

Lemma isReservedWord_inv s :
  isReservedWord s = true →
  (String.length s ≤ 20)%nat ∧ String.prefix "_" s = false ∧
  String.prefix "column_" s = false.
Proof.
  intros H. apply existsb_exists in H as (w & Hin & Heq).
  apply String.eqb_eq in Heq. subst w.
  pose proof reserved_words_table as Ht. rewrite forallb_forall in Ht.
  apply Ht in Hin. apply andb_true_iff in Hin as [[H1 H2]%andb_true_iff H3].
  apply Nat.leb_le in H1. apply negb_true_iff in H2, H3. done.
Qed.

Definition tail_string (s : string) : string :=
  match s with
  | EmptyString => EmptyString
  | String _ s' => s'
  end.

(** Every reserved prefix starts with an underscore, and none of them,
    with an underscore put in front, starts with a reserved prefix. *)
Lemma reserved_prefixes_table :
  forallb (fun q =>
             String.prefix "_" q
             && forallb (fun p => negb (String.prefix (tail_string q) p)
                                  && negb (String.prefix p (tail_string q)))
                        bigqueryReservedPrefixes)
          bigqueryReservedPrefixes = true.
Proof. by vm_compute. Qed.

Lemma prefix_underscore q :
  String.prefix "_" q = true → q = String "_"%char (tail_string q).
Proof.
  destruct q as [|c q]; cbn [String.prefix tail_string]; [done|].
  destruct (ascii_dec "_"%char c) as [<-|]; done.
Qed.

Lemma prefix_cons c p s :
  String.prefix (String c p) (String c s) = String.prefix p s.
Proof. simpl. by destruct (ascii_dec c c). Qed.

Lemma prefix_app a b : String.prefix a (a ++ b) = true.
Proof.
  induction a as [|c a IH]; [by destruct b|].
  change (String c a ++ b) with (String c (a ++ b)). by rewrite prefix_cons.
Qed.

Lemma hasReservedPrefix_first c s :
  is_underscore c = false → hasReservedPrefix (String c s) = false.
Proof.
  intros Hc. destruct (hasReservedPrefix (String c s)) eqn:H; [|done].
  apply existsb_exists in H as (q & Hin & Hq).
  pose proof reserved_prefixes_table as Ht. rewrite forallb_forall in Ht.
  apply Ht in Hin. apply andb_true_iff in Hin as [Hu _].
  apply prefix_underscore in Hu. unfold HasPrefix in Hq. rewrite Hu in Hq.
  cbn [String.prefix] in Hq. destruct (ascii_dec "_"%char c) as [<-|]; [|done].
  by vm_compute in Hc.
Qed.

Lemma hasReservedPrefix_underscore lc :
  hasReservedPrefix lc = true → hasReservedPrefix (String "_"%char lc) = false.
Proof.
  intros Hp. destruct (hasReservedPrefix (String "_"%char lc)) eqn:H; [|done].
  apply existsb_exists in H as (q & Hinq & Hq).
  apply existsb_exists in Hp as (p & Hinp & Hp).
  pose proof reserved_prefixes_table as Ht. rewrite forallb_forall in Ht.
  apply Ht in Hinq. apply andb_true_iff in Hinq as [Hu Hall].
  rewrite forallb_forall in Hall. apply Hall in Hinp.
  apply andb_true_iff in Hinp as [H1 H2]. apply negb_true_iff in H1, H2.
  apply prefix_underscore in Hu. unfold HasPrefix in Hq, Hp.
  rewrite Hu, prefix_cons in Hq.
  destruct (prefix_both _ _ _ Hq Hp); congruence.
Qed.

Lemma hasReservedPrefix_ShortenString s n :
  hasReservedPrefix (ShortenString s n) = true → hasReservedPrefix s = true.
Proof.
  intros H. apply existsb_exists in H as (q & Hin & Hq).
  apply existsb_exists. exists q. split; [done|].
  unfold HasPrefix in *. by apply prefix_ShortenString in Hq.
Qed.

Lemma ShortenString_cons c s n :
  ∃ s', ShortenString (String c s) (S n) = String c s'.
Proof. unfold ShortenString. destruct (_ <=? _)%nat; simpl; eauto. Qed.

(** **** Normal forms of columnNameFunc *)

(** What a result [r] with quoting flag [q] looks like: supported
    characters only, one of them not an underscore, no leading digit,
    reserved exactly when [q], and otherwise without reserved prefix
    and within the length limit. *)
Definition normal (r : string) (q : bool) : Prop :=
  all_chars supported r = true ∧ has_other r = true ∧
  first_not_digit r = true ∧
  isReservedWord (ToLower r) = q ∧
  (q = false →
   hasReservedPrefix (ToLower r) = false ∧ (String.length r ≤ 300)%nat).

(** The same without the demand for a character other than the
    underscore. *)
Definition shape (r : string) (q : bool) : Prop :=
  all_chars supported r = true ∧ first_not_digit r = true ∧
  isReservedWord (ToLower r) = q ∧
  (q = false →
   hasReservedPrefix (ToLower r) = false ∧ (String.length r ≤ 300)%nat).

(** The lower-case hexadecimal digits [%x] prints. *)
Definition is_hex (c : ascii) : bool := is_digit c || in_range 97 102 c.

Definition hash_ok (HashHex : string → string) : Prop :=
  ∀ s, all_chars is_hex (HashHex s) = true ∧ (String.length (HashHex s) ≤ 64)%nat.

Lemma is_hex_supported c : is_hex c = true → supported c = true.
Proof.
  unfold is_hex, supported, is_digit, is_upper, is_lower, in_range.
  intros H. destruct (_ && _)%N eqn:E1 in H; [by rewrite E1|]. simpl in H.
  apply andb_true_iff in H as [H1 H2]. apply N.leb_le in H1, H2.
  replace ((97 <=? N_of_ascii c)%N && (N_of_ascii c <=? 122)%N) with true.
  - by rewrite !orb_true_r.
  - symmetry. apply andb_true_iff. split; apply N.leb_le; lia.
Qed.

Section WithHash.
Context (HashHex : string → string).

(** A normal form is a fixed point. *)
Lemma normal_fixed r q : normal r q → columnNameFunc HashHex r = Some (r, q).
Proof.
  intros (Hs & Ho & Hd & Hres & Hrest).
  unfold columnNameFunc. cbv zeta.
  rewrite (strip_fixed r Hs), (collapse_not_blank r Ho),
    (replaceSpaces_fixed r Hs), (strip_fixed r Hs).
  destruct r as [|c r']; [done|].
  cbn [first_not_digit] in Hd. apply negb_true_iff in Hd. rewrite Hd, Hres.
  destruct q; [done|]. destruct (Hrest eq_refl) as [Hp Hl].
  unfold hasReservedPrefix in Hp. rewrite Hp.
  by rewrite ShortenString_short.
Qed.

(** The placeholder branch: nothing but underscores is left of [x]. *)
Lemma columnNameFunc_blank x :
  has_other (stripUnsupported x) = false →
  columnNameFunc HashHex x = Some ("column_" ++ HashHex x, false).
Proof.
  intros Ho. unfold columnNameFunc. cbv zeta.
  by destruct (collapse_blank _ Ho) as [-> | ->].
Qed.

Lemma strip_replaceSpaces_nonempty x :
  stripUnsupported (replaceSpaces x) = "" → stripUnsupported x = "".
Proof.
  induction x as [|c x IH]; [done|]. cbn [replaceSpaces stripUnsupported].
  destruct (Ascii.eqb c " "%char) eqn:Hsp.
  - by vm_compute.
  - destruct (supported c); [done|apply IH].
Qed.

(** columnNameFunc never indexes an empty string. *)
Lemma columnNameFunc_total x : is_Some (columnNameFunc HashHex x).
Proof.
  unfold columnNameFunc. cbv zeta.
  destruct (_ || _) eqn:Hblank; [by eauto|].
  destruct (stripUnsupported (replaceSpaces x)) as [|c rest] eqn:E.
  - apply strip_replaceSpaces_nonempty in E. rewrite E in Hblank. done.
  - destruct (isReservedWord _); [by eauto|]. destruct (existsb _ _); by eauto.
Qed.

Hypothesis HashHex_ok : hash_ok HashHex.

(** Every result has the shape of a column name. *)
Lemma columnNameFunc_shape x r q :
  columnNameFunc HashHex x = Some (r, q) → shape r q.
Proof.
  unfold columnNameFunc. cbv zeta.
  destruct (_ || _) eqn:Hblank.
  - (* the placeholder *)
    intros [= <- <-]. destruct (HashHex_ok x) as [Hhex Hlen].
    assert (all_chars supported (HashHex x) = true) as Hsup
      by (eapply all_chars_impl; [apply is_hex_supported|done]).
    split; [|split; [done|split]].
    + rewrite all_chars_app, Hsup. by vm_compute.
    + destruct (isReservedWord _) eqn:Hres; [|done].
      apply isReservedWord_inv in Hres as (_ & _ & Hp).
      change (ToLower ("column_" ++ HashHex x))
        with ("column_" ++ ToLower (HashHex x)) in Hp.
      by rewrite prefix_app in Hp.
    + intros _. split.
      * change (ToLower ("column_" ++ HashHex x))
          with (String "c"%char ("olumn_" ++ ToLower (HashHex x))).
        by apply hasReservedPrefix_first.
      * rewrite string_length_app. simpl. lia.
  - destruct (stripUnsupported (replaceSpaces x)) as [|c0 rest0] eqn:E; [done|].
    pose proof (strip_all_supported (replaceSpaces x)) as Hsup0. rewrite E in Hsup0.
    set (result := if IsNumber c0 then "_" ++ String c0 rest0 else String c0 rest0).
    assert (all_chars supported result = true) as Hsup.
    { unfold result. destruct (IsNumber c0); [|done].
      change ("_" ++ String c0 rest0) with (String "_"%char (String c0 rest0)).
      cbn [all_chars] in Hsup0 |- *. rewrite Hsup0. by vm_compute. }
    assert (first_not_digit result = true) as Hfd.
    { unfold result. destruct (IsNumber c0) eqn:Hn; [done|]. cbn. by rewrite Hn. }
    destruct (isReservedWord (ToLower result)) eqn:Hres.
    + intros [= <- <-]. repeat split; done.
    + destruct (existsb _ _) eqn:Hp.
      * (* a reserved prefix: one more underscore in front *)
        intros [= <- <-].
        change ("_" ++ result) with (String "_"%char result) in *.
        destruct (ShortenString_cons "_"%char result 299) as [s' Hs'].
        split; [|split; [|split]].
        -- apply all_chars_ShortenString. cbn [all_chars]. by rewrite Hsup.
        -- by rewrite Hs'.
        -- destruct (isReservedWord (ToLower (ShortenString _ _))) eqn:Hres'; [|done].
           apply isReservedWord_inv in Hres' as (_ & Hu & _).
           rewrite Hs' in Hu. cbn [ToLower] in Hu.
           change (lower "_"%char) with "_"%char in Hu.
           rewrite prefix_cons in Hu. by destruct (ToLower s').
        -- intros _. split; [|apply ShortenString_length].
           rewrite ToLower_ShortenString.
           destruct (hasReservedPrefix (ShortenString _ _)) eqn:Hp'; [|done].
           apply hasReservedPrefix_ShortenString in Hp'.
           change (ToLower (String "_"%char result))
             with (String "_"%char (ToLower result)) in Hp'.
           by rewrite hasReservedPrefix_underscore in Hp'.
      * (* the plain branch *)
        intros [= <- <-].
        split; [|split; [|split]].
        -- by apply all_chars_ShortenString.
        -- by apply (first_not_digit_ShortenString result 299).
        -- rewrite ToLower_ShortenString.
           destruct (decide (String.length (ToLower result) ≤ 300)%nat) as [Hle|Hgt].
           ++ by rewrite ShortenString_short.
           ++ destruct (isReservedWord (ShortenString _ _)) eqn:Hres'; [|done].
              apply isReservedWord_inv in Hres' as (Hlen & _).
              rewrite ShortenString_long in Hlen by lia. lia.
        -- intros _. split; [|apply ShortenString_length].
           rewrite ToLower_ShortenString.
           destruct (hasReservedPrefix (ShortenString _ _)) eqn:Hp'; [|done].
           apply hasReservedPrefix_ShortenString in Hp'.
           unfold hasReservedPrefix in Hp'. congruence.
Qed.

(** Every result that holds a character other than the underscore is
    a normal form. *)
Lemma columnNameFunc_normal x r q :
  columnNameFunc HashHex x = Some (r, q) → has_other r = true → normal r q.
Proof.
  intros Hx Ho. destruct (columnNameFunc_shape x r q Hx) as (H1 & H2 & H3 & H4).
  by repeat split; try apply H4.
Qed.

End WithHash.

(** tableNameFunc returns the identifier as it is: applying it again
    changes neither the name nor the quoting flag. *)
Lemma tableNameFunc_idempotent unquoted x :
  tableNameFunc unquoted (fst (tableNameFunc unquoted x)) = tableNameFunc unquoted x.
Proof. done. Qed.

(** The identifier of 300 underscores followed by the letter a. *)
Definition underscores (n : nat) : string :=
  (fix go n := match n with O => EmptyString | S k => String "_"%char (go k) end) n.

Definition long_identifier : string := underscores 300 ++ "a".

(** C8: the code at the identifier of 300 underscores followed by "a",
    whatever the hash function.  The guard for identifiers of
    underscores only looks at the identifier before the length clamp:
    the first application returns the first 300 characters, 300
    underscores; the second finds only underscores and returns the
    placeholder "column_<hash>".  ColumnName(ColumnName(x)) differs
    from ColumnName(x). *)
Theorem columnNameFunc_not_idempotent_after_clamp (HashHex : string → string) :
  columnNameFunc HashHex long_identifier = Some (underscores 300, false) ∧
  columnNameFunc HashHex (underscores 300)
  = Some ("column_" ++ HashHex (underscores 300), false) ∧
  columnNameFunc HashHex (underscores 300)
  ≠ columnNameFunc HashHex long_identifier.
Proof.
  assert (columnNameFunc HashHex long_identifier = Some (underscores 300, false)) as H1
    by (vm_compute; reflexivity).
  assert (columnNameFunc HashHex (underscores 300)
          = Some ("column_" ++ HashHex (underscores 300), false)) as H2
    by (apply columnNameFunc_blank; vm_compute; reflexivity).
  split; [done|]. split; [done|].
  rewrite H1, H2. intros [= H].
Qed.

Example columnNameFunc_samples :
  let h := fun _ : string => "0f" in
  columnNameFunc h "select" = Some ("select", true) ∧
  columnNameFunc h "1 abc-d" = Some ("_1_abcd", false) ∧
  columnNameFunc h "_TABLE_x" = Some ("__TABLE_x", false) ∧
  columnNameFunc h "__TABLE_x" = Some ("__TABLE_x", false) ∧
  columnNameFunc h " -" = Some ("column_0f", false) ∧
  columnNameFunc h "column_0f" = Some ("column_0f", false).
Proof. by vm_compute. Qed.

End NamesFacts.

(** *** The stream base: what changes the status, and what a run records *)

Module StreamRunFacts.
Import Go Bulker Sql AbstractStream StreamFacts.

Definition is_complete (s : Step) : bool :=
  match s with
  | StepPostComplete _ => true
  | _ => false
  end.


Section WithCollaborators.
Context (C : Collaborators).

Lemma step_status ps s :
  is_complete s = false → Status_ (state (step C ps s)) = Status_ (state ps).
Proof.
  destruct s; simpl; intros H; try done.
  - by rewrite init_state.
  - apply preprocess_status.
  - apply postConsume_status.
  - apply Consume_status.
Qed.

(** X1. Only postComplete changes the status: after any sequence of init,
    preprocess, postConsume and Consume steps it is what it was, whatever
    failed on the way; postComplete sets Completed when given nil and
    Failed (with the error as lastError) otherwise, and keeps the three
    counters. *)
Theorem status_changes_only_on_complete (ps : AbstractSQLStream) (l : list Step) :
  Forall (fun s => is_complete s = false) l →
  Status_ (state (steps C ps l)) = Status_ (state ps) ∧
  (∀ err,
      let st := state (fst (postComplete (steps C ps l) err)) in
      Status_ st = match err with Some _ => Failed | None => Completed end ∧
      (∀ e, err = Some e → LastError st = Some e) ∧
      ProcessedRows st = ProcessedRows (state (steps C ps l)) ∧
      SuccessfulRows st = SuccessfulRows (state (steps C ps l)) ∧
      ErrorRowIndex st = ErrorRowIndex (state (steps C ps l))).
Proof.
  intros Hl. split.
  - unfold steps. revert ps.
    induction Hl as [|s l Hs Hl IH]; intros ps; simpl; [done|].
    rewrite IH. by apply step_status.
  - intros [e|]; simpl; repeat split; try done; by intros e' [= <-].
Qed.




End WithCollaborators.

(** X29. init sets the database up at most once: after an init that
    returned nil the stream is marked inited, and every later init
    returns nil and changes nothing without consulting InitDatabase,
    even one that would now fail.  An init that fails leaves the stream
    as it was, so the next init tries again.  init never touches the
    state. *)
Theorem init_sets_up_once (C C' : Collaborators) (ps : AbstractSQLStream) :
  let ps1 := fst (init C ps) in
  (snd (init C ps) = None → inited ps1 = true ∧ init C' ps1 = (ps1, None)) ∧
  (snd (init C ps) ≠ None → ps1 = ps ∧ inited ps = false) ∧
  state ps1 = state ps.
Proof.
  unfold init. destruct (inited ps) eqn:Hi; simpl.
  - rewrite Hi. by repeat split.
  - destruct (InitDatabase C); simpl; by repeat split.
Qed.

Lemma status_changes_only_on_complete_witness :
  Status_ (state (steps plain events_stream
                        [StepInit; StepConsume ∅ (Some (errorNew "insert failed"));
                         StepConsume ∅ None])) = Active.
Proof.
  refine (proj1 (status_changes_only_on_complete plain events_stream _ _)).
  repeat constructor.
Defined.


End StreamRunFacts.

(** *** BigQuery's type maps: the round trip *)

Module TypesRoundTripFacts.
Import Types TypesFacts.

Abbreviation fold_init := (fold_left (fun m e => init_inner (fst e) 0 (snd e) m)).

Lemma init_inner_reverse_other dataType i sqlTypes m t :
  t ∉ sqlTypes →
  reverse (init_inner dataType i sqlTypes m) !! t = reverse m !! t.
Proof.
  revert i m. induction sqlTypes as [|u us IH]; intros i m Ht; simpl; [done|].
  apply not_elem_of_cons in Ht as [Hu Hus].
  rewrite IH by done.
  destruct (decide (dataType ≠ UNKNOWN)); simpl.
  - rewrite lookup_insert_ne by done. by destruct (decide (i = 0)).
  - by destruct (decide (i = 0)).
Qed.

Lemma init_inner_reverse_unknown i sqlTypes m :
  reverse (init_inner UNKNOWN i sqlTypes m) = reverse m.
Proof.
  revert i m. induction sqlTypes as [|u us IH]; intros i m; simpl; [done|].
  rewrite IH. destruct (decide (UNKNOWN ≠ UNKNOWN)); [done|].
  by destruct (decide (i = 0)).
Qed.

Lemma init_inner_reverse_member dataType i sqlTypes m t :
  dataType ≠ UNKNOWN → t ∈ sqlTypes →
  reverse (init_inner dataType i sqlTypes m) !! t = Some dataType.
Proof.
  intros Hd. revert i m.
  induction sqlTypes as [|u us IH]; intros i m Ht; simpl.
  - by apply elem_of_nil in Ht.
  - destruct (decide (t ∈ us)) as [Hin|Hnin]; [by apply IH|].
    apply elem_of_cons in Ht as [->|Ht]; [|done].
    rewrite init_inner_reverse_other by done.
    destruct (decide (dataType ≠ UNKNOWN)); [|done]. simpl.
    apply lookup_insert_eq.
Qed.

(** The entries of [order] that write the dialect type [t] into the
    reverse map all belong to the data type [d]. *)
Definition only_for (order : list (DataType * list string))
           (t : string) (d : DataType) : Prop :=
  Forall (fun e => fst e ≠ UNKNOWN → t ∈ snd e → fst e = d) order.

Lemma fold_init_reverse_absent order m t :
  Forall (fun e => fst e ≠ UNKNOWN → t ∉ snd e) order →
  reverse (fold_init order m) !! t = reverse m !! t.
Proof.
  intros H. revert m. induction H as [|[k ts] es Hk Hes IH]; intros m; simpl; [done|].
  rewrite IH. simpl in Hk.
  destruct (decide (k = UNKNOWN)) as [->|Hne].
  - by rewrite init_inner_reverse_unknown.
  - apply init_inner_reverse_other. by apply Hk.
Qed.

Lemma fold_init_reverse_keeps order m t d :
  only_for order t d → reverse m !! t = Some d →
  reverse (fold_init order m) !! t = Some d.
Proof.
  intros Honly. revert m.
  induction Honly as [|[k us] es Hk Hes IH]; intros m Hm; simpl; [done|].
  apply IH. simpl in Hk.
  destruct (decide (k = UNKNOWN)) as [->|Hne].
  - by rewrite init_inner_reverse_unknown.
  - destruct (decide (t ∈ us)) as [Hin|Hnin].
    + rewrite <- (Hk Hne Hin). by apply init_inner_reverse_member.
    + by rewrite init_inner_reverse_other.
Qed.

Lemma fold_init_reverse_present order m t d ts :
  d ≠ UNKNOWN → t ∈ ts → (d, ts) ∈ order → only_for order t d →
  reverse (fold_init order m) !! t = Some d.
Proof.
  intros Hd Ht Hin Honly. revert m.
  induction Honly as [|[k us] es Hk Hes IH]; intros m.
  - by apply elem_of_nil in Hin.
  - simpl. apply elem_of_cons in Hin as [Heq|Hin].
    + inversion Heq; subst k us.
      apply fold_init_reverse_keeps; [done|].
      by apply init_inner_reverse_member.
    + by apply IH.
Qed.

Lemma only_for_table :
  Forall (fun e => fst e ≠ UNKNOWN →
                   Forall (fun t => only_for bigqueryTypes t (fst e)) (snd e))
         bigqueryTypes.
Proof. unfold only_for. apply (bool_decide_unpack _). vm_compute. done. Qed.

Lemma only_for_bigqueryTypes d t :
  (d, [t]) ∈ bigqueryTypes → d ≠ UNKNOWN → only_for bigqueryTypes t d.
Proof.
  intros Hin Hd.
  pose proof (proj1 (Forall_forall _ _) only_for_table _ Hin Hd) as H.
  exact (Forall_inv H).
Qed.

Ltac in_table :=
  unfold bigqueryTypes;
  repeat first [apply list_elem_of_here | apply list_elem_of_further].

(** X3. Whatever the order in which [init] ranges over bigqueryTypes,
    every data type other than UNKNOWN has a BigQuery type, and
    GetDataType reads that type back as the same data type. UNKNOWN is
    the one exception: it is written as STRING's type and read back as
    STRING. *)
Theorem BigQuery_type_round_trip (order : list (DataType * list string)) (d : DataType) :
  order ≡ₚ bigqueryTypes →
  ∃ t, BigQuery_GetSQLType order d = Some t ∧
       BigQuery_GetDataType order t
       = Some (if decide (d = UNKNOWN) then STRING else d).
Proof.
  intros Hp.
  assert (∀ d' t, (d', [t]) ∈ bigqueryTypes → d' ≠ UNKNOWN →
                  BigQuery_GetDataType order t = Some d') as Hrev.
  { intros d' t Hin Hd'. unfold BigQuery_GetDataType, init.
    apply fold_init_reverse_present with [t]; [done|apply list_elem_of_here|by rewrite Hp|].
    unfold only_for. rewrite Hp. by apply only_for_bigqueryTypes. }
  assert (∀ t, (d, [t]) ∈ bigqueryTypes →
               BigQuery_GetSQLType order d = Some t) as Hfwd.
  { intros t Hin. by apply BigQuery_GetSQLType_order with []. }
  destruct d; simpl;
    (eexists; split; [apply Hfwd; in_table|]; apply Hrev; [in_table|done]).
Qed.

Lemma BigQuery_type_round_trip_witness :
  ∃ t, BigQuery_GetSQLType (rev bigqueryTypes) JSON = Some t ∧
       BigQuery_GetDataType (rev bigqueryTypes) t = Some JSON.
Proof.
  apply (BigQuery_type_round_trip (rev bigqueryTypes) JSON).
  symmetry. apply Permutation_rev.
Defined.

End TypesRoundTripFacts.

(** *** BigQuery column names: what columnNameFunc returns *)

Module ColumnNameFacts.
Import Go BigQueryNames NamesFacts.

Lemma hasReservedPrefix_starts lc :
  hasReservedPrefix lc = true → String.prefix "_" lc = true.
Proof.
  destruct lc as [|c s].
  - by vm_compute.
  - destruct (is_underscore c) eqn:Hc.
    + intros _. unfold is_underscore in Hc.
      cbn [String.prefix]. destruct (ascii_dec "_"%char c) as [|Hne]; [by destruct s|].
      exfalso. apply Hne. apply Ascii.eqb_eq in Hc. done.
    + by rewrite hasReservedPrefix_first.
Qed.

Lemma has_other_strip r :
  has_other r = false → has_other (stripUnsupported r) = false.
Proof.
  unfold has_other. induction r as [|c r IH]; [done|].
  cbn [some_char]. intros [Hc Hr]%orb_false_iff.
  cbn [stripUnsupported]. destruct (supported c); [|by apply IH].
  cbn [some_char]. by rewrite Hc, IH.
Qed.

Definition hex0f (_ : string) : string := "0f".

Lemma hex0f_ok : hash_ok hex0f.
Proof. intros s. split; [reflexivity|]. simpl. lia. Qed.

Section WithHash.
Context (HashHex : string → string).
Hypothesis HashHex_ok : hash_ok HashHex.

(** X4. columnNameFunc never panics, and what it returns is a usable
    column name: between 1 and 300 characters, letters, digits and
    underscores only, the first not a digit, and not starting with a
    reserved prefix; the quoting flag is set exactly when the name is a
    reserved word. *)
Theorem columnNameFunc_valid (x : string) :
  ∃ r q, columnNameFunc HashHex x = Some (r, q) ∧
         (1 ≤ String.length r ≤ 300)%nat ∧
         all_chars supported r = true ∧
         first_not_digit r = true ∧
         hasReservedPrefix (ToLower r) = false ∧
         q = isReservedWord (ToLower r).
Proof.
  destruct (columnNameFunc_total HashHex x) as [[r q] Hx].
  exists r, q. split; [done|].
  destruct (columnNameFunc_shape HashHex HashHex_ok x r q Hx) as (Hs & Hd & Hq & Hrest).
  assert (1 ≤ String.length r)%nat as Hne
    by (destruct r; [done|simpl; lia]).
  destruct q.
  - apply isReservedWord_inv in Hq as Hinv. destruct Hinv as (Hlen & Hu & _).
    rewrite ToLower_length in Hlen.
    repeat split; try done; try lia.
    destruct (hasReservedPrefix (ToLower r)) eqn:Hp; [|done].
    apply hasReservedPrefix_starts in Hp. congruence.
  - destruct (Hrest eq_refl) as [Hp Hl]. repeat split; done.
Qed.

(** X5. Applying columnNameFunc to its own result returns that result
    again, name and quoting flag, exactly when the result holds a
    character other than the underscore. *)
Theorem columnNameFunc_idempotent_iff_other (x r : string) (q : bool) :
  columnNameFunc HashHex x = Some (r, q) →
  (columnNameFunc HashHex r = Some (r, q) ↔ has_other r = true).
Proof.
  intros Hx. split.
  - intros Hr. destruct (has_other r) eqn:Ho; [done|]. exfalso.
    rewrite (columnNameFunc_blank HashHex r (has_other_strip r Ho)) in Hr.
    injection Hr as Hr _. rewrite <- Hr in Ho. by vm_compute in Ho.
  - intros Ho. by apply normal_fixed, (columnNameFunc_normal HashHex HashHex_ok x).
Qed.

(** X6. columnNameFunc settles after at most two applications: the
    result of the second application is returned unchanged by every
    further one. *)
Theorem columnNameFunc_settles (x r r' : string) (q q' : bool) :
  columnNameFunc HashHex x = Some (r, q) →
  columnNameFunc HashHex r = Some (r', q') →
  columnNameFunc HashHex r' = Some (r', q').
Proof.
  intros Hx Hr. destruct (has_other r) eqn:Ho.
  - pose proof (normal_fixed HashHex r q
                  (columnNameFunc_normal HashHex HashHex_ok x r q Hx Ho)) as Hfix.
    rewrite Hfix in Hr. by injection Hr as <- <-.
  - apply normal_fixed, (columnNameFunc_normal HashHex HashHex_ok r); [done|].
    rewrite (columnNameFunc_blank HashHex r (has_other_strip r Ho)) in Hr.
    by injection Hr as <- <-.
Qed.

End WithHash.

Lemma columnNameFunc_valid_witness :
  ∃ r q, columnNameFunc hex0f "1 abc-d" = Some (r, q) ∧
         (1 ≤ String.length r ≤ 300)%nat ∧
         all_chars supported r = true ∧
         first_not_digit r = true ∧
         hasReservedPrefix (ToLower r) = false ∧
         q = isReservedWord (ToLower r).
Proof. exact (columnNameFunc_valid hex0f hex0f_ok "1 abc-d"). Defined.

Lemma columnNameFunc_idempotent_iff_other_witness :
  columnNameFunc hex0f "1 abc-d" = Some ("_1_abcd", false) ∧
  (columnNameFunc hex0f "_1_abcd" = Some ("_1_abcd", false)
   ↔ has_other "_1_abcd" = true).
Proof.
  split; [reflexivity|].
  exact (columnNameFunc_idempotent_iff_other hex0f hex0f_ok "1 abc-d" "_1_abcd" false
           eq_refl).
Defined.

Lemma columnNameFunc_settles_witness :
  columnNameFunc hex0f long_identifier = Some (underscores 300, false) ∧
  columnNameFunc hex0f (underscores 300) = Some ("column_0f", false) ∧
  columnNameFunc hex0f "column_0f" = Some ("column_0f", false).
Proof.
  split; [reflexivity|]. split; [reflexivity|].
  exact (columnNameFunc_settles hex0f hex0f_ok long_identifier (underscores 300)
           "column_0f" false false eq_refl eq_refl).
Defined.

End ColumnNameFacts.

(** *** BigQuery.Insert when the inserter fails *)

Module InsertFailureFacts.
Import Go BigQuery.

Lemma insertItems_None put items :
  insertItems put items = None ↔ put items = None.
Proof.
  unfold insertItems. destruct (put items) as [[]|]; try done.
  by destruct class.
Qed.

(** What holds of the chunks handed over so far: each was accepted, is
    not empty and holds at most 501 items. *)
Definition handed_ok (put : list BQItem → option error) (calls : list (list BQItem)) : Prop :=
  Forall (fun c => put c = None ∧ (1 ≤ length c ≤ 501)%nat) calls.

Lemma insertLoop_prefix put objects items operation calls :
  handed_ok put calls → (length items ≤ 501)%nat →
  match insertLoop put objects items operation calls with
  | inr (items', _, calls') =>
      handed_ok put calls' ∧ (length items' ≤ 501)%nat ∧
      (concat calls' ++ items' = concat calls ++ items ++ objects)%list
  | inl (_, calls') =>
      ∃ sent last rest,
        calls' = (sent ++ [last])%list ∧ handed_ok put sent ∧
        put last ≠ None ∧ (1 ≤ length last ≤ 501)%nat ∧ rest ≠ [] ∧
        (concat calls' ++ rest = concat calls ++ items ++ objects)%list
  end.
Proof.
  revert items operation calls.
  induction objects as [|o rest IH]; intros items operation calls Hc Hi; simpl.
  - by rewrite app_nil_r.
  - destruct (_ <? _)%nat eqn:Hfull.
    + apply Nat.ltb_lt in Hfull. unfold bigqueryRowsLimitPerInsertOperation in Hfull.
      destruct (insertItems put items) as [err|] eqn:Hput.
      * exists calls, items, (o :: rest). repeat split; try done; try lia.
        -- intros Hn. rewrite <- insertItems_None in Hn. congruence.
        -- by rewrite concat_app, <- app_assoc; simpl; rewrite app_nil_r.
      * rewrite insertItems_None in Hput.
        assert (handed_ok put (calls ++ [items])) as Hc'.
        { apply Forall_app. split; [done|]. apply Forall_singleton. cbv beta. split; [exact Hput|lia]. }
        specialize (IH [o] (S operation) (calls ++ [items])%list Hc').
        assert (concat (calls ++ [items]) ++ [o] ++ rest
                = concat calls ++ items ++ o :: rest)%list as Heq
          by (by rewrite concat_app, <- app_assoc; simpl; rewrite app_nil_r).
        rewrite Heq in IH. apply IH. simpl. lia.
    + apply Nat.ltb_ge in Hfull. unfold bigqueryRowsLimitPerInsertOperation in Hfull.
      specialize (IH (items ++ [o])%list operation calls Hc).
      rewrite <- (app_assoc items [o] rest) in IH. apply IH.
      rewrite length_app. simpl. lia.
Qed.

(** X7. Insert hands the objects to the inserter in order, in chunks of
    1 to 501 items, and stops at the first chunk the inserter rejects:
    the chunks handed over are a prefix of the objects, every chunk but
    a rejected last one was accepted, and nil is returned exactly when
    all chunks were accepted, which then hold all the objects. *)
Theorem Insert_stops_at_first_failure
        (lastKind : string) (put : list BQItem → option error) (objects : list Object) :
  let calls := fst (Insert_with lastKind put objects) in
  let err := snd (Insert_with lastKind put objects) in
  Forall (fun c => (1 ≤ length c ≤ 501)%nat) calls ∧
  (∃ rest, objects = (concat calls ++ rest)%list) ∧
  match err with
  | None => Forall (fun c => put c = None) calls ∧ concat calls = objects
  | Some _ => ∃ sent last, calls = (sent ++ [last])%list ∧
                           Forall (fun c => put c = None) sent ∧ put last ≠ None
  end.
Proof.
  unfold Insert_with.
  pose proof (insertLoop_prefix put objects [] 0 [] (Forall_nil_2 _)) as H.
  specialize (H ltac:(simpl; lia)).
  destruct (insertLoop put objects [] 0 []) as [[err calls]|[[items op] calls]].
  - destruct H as (sent & last & rest & -> & Hs & Hl & Hn & _ & Heq). simpl in *.
    split; [|split].
    + apply Forall_app. split; [|by apply Forall_singleton].
      eapply Forall_impl; [exact Hs|]. by intros c [_ ?].
    + by exists rest.
    + exists sent, last. split; [done|]. split; [|done].
      eapply Forall_impl; [exact Hs|]. by intros c [? _].
  - destruct H as (Hc & Hi & Heq). simpl in Heq.
    assert (Forall (fun c => (1 ≤ length c ≤ 501)%nat) calls) as Hsz
      by (eapply Forall_impl; [exact Hc|]; by intros c [_ ?]).
    assert (Forall (fun c => put c = None) calls) as Hok
      by (eapply Forall_impl; [exact Hc|]; by intros c [? _]).
    destruct (0 <? length items)%nat eqn:Hne.
    + apply Nat.ltb_lt in Hne.
      assert (concat (calls ++ [items]) = objects) as Hall
        by (by rewrite concat_app; simpl; rewrite app_nil_r).
      assert (Forall (fun c => (1 ≤ length c ≤ 501)%nat) (calls ++ [items])) as Hsz'
        by (apply Forall_app; split; [done|apply Forall_singleton; lia]).
      destruct (insertItems put items) as [err|] eqn:Hput; simpl.
      * split; [done|]. split; [exists []; by rewrite app_nil_r|].
        exists calls, items. split; [done|]. split; [done|].
        intros Hn. rewrite <- insertItems_None in Hn. congruence.
      * rewrite insertItems_None in Hput.
        split; [done|]. split; [exists []; by rewrite app_nil_r|].
        split; [|done]. apply Forall_app. split; [done|by apply Forall_singleton].
    + apply Nat.ltb_ge in Hne. assert (items = []) as -> by (destruct items; [done|simpl in Hne; lia]).
      rewrite app_nil_r in Heq. simpl.
      split; [done|]. split; [exists []; by rewrite app_nil_r|done].
Qed.

End InsertFailureFacts.

(** *** ClickHouse: dropping and replacing tables when something is missing *)

Module ClickHouseTableFacts.
Import Go Bulker Sql ClickHouse ReplaceTableFacts.

(** X8. DropTable with ifExists always returns nil and leaves neither
    the table nor, on a cluster, its distributed twin; every other table
    is untouched, and dropping again changes nothing.  Without ifExists
    a missing table is an error and nothing is dropped, not even the
    distributed twin. *)
Theorem DropTable_ifExists (cluster : bool) (db : Database) (t : string) :
  let db' := fst (DropTable cluster db t true) in
  snd (DropTable cluster db t true) = None ∧
  db' !! t = None ∧
  (cluster = true → db' !! fullDistTableName t = None) ∧
  (∀ k, k ≠ t → (cluster = false ∨ k ≠ fullDistTableName t) → db' !! k = db !! k) ∧
  DropTable cluster db' t true = (db', None) ∧
  (db !! t = None →
   fst (DropTable cluster db t false) = db ∧
   snd (DropTable cluster db t false) ≠ None).
Proof.
  pose proof (dist_name_ne t) as Hd.
  assert (∀ (d : Database) k, fst (dropTable d k true) = delete k d ∧
                              snd (dropTable d k true) = None) as Hdrop.
  { intros d k. unfold dropTable, ExecContext.
    destruct (d !! k) eqn:Hk; simpl; [done|]. split; [|done].
    symmetry. by apply delete_id. }
  assert (∀ d, DropTable cluster d t true
               = (if cluster then delete (fullDistTableName t) (delete t d)
                  else delete t d, None)) as Hall.
  { intros d. unfold DropTable. unfold fullTableName at 1.
    destruct (Hdrop d t) as [H1 H2].
    destruct (dropTable d t true) as [d1 e1]. simpl in H1, H2. subst.
    destruct cluster; [|done].
    destruct (Hdrop (delete t d) (fullDistTableName t)) as [H1 H2].
    destruct (dropTable (delete t d) _ true) as [d2 e2]. simpl in H1, H2. by subst. }
  cbv zeta. rewrite !Hall. simpl. repeat split.
  - destruct cluster; [rewrite lookup_delete_ne by done|]; apply lookup_delete_eq.
  - intros ->. apply lookup_delete_eq.
  - intros k Hk Hc. destruct cluster.
    + destruct Hc as [|Hc]; [done|]. by rewrite !lookup_delete_ne.
    + by rewrite lookup_delete_ne.
  - f_equal. destruct cluster.
    + rewrite (delete_id (delete _ (delete t db)) t)
        by (rewrite lookup_delete_ne by done; apply lookup_delete_eq).
      apply delete_id, lookup_delete_eq.
    + apply delete_id, lookup_delete_eq.
  - unfold DropTable, dropTable, ExecContext, fullTableName. by rewrite H.
  - unfold DropTable, dropTable, ExecContext, fullTableName. by rewrite H.
Qed.

(** X9. ReplaceTable with a replacement table that does not exist
    returns an error and changes nothing, on a single node and on a
    cluster, whether or not the target exists. *)
Theorem ReplaceTable_missing_replacement
        (cluster : bool) (db : Database) (t r : string) (dropOldTable : bool) :
  db !! r = None →
  fst (ReplaceTable cluster db t r dropOldTable) = db ∧
  snd (ReplaceTable cluster db t r dropOldTable) ≠ None.
Proof.
  intros Hr. unfold ReplaceTable, ExecContext, fullTableName.
  destruct (db !! t) eqn:Ht; rewrite ?Hr; simpl; rewrite ?Hr; done.
Qed.

(** X10. On a cluster ReplaceTable is not atomic: when both tables exist
    but one of the distributed twins is missing, it returns an error
    after the two tables have been exchanged, and the replacement is
    not dropped. *)
Theorem ReplaceTable_cluster_partial
        (db : Database) (t r : string) (old new : list Row) (dropOldTable : bool) :
  db !! t = Some old → db !! r = Some new → t ≠ r →
  t ≠ fullDistTableName r → r ≠ fullDistTableName t →
  db !! fullDistTableName t = None ∨ db !! fullDistTableName r = None →
  let db' := fst (ReplaceTable true db t r dropOldTable) in
  snd (ReplaceTable true db t r dropOldTable) ≠ None ∧
  db' !! t = Some new ∧ db' !! r = Some old ∧
  (∀ k, k ≠ t → k ≠ r → db' !! k = db !! k).
Proof.
  intros Ht Hr Htr Htdr Hrdt Hmiss.
  pose proof (dist_name_ne t) as Hdtt. pose proof (dist_name_ne r) as Hdrr.
  assert (∃ err, ReplaceTable true db t r dropOldTable
                 = (<[t:=new]> (<[r:=old]> db), Some err)) as [err ->].
  { unfold ReplaceTable. unfold fullTableName at 1 2. simpl. rewrite Ht, Hr.
    rewrite lookup_insert_ne by done. rewrite lookup_insert_ne by done.
    destruct (db !! fullDistTableName t) as [dold|] eqn:Hdt; [|by eauto].
    rewrite lookup_insert_ne by done. rewrite lookup_insert_ne by done.
    destruct Hmiss as [|Hdr]; [done|]. rewrite Hdr. by eauto. }
  simpl. split; [done|]. split; [apply lookup_insert_eq|]. split.
  - rewrite lookup_insert_ne by done. apply lookup_insert_eq.
  - intros k Hkt Hkr. by rewrite !lookup_insert_ne.
Qed.

(** X11. On a single node ReplaceTable without dropOldTable exchanges
    the two tables, so calling it twice restores the database. *)
Theorem ReplaceTable_twice
        (db : Database) (t r : string) (old new : list Row) :
  db !! t = Some old → db !! r = Some new → t ≠ r →
  ∃ db', ReplaceTable false db t r false = (db', None) ∧
         ReplaceTable false db' t r false = (db, None).
Proof.
  intros Ht Hr Htr.
  exists (<[t := new]> (<[r := old]> db)). split.
  - by rewrite (ReplaceTable_exchange db t r new Hr Htr old false Ht).
  - rewrite (ReplaceTable_exchange (<[t := new]> (<[r := old]> db)) t r old) with (old := new).
    + f_equal. apply map_eq. intros k.
      destruct (decide (k = t)) as [->|Hkt]; [by rewrite lookup_insert_eq|].
      rewrite lookup_insert_ne by done.
      destruct (decide (k = r)) as [->|Hkr]; [by rewrite lookup_insert_eq|].
      by rewrite !lookup_insert_ne.
    + rewrite lookup_insert_ne by done. apply lookup_insert_eq.
    + done.
    + apply lookup_insert_eq.
Qed.

(** X30. On a single node dropOldTable is a DropTable of the
    replacement, with IF EXISTS, after a successful replace: ReplaceTable
    with dropOldTable ends as ReplaceTable without it followed, when
    that returned nil, by DropTable of the replacement table. *)
Theorem ReplaceTable_drop_is_DropTable (db : Database) (t r : string) :
  ReplaceTable false db t r true
  = match ReplaceTable false db t r false with
    | (db1, None) => DropTable false db1 r true
    | failed => failed
    end.
Proof.
  unfold ReplaceTable, ExecContext, fullTableName.
  destruct (db !! t) as [old|] eqn:Ht.
  - destruct (db !! r) as [new|] eqn:Hr; simpl; [done|].
    rewrite Hr. done.
  - simpl. destruct (db !! r) as [new|] eqn:Hr; simpl; [|done].
    rewrite Ht. simpl.
    assert (t ≠ r) as Hne by congruence.
    unfold DropTable, dropTable, ExecContext, fullTableName.
    rewrite lookup_insert_ne by done. rewrite lookup_delete_eq. done.
Qed.

Lemma ReplaceTable_missing_replacement_witness :
  fst (ReplaceTable true {[ "t" := old_rows ]} "t" "tmp" true) = {[ "t" := old_rows ]} ∧
  snd (ReplaceTable true {[ "t" := old_rows ]} "t" "tmp" true) ≠ None.
Proof. exact (ReplaceTable_missing_replacement true {[ "t" := old_rows ]} "t" "tmp" true eq_refl). Defined.

Lemma ReplaceTable_cluster_partial_witness :
  let db : Database := {[ "t" := old_rows; "tmp" := new_rows; "dist_t" := old_rows ]} in
  snd (ReplaceTable true db "t" "tmp" true) ≠ None ∧
  fst (ReplaceTable true db "t" "tmp" true) !! "t" = Some new_rows ∧
  fst (ReplaceTable true db "t" "tmp" true) !! "tmp" = Some old_rows.
Proof.
  pose proof (ReplaceTable_cluster_partial
                {[ "t" := old_rows; "tmp" := new_rows; "dist_t" := old_rows ]}
                "t" "tmp" old_rows new_rows true eq_refl eq_refl
                ltac:(discriminate) ltac:(discriminate) ltac:(discriminate)
                (or_intror eq_refl)) as (H1 & H2 & H3 & _).
  cbv zeta. split; [exact H1|]. split; [exact H2|exact H3].
Defined.

Lemma ReplaceTable_twice_witness :
  ∃ db', ReplaceTable false {[ "t" := old_rows; "tmp" := new_rows ]} "t" "tmp" false
         = (db', None) ∧
         ReplaceTable false db' "t" "tmp" false
         = ({[ "t" := old_rows; "tmp" := new_rows ]}, None).
Proof.
  exact (ReplaceTable_twice {[ "t" := old_rows; "tmp" := new_rows ]} "t" "tmp"
           old_rows new_rows eq_refl eq_refl ltac:(discriminate)).
Defined.

End ClickHouseTableFacts.

(** *** ClickHouse: Insert, LoadTable, GetTableSchema and Validate *)

Module ClickHouseOpsFacts.
Import Go Bulker Sql ClickHouse ClickHouseOps LoadTableFacts.


Section WithEnv.
Context (E : LoadEnv) (targetTable : Table).





Lemma loadLines_insertObjects columns lines objects i c :
  map (Decode E) lines = map inr objects →
  loadLines E targetTable columns lines i c
  = insertObjects E targetTable columns objects i c.
Proof.
  revert objects i c. induction lines as [|line lines IH]; intros [|o objects] i c H;
    simpl in *; try done.
  injection H as Hd Hrest. rewrite Hd.
  destruct (convertArgs E o targetTable columns) as [err|args]; [done|].
  destruct (execErr E i args) as [err|]; [done|].
  by apply IH.
Qed.

(** X14. LoadTable is Insert over the decoded file: for a local JSON
    file that opens, whose lines are all below the scanner's token
    limit and decode to the given objects, LoadTable leaves the
    connection as Insert of those objects does, and returns nil exactly
    when Insert does. *)
Theorem LoadTable_is_Insert_of_decoded
        (insert : Conn → Table → list Object → Conn * Outcome)
        (c : Conn) (lines : list string) (objects : list Object) :
  snd (scanLines lines) = None →
  map (Decode E) lines = map inr objects →
  openErr E = None →
  let load := LoadTable E c targetTable (mkLoadSource LocalFile JSONFormat lines) in
  let ins := Insert false insert E c targetTable objects in
  fst load = fst ins ∧
  (snd load = Returned None ↔ snd ins = Returned None) ∧
  (snd load = Panicked ↔ snd ins = Panicked).
Proof.
  intros Hscan Hdec Hopen. cbv zeta.
  destruct (scanLines_prefix lines) as (rest & Heq & Hrest).
  rewrite (Hrest Hscan), app_nil_r in Heq.
  unfold LoadTable, Insert. simpl.
  destruct (beginErr E); [done|].
  destruct (prepareErr E); [done|].
  rewrite Hopen, <- Heq.
  rewrite (loadLines_insertObjects _ lines objects _ _ Hdec).
  destruct (insertObjects _ _ _ _ _ _) as [c1 [err|]]; simpl; [done|].
  by destruct (commitErr E).
Qed.

End WithEnv.


Lemma LoadTable_is_Insert_of_decoded_witness :
  let objects : list Object := [{[ "raw" := Str "a" ]}; {[ "raw" := Str "b" ]}] in
  snd (scanLines ["a"; "b"]) = None ∧
  map (Decode quiet) ["a"; "b"] = map inr objects ∧
  fst (LoadTable quiet (mkConn [] None) events (mkLoadSource LocalFile JSONFormat ["a"; "b"]))
  = fst (Insert false (fun c _ _ => (c, Returned None)) quiet (mkConn [] None) events objects).
Proof.
  cbv zeta. split; [reflexivity|]. split; [reflexivity|].
  exact (proj1 (LoadTable_is_Insert_of_decoded quiet events
                  (fun c _ _ => (c, Returned None)) (mkConn [] None) ["a"; "b"]
                  [{[ "raw" := Str "a" ]}; {[ "raw" := Str "b" ]}]
                  eq_refl eq_refl eq_refl)).
Defined.

(** **** GetTableSchema *)

Lemma schemaRows_ok rows table :
  ∃ table', schemaRows (map inr rows) table = inr table' ∧
            Name table' = Name table ∧ PKFields table' = PKFields table ∧
            PrimaryKeyName table' = PrimaryKeyName table ∧
            ∀ name,
              Columns table' !! name
              = match last (filter (fun row => row.1.1 = name) rows) with
                | Some row => Some (mkSQLColumn row.1.2 None false)
                | None => Columns table !! name
                end.
Proof.
  revert table. induction rows as [|[[n ty] pk] rows IH]; intros table; simpl.
  - by exists table.
  - destruct (IH (mkTable (Name table) (<[n := mkSQLColumn ty None false]> (Columns table))
                          (PKFields table) (PrimaryKeyName table)))
      as (table' & -> & H1 & H2 & H3 & H4).
    exists table'. split; [done|]. simpl in *. split; [done|]. split; [done|].
    split; [done|]. intros name. rewrite H4.
    rewrite filter_cons. simpl. destruct (decide (n = name)) as [->|Hne].
    + rewrite last_cons. destruct (last _); [done|]. by rewrite lookup_insert_eq.
    + destruct (last _); [done|]. by rewrite lookup_insert_ne.
Qed.

(** X15. When the catalog query and every Scan succeed, GetTableSchema
    returns the table with one column for each name the rows give, of
    the type of the last row for that name, and never a primary key:
    is_in_primary_key is read and dropped.  A table the catalog knows
    nothing of comes back with no columns and no error. *)
Theorem GetTableSchema_columns_no_primary_key
        (rows : list (string * string * bool)) (tableName : string) :
  ∃ table,
    GetTableSchema (mkSchemaRows None (map inr rows) None) tableName = (Some table, None) ∧
    Name table = tableName ∧ PKFields table = ∅ ∧ PrimaryKeyName table = "" ∧
    (∀ name,
        Columns table !! name
        = option_map (fun row => mkSQLColumn row.1.2 None false)
                     (last (filter (fun row => row.1.1 = name) rows))) ∧
    (rows = [] → Columns table = ∅).
Proof.
  unfold GetTableSchema. simpl.
  destruct (schemaRows_ok rows (mkTable tableName ∅ ∅ ""))
    as (table & -> & H1 & H2 & H3 & H4).
  exists table. simpl in *.
  split; [done|]. split; [done|]. split; [done|]. split; [done|]. split.
  - intros name. rewrite H4. by destruct (last _).
  - intros ->. apply map_eq. intros name. by rewrite H4.
Qed.

(** **** Validate *)

Lemma validateDsns_None TrimSpace dsns :
  validateDsns TrimSpace dsns = None ↔
  Forall (fun dsn => dsn ≠ "" ∧ HasPrefix (TrimSpace dsn) "http" = true) dsns.
Proof.
  induction dsns as [|dsn rest IH]; simpl.
  - split; [constructor|done].
  - destruct (String.eqb dsn "") eqn:He.
    + apply String.eqb_eq in He. split; [done|].
      intros H. apply Forall_cons in H as [[? _] _]. done.
    + apply String.eqb_neq in He.
      destruct (HasPrefix (TrimSpace dsn) "http") eqn:Hp; simpl.
      * rewrite IH. split.
        -- intros H. apply Forall_cons. by repeat split.
        -- by intros [_ ?]%Forall_cons.
      * split; [done|]. intros H. apply Forall_cons in H as [[_ ?] _]. congruence.
Qed.

(** X16. Validate returns nil exactly for a config with at least one
    DSN, every DSN non-empty and, once trimmed, starting with "http", a
    database name, and a cluster name whenever there is more than one
    DSN; a nil config is an error. *)
Theorem Validate_nil_iff (TrimSpace : string → string) (chc : option ClickHouseConfig) :
  Validate TrimSpace chc = None ↔
  ∃ c, chc = Some c ∧
       Dsns c ≠ [] ∧
       Forall (fun dsn => dsn ≠ "" ∧ HasPrefix (TrimSpace dsn) "http" = true) (Dsns c) ∧
       (Cluster c = "" → (length (Dsns c) ≤ 1)%nat) ∧
       Database c ≠ "".
Proof.
  destruct chc as [c|]; simpl; [|split; [done|by intros (c & ? & _)]].
  destruct (Dsns c) as [|dsn rest] eqn:Hd; simpl.
  - split; [done|]. intros (c' & [= <-] & Hne & _). by rewrite Hd in Hne.
  - change (match validateDsns TrimSpace (dsn :: rest) with
            | Some err => Some err
            | None =>
                if String.eqb (Cluster c) "" && (1 <? S (length rest))%nat
                then Some (errorNew "cluster is required parameter when dsns count > 1")
                else if String.eqb (Database c) ""
                     then Some (errorNew "db is required parameter") else None
            end = None ↔
            ∃ c0, Some c = Some c0 ∧ Dsns c0 ≠ [] ∧
                  Forall (fun dsn => dsn ≠ "" ∧ HasPrefix (TrimSpace dsn) "http" = true)
                         (Dsns c0) ∧
                  (Cluster c0 = "" → (length (Dsns c0) ≤ 1)%nat) ∧ Database c0 ≠ "").
    destruct (validateDsns TrimSpace (dsn :: rest)) as [err|] eqn:Hv.
    + split; [done|]. intros (c' & [= <-] & _ & Hall & _).
      rewrite Hd in Hall. apply validateDsns_None in Hall. congruence.
    + apply validateDsns_None in Hv.
      destruct (String.eqb (Cluster c) "") eqn:Hc; simpl.
      * apply String.eqb_eq in Hc.
        destruct (1 <? S (length rest))%nat eqn:Hl.
        -- apply Nat.ltb_lt in Hl. split; [done|].
           intros (c' & [= <-] & _ & _ & Hcl & _). specialize (Hcl Hc).
           rewrite Hd in Hcl. simpl in Hcl. lia.
        -- apply Nat.ltb_ge in Hl.
           destruct (String.eqb (Database c) "") eqn:Hdb.
           ++ apply String.eqb_eq in Hdb. split; [done|].
              by intros (c' & [= <-] & _ & _ & _ & ?).
           ++ apply String.eqb_neq in Hdb. split; [|done]. intros _.
              exists c. rewrite Hd. repeat split; try done; intros _; simpl; lia.
      * apply String.eqb_neq in Hc.
        destruct (String.eqb (Database c) "") eqn:Hdb.
        -- apply String.eqb_eq in Hdb. split; [done|].
           by intros (c' & [= <-] & _ & _ & _ & ?).
        -- apply String.eqb_neq in Hdb. split; [|done]. intros _.
           exists c. rewrite Hd. repeat split; done.
Qed.

End ClickHouseOpsFacts.

(** *** Postgres: the schema of an existing table, partial loads, zero bytes *)

Module PostgresOpsFacts.
Import Go Bulker Sql Postgres PostgresOps.

(** The attribute rows getTable keeps: those not of type "-". *)
Definition kept (name : string) (attrs : list (string * string)) : list (string * string) :=
  filter (fun a => a.1 = name ∧ a.2 ≠ "-") attrs.

(** The first constraint name that is not empty, or "". *)
Definition firstConstraintName (keys : list (string * string)) : string :=
  default "" (head (filter (fun n => n ≠ "") (map fst keys))).

Lemma getTableRows_ok attrs table :
  ∃ table', getTableRows (map inr attrs) table = inr table' ∧
            Name table' = Name table ∧ PKFields table' = PKFields table ∧
            PrimaryKeyName table' = PrimaryKeyName table ∧
            ∀ name,
              Columns table' !! name
              = match last (kept name attrs) with
                | Some a => Some (mkSQLColumn a.2 None false)
                | None => Columns table !! name
                end.
Proof.
  revert table. induction attrs as [|[n ty] attrs IH]; intros table; simpl.
  - by exists table.
  - unfold kept. destruct (String.eqb ty "-") eqn:Hty.
    + apply String.eqb_eq in Hty. subst ty.
      destruct (IH table) as (table' & -> & H1 & H2 & H3 & H4).
      exists table'. repeat (split; [done|]). intros name. rewrite H4.
      rewrite filter_cons. simpl.
      destruct (decide (n = name ∧ "-" ≠ "-")) as [[_ ?]|_]; done.
    + apply String.eqb_neq in Hty.
      destruct (IH (mkTable (Name table)
                            (<[n := mkSQLColumn ty None false]> (Columns table))
                            (PKFields table) (PrimaryKeyName table)))
        as (table' & -> & H1 & H2 & H3 & H4).
      exists table'. simpl in *. repeat (split; [done|]). intros name. rewrite H4.
      rewrite filter_cons. simpl. unfold kept.
      destruct (decide (n = name ∧ ty ≠ "-")) as [[-> _]|Hne].
      * rewrite last_cons. destruct (last _); [done|]. by rewrite lookup_insert_eq.
      * destruct (last _); [done|]. rewrite lookup_insert_ne; [done|].
        intros ->. by apply Hne.
Qed.

Lemma primaryKeyRows_ok keys primaryKeyName pkFields :
  primaryKeyRows (map inr keys) primaryKeyName pkFields
  = inr (if String.eqb primaryKeyName "" then firstConstraintName keys
         else primaryKeyName,
         (pkFields ++ map snd keys)%list).
Proof.
  revert primaryKeyName pkFields.
  induction keys as [|[cn kc] keys IH]; intros pkn pkf; simpl.
  - rewrite app_nil_r. unfold firstConstraintName. simpl.
    destruct (String.eqb pkn "") eqn:H; [|done]. by apply String.eqb_eq in H as ->.
  - rewrite IH, <- app_assoc. simpl. f_equal. f_equal.
    unfold firstConstraintName. simpl. rewrite filter_cons.
    destruct (String.eqb_spec pkn "") as [->|Hp]; simpl.
    + destruct (String.eqb_spec cn "") as [->|Hc]; simpl.
      * by destruct (decide ("" ≠ "")).
      * destruct (String.eqb_spec cn ""); [done|]. by destruct (decide (cn ≠ "")).
    + by destruct (String.eqb_spec pkn "").
Qed.

(** X17. When both catalog queries and every Scan succeed,
    GetTableSchema returns the table with a column for each attribute
    name that has a row whose type is not "-" (a dropped attribute), of
    the type of the last such row; and, unless no column is left, with
    all the key columns as primary key fields and the first non-empty
    constraint name as primary key name.  With no column left it
    returns no primary key, whatever the key query would give. *)
Theorem GetTableSchema_existing_table
        (srv : Server) (tableName : string) (attrs keys : list (string * string)) :
  tableSchemaQuery srv tableName = mkRows None (map inr attrs) None →
  primaryKeyFieldsQuery srv tableName = mkRows None (map inr keys) None →
  ∃ table,
    GetTableSchema srv tableName = (Some table, None) ∧
    Name table = tableName ∧
    (∀ name,
        Columns table !! name
        = option_map (fun a => mkSQLColumn a.2 None false) (last (kept name attrs))) ∧
    (Columns table ≠ ∅ →
     PKFields table = list_to_set (map snd keys) ∧
     PrimaryKeyName table = firstConstraintName keys) ∧
    (Columns table = ∅ → PKFields table = ∅ ∧ PrimaryKeyName table = "").
Proof.
  intros Hq Hk. unfold GetTableSchema, getTable, getPrimaryKey. rewrite Hq, Hk. simpl.
  destruct (getTableRows_ok attrs (mkTable tableName ∅ ∅ ""))
    as (table & -> & H1 & H2 & H3 & H4).
  simpl in *.
  assert (∀ name, Columns table !! name
                  = option_map (fun a => mkSQLColumn a.2 None false)
                               (last (kept name attrs))) as Hcols.
  { intros name. rewrite H4. by destruct (last _). }
  destruct (size (Columns table) =? 0)%nat eqn:Hsz.
  - apply Nat.eqb_eq, map_size_empty_iff in Hsz.
    exists table. split; [done|]. split; [done|]. split; [done|].
    split; [done|]. by intros _.
  - apply Nat.eqb_neq in Hsz. rewrite map_size_empty_iff in Hsz.
    rewrite primaryKeyRows_ok. simpl.
    eexists. split; [done|]. simpl. split; [done|]. split; [done|].
    split; [done|]. by intros ?.
Qed.

(** A server to evaluate on: table "users" with a dropped attribute
    and the key (id). *)
Definition users_server : Server :=
  mkServer
    (fun t => if String.eqb t "users"
              then mkRows None [inr ("id", "bigint"); inr ("old", "-");
                                inr ("name", "text")] None
              else mkRows None [] None)
    (fun t => if String.eqb t "users"
              then mkRows None [inr ("users_pk", "id")] None
              else mkRows None [] None).

Lemma GetTableSchema_existing_table_witness :
  ∃ table, GetTableSchema users_server "users" = (Some table, None) ∧
           Columns table !! "old" = None ∧
           Columns table !! "name" = Some (mkSQLColumn "text" None false).
Proof.
  destruct (GetTableSchema_existing_table users_server "users"
              [("id", "bigint"); ("old", "-"); ("name", "text")] [("users_pk", "id")]
              eq_refl eq_refl) as (table & H1 & _ & H3 & _).
  exists table. split; [exact H1|]. split; rewrite H3; reflexivity.
Defined.

Section WithEnv.
Context (E : LoadEnv).



End WithEnv.

Lemma ContainsZero_RemoveZero v : ContainsZero (RemoveZero v) = false.
Proof.
  induction v as [|c v IH]; simpl; [done|].
  destruct (Ascii.eqb c zero) eqn:Hc; [done|]. simpl. by rewrite Hc.
Qed.

Lemma RemoveZero_id v : ContainsZero v = false → RemoveZero v = v.
Proof.
  induction v as [|c v IH]; simpl; [done|].
  destruct (Ascii.eqb c zero); [done|]. simpl. intros H. by rewrite IH.
Qed.

(** X19. valueMappingFunc hands a text column no zero byte: a string
    for a column of type "text" comes back without its zero bytes and
    otherwise unchanged; every other value, and every value for a
    column of another type, comes back as it is.  Applying it twice is
    applying it once. *)
Theorem valueMappingFunc_no_zero_byte
        (value : any) (valuePresent : bool) (sqlColumn : SQLColumn) :
  let value' := valueMappingFunc value valuePresent sqlColumn in
  (∀ v, Type_ sqlColumn = "text" → value = Str v →
        value' = Str (RemoveZero v) ∧ ContainsZero (RemoveZero v) = false) ∧
  ((Type_ sqlColumn ≠ "text" ∨ ∀ v, value ≠ Str v) → value' = value) ∧
  valueMappingFunc value' valuePresent sqlColumn = value'.
Proof.
  unfold valueMappingFunc. cbv zeta.
  destruct (String.eqb (Type_ sqlColumn) "text") eqn:Hty.
  - apply String.eqb_eq in Hty.
    destruct value as [| | | |v| |]; try (split; [done|split; [done|done]]).
    pose proof (ContainsZero_RemoveZero v) as Hz.
    destruct (ContainsZero v) eqn:Hc.
    + rewrite Hz. split; [by intros v' _ [= <-]|]. split; [|done].
      intros [?|Hn]; [done|]. by destruct (Hn v).
    + rewrite Hc. split; [intros v' _ [= <-]; by rewrite RemoveZero_id|].
      split; done.
  - apply String.eqb_neq in Hty. split; [done|]. split; done.
Qed.

End PostgresOpsFacts.

(** *** BigQuery: dropping and replacing tables that are not there *)

Module BigQueryTableFacts.
Import Go Bulker Sql BigQuery.

(** X20. DropTable of bigquery.go honours ifExists: with the client
    working, an existing table is deleted; a missing one gives nil with
    ifExists and a DropError without, the dataset unchanged.  DropTable
    of part_002 deletes an existing table as well, but ignores ifExists:
    a missing table is a DropError either way. *)
Theorem DropTable_honours_ifExists
        (TableName : string → string) (bq : Client) (tableName : string)
        (ifExists : bool) :
  fault bq = None →
  let name := TableName tableName in
  let notFound := errorjWrap "DropError" "failed to drop table"
                             (googleapiError StatusNotFound) in
  match dataset bq !! name with
  | Some _ =>
      DropTable TableName bq tableName ifExists
      = (mkClient (delete name (dataset bq)) None, None) ∧
      DropTable_old bq name ifExists
      = (mkClient (delete name (dataset bq)) None, None)
  | None =>
      DropTable TableName bq tableName ifExists
      = (bq, if ifExists then None else Some notFound) ∧
      DropTable_old bq name ifExists = (bq, Some notFound)
  end.
Proof.
  intros Hf. cbv zeta. unfold DropTable, DropTable_old, Metadata, Delete.
  rewrite Hf. destruct (dataset bq !! TableName tableName); simpl; [done|].
  by destruct ifExists.
Qed.

(** X21. ReplaceTable with a replacement table that does not exist
    returns a CopyError and leaves the dataset as it was, in both
    revisions and whatever dropOldTable says. *)
Theorem ReplaceTable_missing_source
        (TableName : string → string) (bq : Client) (targetTableName : string)
        (replacementTable : Table) (dropOldTable : bool) :
  fault bq = None →
  dataset bq !! TableName (Name replacementTable) = None →
  (∃ err, ReplaceTable TableName bq targetTableName replacementTable dropOldTable
          = (bq, Some (errorjWrap "CopyError" "failed to replace table" err))) ∧
  (∃ err, ReplaceTable_old bq (TableName targetTableName)
                           (TableName (Name replacementTable)) dropOldTable
          = (bq, Some (errorjWrap "CopyError" "failed to replace table" err))).
Proof.
  intros Hf Hr. unfold ReplaceTable, ReplaceTable_old, RunCopyTruncate.
  rewrite Hf, Hr. simpl. by eauto.
Qed.

Lemma DropTable_honours_ifExists_witness :
  DropTable id (mkClient ∅ None) "events" true = (mkClient ∅ None, None) ∧
  DropTable_old (mkClient ∅ None) "events" true
  = (mkClient ∅ None,
     Some (errorjWrap "DropError" "failed to drop table" (googleapiError 404))).
Proof. exact (DropTable_honours_ifExists id (mkClient ∅ None) "events" true eq_refl). Defined.

Lemma ReplaceTable_missing_source_witness :
  ∃ err, ReplaceTable id (mkClient ∅ None) "events" (mkTable "tmp" ∅ ∅ "") true
         = (mkClient ∅ None, Some (errorjWrap "CopyError" "failed to replace table" err)).
Proof.
  exact (proj1 (ReplaceTable_missing_source id (mkClient ∅ None) "events"
                  (mkTable "tmp" ∅ ∅ "") true eq_refl eq_refl)).
Defined.

End BigQueryTableFacts.

(** *** BigQuery: conditions of a DELETE *)

Module WhenConditionsFacts.
Import Go Bulker Sql BigQuery BigQueryOps.

Section WithQueryHelpers.
Context (ToLower quotedColumnName : string → string) (ReformatValue : any → any).

(** The condition is dropped by toWhenConditions. *)
Definition isNull (c : WhenCondition) : bool :=
  String.eqb (ToLower (Clause c)) "is null".

(** The condition binds a query parameter. *)
Definition binds (c : WhenCondition) : bool :=
  negb (String.eqb (ToLower (Clause c)) "is null")
  && negb (String.eqb (ToLower (Clause c)) "is not null").

(** The text of a condition without and with a parameter. *)
Definition plainText (c : WhenCondition) : string :=
  quotedColumnName (Field c) ++ " " ++ Clause c.
Definition boundText (c : WhenCondition) : string :=
  quotedColumnName (Field c) ++ " " ++ Clause c ++ " @when_" ++ Field c.
Definition boundParam (c : WhenCondition) : QueryParameter :=
  mkQueryParameter ("when_" ++ Field c) (ReformatValue (Value c)).

Abbreviation whenFold :=
  (fold_left (fun acc condition =>
                whenCondition ToLower quotedColumnName ReformatValue condition acc)).

Lemma whenFold_filter conds acc :
  whenFold conds acc = whenFold (List.filter (fun c => negb (isNull c)) conds) acc.
Proof.
  revert acc. induction conds as [|c conds IH]; intros [qs vs]; simpl; [done|].
  destruct (isNull c) eqn:Hn; simpl.
  - rewrite <- IH. f_equal. unfold whenCondition. unfold isNull in Hn. by rewrite Hn.
  - apply IH.
Qed.

Lemma whenFold_shape conds qs vs :
  ∃ qs' vs', whenFold conds (qs, vs) = ((qs ++ qs')%list, (vs ++ vs')%list) ∧
             length qs' = length (List.filter (fun c => negb (isNull c)) conds) ∧
             length vs' = length (List.filter binds conds) ∧
             Forall (fun q => q ≠ "") qs'.
Proof.
  revert qs vs. induction conds as [|c conds IH]; intros qs vs.
  - exists [], []. by rewrite !app_nil_r.
  - cbn [fold_left List.filter].
    destruct (String.eqb (ToLower (Clause c)) "is null") eqn:Hn.
    + assert (isNull c = true) as -> by done.
      assert (binds c = false) as -> by (unfold binds; by rewrite Hn).
      assert (whenCondition ToLower quotedColumnName ReformatValue c (qs, vs)
              = (qs, vs)) as -> by (unfold whenCondition; by rewrite Hn).
      apply IH.
    + assert (isNull c = false) as -> by done. cbn [negb].
      destruct (String.eqb (ToLower (Clause c)) "is not null") eqn:Hnn.
      * assert (binds c = false) as -> by (unfold binds; by rewrite Hn, Hnn).
        assert (whenCondition ToLower quotedColumnName ReformatValue c (qs, vs)
                = ((qs ++ [plainText c])%list, vs)) as ->
            by (unfold whenCondition; by rewrite Hn, Hnn).
        destruct (IH (qs ++ [plainText c])%list vs) as (qs' & vs' & -> & H1 & H2 & H3).
        exists (plainText c :: qs'), vs'. rewrite <- app_assoc. cbn [length app].
        split; [done|]. split; [by rewrite H1|]. split; [done|].
        constructor; [|done]. unfold plainText. by destruct (quotedColumnName (Field c)).
      * assert (binds c = true) as -> by (unfold binds; by rewrite Hn, Hnn).
        assert (whenCondition ToLower quotedColumnName ReformatValue c (qs, vs)
                = ((qs ++ [boundText c])%list, (vs ++ [boundParam c])%list)) as ->
            by (unfold whenCondition; by rewrite Hn, Hnn).
        destruct (IH (qs ++ [boundText c])%list (vs ++ [boundParam c])%list)
          as (qs' & vs' & -> & H1 & H2 & H3).
        exists (boundText c :: qs'), (boundParam c :: vs'). rewrite <- !app_assoc.
        cbn [length app].
        split; [done|]. split; [by rewrite H1|]. split; [by rewrite H2|].
        constructor; [|done]. unfold boundText. by destruct (quotedColumnName (Field c)).
Qed.

Lemma filter_all_null conds :
  Forall (fun c => isNull c = true) conds →
  List.filter (fun c => negb (isNull c)) conds = [].
Proof. induction 1 as [|c conds Hc Hall IH]; simpl; [done|]. by rewrite Hc. Qed.

Lemma Join_empty qs sep :
  Forall (fun q => q ≠ "") qs → (Join qs sep = "" ↔ qs = []).
Proof.
  unfold Join. intros H. split; [|by intros ->].
  destruct H as [|q qs Hq Hqs]; [done|]. simpl.
  destruct qs; [done|]. by destruct q.
Qed.

(** The text is empty exactly when every condition is dropped. *)
Lemma toWhenConditions_empty (conds : list WhenCondition) (join : string) :
  fst (toWhenConditions ToLower quotedColumnName ReformatValue
         (Some (mkWhenConditions conds join))) = ""
  ↔ Forall (fun c => isNull c = true) conds.
Proof.
  unfold toWhenConditions. simpl.
  destruct (whenFold_shape conds [] []) as (qs & vs & -> & H1 & _ & H3). simpl.
  rewrite (Join_empty qs _ H3).
  split.
  - intros ->. simpl in H1. symmetry in H1. apply length_zero_iff_nil in H1.
    apply Forall_forall. intros c Hc. destruct (isNull c) eqn:Hn; [done|].
    assert (In c (List.filter (fun c => negb (isNull c)) conds)) as Hin.
    { apply filter_In. split; [by apply list_elem_of_In|]. by rewrite Hn. }
    rewrite H1 in Hin. done.
  - intros Hall. apply length_zero_iff_nil. rewrite H1.
    by rewrite (filter_all_null conds Hall).
Qed.

(** X22. toWhenConditions drops every condition whose clause is, in
    lower case, "is null" (its case has no statement): the text and the
    parameters are those of the other conditions alone.  It binds one
    parameter for each condition that is neither "is null" nor "is not
    null", and the text is empty exactly when no condition is left. *)
Theorem toWhenConditions_drops_is_null (conds : list WhenCondition) (join : string) :
  let to := toWhenConditions ToLower quotedColumnName ReformatValue in
  to (Some (mkWhenConditions conds join))
  = to (Some (mkWhenConditions (List.filter (fun c => negb (isNull c)) conds) join)) ∧
  length (snd (to (Some (mkWhenConditions conds join))))
  = length (List.filter binds conds) ∧
  (fst (to (Some (mkWhenConditions conds join))) = ""
   ↔ Forall (fun c => isNull c = true) conds).
Proof.
  cbv zeta. split; [|split].
  - unfold toWhenConditions. simpl. by rewrite whenFold_filter.
  - unfold toWhenConditions. simpl.
    destruct (whenFold_shape conds [] []) as (qs & vs & -> & _ & H2 & _). done.
  - apply toWhenConditions_empty.
Qed.

(** X23. Delete runs no query and returns "delete conditions are
    empty" exactly when it is given no conditions or only conditions
    that toWhenConditions drops; in every other case it runs one DELETE
    with the text and parameters of toWhenConditions and returns that
    query's outcome. *)
Theorem Delete_needs_a_condition
        (TableName fullTableName : string → string)
        (runQuery : string → list QueryParameter → option error)
        (tableName : string) (deleteConditions : option WhenConditions) :
  let del := Delete ToLower quotedColumnName ReformatValue TableName fullTableName
                    runQuery tableName deleteConditions in
  let empty := match deleteConditions with
               | None => True
               | Some c => Forall (fun c => isNull c = true) (Conditions c)
               end in
  (empty → del = (None, Some (errorNew "delete conditions are empty"))) ∧
  (¬ empty →
   ∃ text values,
     toWhenConditions ToLower quotedColumnName ReformatValue deleteConditions
     = (text, values) ∧ text ≠ "" ∧
     fst del = Some ("DELETE FROM " ++ fullTableName (TableName tableName)
                     ++ " WHERE " ++ text, values) ∧
     (snd del = None ↔
      runQuery ("DELETE FROM " ++ fullTableName (TableName tableName)
                ++ " WHERE " ++ text) values = None)).
Proof.
  cbv zeta. unfold Delete.
  destruct deleteConditions as [[conds join]|]; [|by split]. cbn [Conditions].
  pose proof (toWhenConditions_empty conds join) as Hempty.
  destruct (toWhenConditions ToLower quotedColumnName ReformatValue
              (Some (mkWhenConditions conds join))) as [text values] eqn:Hto.
  simpl in Hempty. split.
  - intros Hall. apply Hempty in Hall. by subst text.
  - intros Hnot. assert (text ≠ "") as Hne by (intros ?; by apply Hnot, Hempty).
    exists text, values. split; [done|]. split; [done|].
    destruct text as [|c text]; [done|]. simpl. split; [done|].
    unfold bigqueryDeleteTemplate. by destruct (runQuery _ _).
Qed.

End WithQueryHelpers.

(** Conditions to evaluate on. *)
Definition stale : option WhenConditions :=
  Some (mkWhenConditions [mkWhenCondition "deleted_at" "IS NULL" Nil;
                          mkWhenCondition "id" "=" (Int 7)] "AND").

Example toWhenConditions_stale :
  toWhenConditions BigQueryNames.ToLower id id stale
  = ("id = @when_id", [mkQueryParameter "when_id" (Int 7)]).
Proof. by vm_compute. Qed.

End WhenConditionsFacts.

(** *** BigQuery: creating and patching tables *)

Module CreateTableFacts.
Import Go Bulker Sql Types BigQuery BigQueryOps.

(** The string holds no hyphen. *)
Fixpoint no_dash (s : string) : bool :=
  match s with
  | EmptyString => true
  | String c s' => negb (Ascii.eqb c "-"%char) && no_dash s'
  end.

Lemma string_app_assoc (a b c : string) : (a ++ b) ++ c = a ++ (b ++ c).
Proof.
  induction a as [|x a IH]; [done|].
  change (String x ((a ++ b) ++ c) = String x (a ++ b ++ c)). by rewrite IH.
Qed.

Lemma string_app_nil_r (a : string) : a ++ "" = a.
Proof.
  induction a as [|x a IH]; [done|].
  change (String x (a ++ "") = String x a). by rewrite IH.
Qed.

Lemma Split_go_plain f cur rest :
  no_dash f = true →
  Split_go "---" 0 cur (f ++ rest) = Split_go "---" 0 (cur ++ f) rest.
Proof.
  revert cur. induction f as [|c f IH]; intros cur Hf.
  - by rewrite string_app_nil_r.
  - cbn [no_dash] in Hf. apply andb_true_iff in Hf as [Hc Hf].
    apply negb_true_iff, Ascii.eqb_neq in Hc.
    change (String c f ++ rest) with (String c (f ++ rest)).
    cbn [Split_go String.prefix].
    destruct (ascii_dec "-"%char c) as [<-|_]; [done|].
    rewrite IH by done. by rewrite string_app_assoc.
Qed.

Lemma Split_go_sep cur rest :
  Split_go "---" 0 cur ("---" ++ rest) = cur :: Split_go "---" 0 "" rest.
Proof.
  change ("---" ++ rest)
    with (String "-"%char (String "-"%char (String "-"%char rest))).
  cbn [Split_go String.prefix String.length Nat.sub].
  destruct (ascii_dec "-"%char "-"%char) as [_|]; [|done].
  by destruct rest.
Qed.

Lemma Split_go_Join f l cur :
  no_dash f = true → Forall (fun g => no_dash g = true) l →
  Split_go "---" 0 cur (Join (f :: l) "---") = (cur ++ f) :: l.
Proof.
  intros Hf Hl. revert f cur Hf. induction Hl as [|g l Hg Hl IH]; intros f cur Hf.
  - unfold Join. simpl. rewrite <- (string_app_nil_r f) at 1.
    rewrite Split_go_plain by done. done.
  - change (Join (f :: g :: l) "---") with (f ++ "---" ++ Join (g :: l) "---").
    rewrite Split_go_plain by done. rewrite Split_go_sep. by rewrite IH.
Qed.

(** strings.Split undoes strings.Join on "---" for names without a
    hyphen. *)
Lemma Split_Join l :
  l ≠ [] → Forall (fun g => no_dash g = true) l → Split (Join l "---") "---" = l.
Proof.
  destruct l as [|f l]; [done|]. intros _ H. apply Forall_cons in H as [Hf Hl].
  unfold Split. by rewrite Split_go_Join.
Qed.

Lemma fold_put (l : list string) (s : gset string) :
  fold_left (fun pk f => {[f]} ∪ pk) l s = list_to_set l ∪ s.
Proof.
  revert s. induction l as [|f l IH]; intros s; simpl; [by rewrite union_empty_l_L|].
  rewrite IH. by rewrite union_assoc_L, (union_comm_L (list_to_set l)).
Qed.

Lemma schemaColumns_lookup GetDataType (col : string → FieldSchema) names columns c :
  NoDup names → (∀ n, fieldName (col n) = n) →
  schemaColumns GetDataType (map col names) columns !! c
  = if decide (c ∈ names)
    then Some (mkSQLColumn (fieldType (col c)) (GetDataType (fieldType (col c))) false)
    else columns !! c.
Proof.
  intros Hnd Hcol. unfold schemaColumns. revert columns.
  induction Hnd as [|n names Hn Hnd IH]; intros columns; simpl.
  - by destruct (decide (c ∈ [])) as [?%elem_of_nil|].
  - rewrite IH. rewrite Hcol.
    destruct (decide (c ∈ names)) as [Hin|Hnin].
    + rewrite decide_True by (by right). done.
    + destruct (decide (c = n)) as [->|Hne].
      * rewrite decide_True by (by left). by rewrite lookup_insert_eq.
      * rewrite decide_False by (intros [?|?]%elem_of_cons; done).
        by rewrite lookup_insert_ne.
Qed.

Lemma SortedColumnNames_NoDup (t : Table) : NoDup (SortedColumnNames t).
Proof.
  destruct (CopyFacts.SortedColumnNames_sorted t) as [_ Hp]. rewrite Hp.
  apply NoDup_fst_map_to_list.
Qed.

Lemma SortedColumnNames_elem (t : Table) c :
  c ∈ SortedColumnNames t ↔ is_Some (Columns t !! c).
Proof.
  destruct (CopyFacts.SortedColumnNames_sorted t) as [_ Hp]. rewrite Hp.
  rewrite list_elem_of_fmap. split.
  - intros ([k v] & -> & Hin). apply elem_of_map_to_list in Hin. by eexists.
  - intros [v Hv]. exists (c, v). split; [done|]. by apply elem_of_map_to_list.
Qed.

Section WithHelpers.
Context (TableName ColumnName ToUpper : string → string)
        (GetDDLType : SQLColumn → string)
        (GetPKFields : gset string → list string).

Abbreviation CreateTable' := (CreateTable TableName ColumnName ToUpper GetDDLType GetPKFields).
Abbreviation PatchTableSchema' :=
  (PatchTableSchema ColumnName ToUpper GetDDLType GetPKFields).

(** X24. With the client working CreateTable returns nil and the table
    exists afterwards; a table that existed already is left exactly as
    it was, whatever schema was asked for, and no metadata is sent.  So
    a second CreateTable of the same name changes nothing. *)
Theorem CreateTable_creates_once (bq : Client) (table : Table) (opts : TableOptions) :
  fault bq = None →
  ∃ bq' md,
    CreateTable' bq table opts = (bq', md, None) ∧
    fault bq' = None ∧
    is_Some (dataset bq' !! TableName (Name table)) ∧
    (is_Some (dataset bq !! TableName (Name table)) → bq' = bq ∧ md = None) ∧
    (∀ table' opts',
        TableName (Name table') = TableName (Name table) →
        CreateTable' bq' table' opts' = (bq', None, None)).
Proof.
  intros Hf.
  assert (∀ b table' opts', fault b = None →
            is_Some (dataset b !! TableName (Name table')) →
            CreateTable' b table' opts' = (b, None, None)) as Hnoop.
  { intros b table' opts' Hb [t Ht]. unfold CreateTable, Metadata. by rewrite Hb, Ht. }
  destruct (dataset bq !! TableName (Name table)) as [t|] eqn:Ht.
  - exists bq, None. rewrite Hnoop by (by rewrite ?Ht). rewrite Ht.
    split; [done|]. split; [done|]. split; [by eexists|]. split; [done|].
    intros table' opts' Hn. apply Hnoop; [done|]. rewrite Hn, Ht. by eexists.
  - unfold CreateTable at 1, Metadata, Create. rewrite Hf, Ht. simpl.
    eexists _, _. split; [done|]. simpl. split; [done|].
    split; [rewrite lookup_insert_eq; by eexists|]. split; [by intros [? ?]|].
    intros table' opts' Hn. apply Hnoop; [done|]. simpl.
    rewrite Hn, lookup_insert_eq. by eexists.
Qed.

(** X25. What CreateTable writes GetTableSchema reads back: for a new
    table whose column names are normalised and whose primary key has
    a bulker-managed name and fields without a hyphen, GetTableSchema
    after CreateTable returns the same primary key name and fields, and
    for every column a column of the upper-cased DDL type. *)
Theorem CreateTable_GetTableSchema_round_trip
        (bq : Client) (table : Table) (opts : TableOptions) :
  fault bq = None →
  dataset bq !! TableName (Name table) = None →
  PKFields table ≠ ∅ →
  HasPrefix (PrimaryKeyName table) BulkerManagedPkConstraintPrefix = true →
  list_to_set (GetPKFields (PKFields table)) = PKFields table →
  Forall (fun f => no_dash f = true) (GetPKFields (PKFields table)) →
  (∀ c, is_Some (Columns table !! c) → ColumnName c = c) →
  ∃ bq' md t',
    CreateTable' bq table opts = (bq', Some md, None) ∧
    GetTableSchema TableName bq' (Name table) = (Some t', None) ∧
    Name t' = TableName (Name table) ∧
    PKFields t' = PKFields table ∧
    PrimaryKeyName t' = PrimaryKeyName table ∧
    ∀ c, Columns t' !! c
         = (fun col =>
              mkSQLColumn (ToUpper (GetDDLType col))
                          (BigQuery_GetDataType bigqueryTypes (ToUpper (GetDDLType col)))
                          false) <$> Columns table !! c.
Proof.
  intros Hf Ht Hpk Hname Hset Hdash Hnorm.
  assert (GetPKFields (PKFields table) ≠ []) as Hne.
  { intros Hnil. rewrite Hnil in Hset. simpl in Hset. by apply Hpk. }
  assert ((0 <? size (PKFields table))%nat = true) as Hsz.
  { apply Nat.ltb_lt. destruct (size (PKFields table)) eqn:Hs; [|lia].
    apply size_empty_iff in Hs. exfalso. apply Hpk. by apply leibniz_equiv. }
  assert (String.eqb (PrimaryKeyName table) "" = false) as Hnn.
  { apply String.eqb_neq. intros Heq. rewrite Heq in Hname. by vm_compute in Hname. }
  unfold CreateTable, Metadata, Create. rewrite Hf, Ht. cbn [isNotFoundErr negb].
  change ((StatusNotFound =? StatusNotFound)%Z) with true. cbn [negb].
  rewrite Hsz, Hnn. cbn [andb negb mdSchema mdLabels].
  eexists _, _, _. split; [done|].
  unfold GetTableSchema, Metadata. cbn [fault dataset].
  rewrite lookup_insert_eq. cbn [Schema Labels labelsPrimaryKey].
  rewrite Hname. cbn [Name PKFields PrimaryKeyName Columns].
  split; [done|]. split; [done|]. split; [|split; [done|]].
  - rewrite Split_Join by done. rewrite fold_put, Hset. by rewrite union_empty_r_L.
  - intros c. cbn [Columns]. unfold schemaOf.
    rewrite <- (map_ext_in
                  (fun n => mkFieldSchema n
                              (ToUpper (GetDDLType
                                 (default (mkSQLColumn "" None false)
                                          (Columns table !! n)))))
                  _ (SortedColumnNames table)).
    + rewrite schemaColumns_lookup; [|apply SortedColumnNames_NoDup|done].
      destruct (decide (c ∈ SortedColumnNames table)) as [Hin|Hnin].
      * apply SortedColumnNames_elem in Hin as [col Hcol]. by rewrite Hcol.
      * rewrite lookup_empty.
        destruct (Columns table !! c) as [col|] eqn:Hcol; [|done].
        exfalso. apply Hnin, SortedColumnNames_elem. by eexists.
    + intros n Hn. rewrite Hnorm; [done|].
      by apply SortedColumnNames_elem, list_elem_of_In.
Qed.

(** X26. PatchTableSchema appends the patch's columns to the table's
    schema and sends nothing else: the rows and the labels stay as they
    were, also when the patch carries a primary key or DeletePkFields.
    So GetTableSchema reports the same primary key after the patch as
    before it. *)
Theorem PatchTableSchema_keeps_primary_key
        (bq : Client) (patchSchema : Table) (opts : TableOptions) (t : BQTable) :
  fault bq = None →
  dataset bq !! Name patchSchema = Some t →
  TableName (Name patchSchema) = Name patchSchema →
  ∃ bq' before after,
    PatchTableSchema' bq patchSchema opts = (bq', None) ∧
    dataset bq'
    = <[Name patchSchema :=
          mkBQTable (Schema t ++ schemaOf ColumnName ToUpper GetDDLType patchSchema)
                    (Labels t) (data t)]> (dataset bq) ∧
    GetTableSchema TableName bq (Name patchSchema) = (Some before, None) ∧
    GetTableSchema TableName bq' (Name patchSchema) = (Some after, None) ∧
    PKFields after = PKFields before ∧
    PrimaryKeyName after = PrimaryKeyName before.
Proof.
  intros Hf Ht Hn.
  assert (∀ l (a b : Table),
            PKFields a = PKFields b → PrimaryKeyName a = PrimaryKeyName b →
            PKFields (labelsPrimaryKey l a) = PKFields (labelsPrimaryKey l b) ∧
            PrimaryKeyName (labelsPrimaryKey l a)
            = PrimaryKeyName (labelsPrimaryKey l b)) as Hlabels.
  { induction l as [|[k v] l IH]; intros a b H1 H2; simpl; [done|].
    destruct (HasPrefix k BulkerManagedPkConstraintPrefix); simpl; [by rewrite H1|].
    by apply IH. }
  unfold PatchTableSchema, Metadata, UpdateSchema. rewrite Hf, Ht.
  eexists _, _, _. split; [done|]. split; [done|].
  unfold GetTableSchema, Metadata. cbn [fault dataset].
  rewrite Hn, Hf, Ht, lookup_insert_eq. cbn [Schema Labels].
  split; [done|]. split; [done|]. by apply Hlabels.
Qed.

End WithHelpers.

(** A table to evaluate on: events(id), with the key (id). *)
Definition events : Table :=
  mkTable "events" {[ "id" := mkSQLColumn "integer" None false ]} {[ "id" ]}
          "bulker_pk_events".

Definition plain_options : TableOptions := mkTableOptions "" ALL "" false false.

Lemma CreateTable_creates_once_witness :
  ∃ bq' md,
    CreateTable id id id Type_ elements (mkClient ∅ None) events plain_options
    = (bq', md, None) ∧
    is_Some (dataset bq' !! "events").
Proof.
  destruct (CreateTable_creates_once id id id Type_ elements (mkClient ∅ None) events
              plain_options eq_refl) as (bq' & md & H1 & _ & H2 & _).
  exists bq', md. split; [exact H1|exact H2].
Defined.

Lemma CreateTable_GetTableSchema_round_trip_witness :
  ∃ bq' md t',
    CreateTable id id id Type_ elements (mkClient ∅ None) events plain_options
    = (bq', Some md, None) ∧
    GetTableSchema id bq' "events" = (Some t', None) ∧
    PKFields t' = {[ "id" ]} ∧ PrimaryKeyName t' = "bulker_pk_events".
Proof.
  destruct (CreateTable_GetTableSchema_round_trip id id id Type_ elements
              (mkClient ∅ None) events plain_options)
    as (bq' & md & t' & H1 & H2 & _ & H3 & H4 & _).
  - reflexivity.
  - reflexivity.
  - exact (non_empty_singleton_L (C:=gset string) "id").
  - reflexivity.
  - exact (list_to_set_elements_L (C:=gset string) {[ "id" ]}).
  - simpl. rewrite elements_singleton. by repeat constructor.
  - done.
  - exists bq', md, t'. split; [exact H1|]. split; [exact H2|].
    split; [exact H3|exact H4].
Defined.

Lemma PatchTableSchema_keeps_primary_key_witness :
  let bq := mkClient {[ "events" := mkBQTable [mkFieldSchema "id" "INTEGER"]
                                             [("bulker_pk_events", "id")] [] ]} None in
  let patch := mkTable "events" {[ "name" := mkSQLColumn "string" None false ]}
                       {[ "name" ]} "bulker_pk_events" in
  ∃ bq' before after,
    PatchTableSchema id id Type_ elements bq patch plain_options = (bq', None) ∧
    GetTableSchema id bq "events" = (Some before, None) ∧
    GetTableSchema id bq' "events" = (Some after, None) ∧
    PKFields after = PKFields before.
Proof.
  cbv zeta.
  destruct (PatchTableSchema_keeps_primary_key id id id Type_ elements
              (mkClient {[ "events" := mkBQTable [mkFieldSchema "id" "INTEGER"]
                                                 [("bulker_pk_events", "id")] [] ]} None)
              (mkTable "events" {[ "name" := mkSQLColumn "string" None false ]}
                       {[ "name" ]} "bulker_pk_events")
              plain_options
              (mkBQTable [mkFieldSchema "id" "INTEGER"] [("bulker_pk_events", "id")] []))
    as (bq' & before & after & H1 & _ & H2 & H3 & H4 & _).
  - reflexivity.
  - vm_compute. reflexivity.
  - reflexivity.
  - exists bq', before, after. split; [exact H1|]. split; [exact H2|].
    split; [exact H3|exact H4].
Defined.

End CreateTableFacts.

(** *** BigQuery.LoadTable: the schema handed to the loader *)

Module LoadSchemaFacts.
Import Go Bulker Sql Types BigQuery BigQueryOps CreateTableFacts.

Abbreviation schemaFold :=
  (fold_left (fun mp field => <[fieldName field := field]> mp)).

Lemma schemaFold_Some schema (m : gmap string FieldSchema) c f :
  schemaFold schema m !! c = Some f →
  (f ∈ schema ∧ fieldName f = c) ∨ m !! c = Some f.
Proof.
  revert m. induction schema as [|g schema IH]; intros m; simpl; [by right|].
  intros H. destruct (IH _ H) as [[Hin Hn]|Hm].
  - left. split; [by right|done].
  - destruct (decide (fieldName g = c)) as [Hg|Hg].
    + rewrite Hg, lookup_insert_eq in Hm. injection Hm as <-. left. split; [by left|done].
    + rewrite lookup_insert_ne in Hm by done. by right.
Qed.

Lemma schemaFold_is_Some schema (m : gmap string FieldSchema) c :
  is_Some (schemaFold schema m !! c) ↔ c ∈ map fieldName schema ∨ is_Some (m !! c).
Proof.
  revert m. induction schema as [|g schema IH]; intros m; simpl.
  - split; [by right|]. by intros [?%elem_of_nil|].
  - rewrite IH. rewrite elem_of_cons.
    destruct (decide (fieldName g = c)) as [Hg|Hg].
    + rewrite Hg, lookup_insert_eq. split; [by left; left|]. intros _. right. by eexists.
    + rewrite lookup_insert_ne by done. split.
      * intros [?|?]; [by left; right|by right].
      * intros [[?|?]|?]; [congruence|by left|by right].
Qed.

Lemma schemaFold_size schema (m : gmap string FieldSchema) :
  (size (schemaFold schema m) ≤ size m + length schema)%nat.
Proof.
  revert m. induction schema as [|g schema IH]; intros m; simpl; [lia|].
  specialize (IH (<[fieldName g := g]> m)).
  rewrite map_size_insert in IH. destruct (m !! fieldName g); simpl in IH; lia.
Qed.

Lemma keys_length (mp : gmap string FieldSchema) (l : list string) :
  NoDup l → (∀ x, x ∈ l → is_Some (mp !! x)) → (length l ≤ size mp)%nat.
Proof.
  intros Hnd Hin. rewrite <- length_map_to_list.
  rewrite <- (length_fmap fst (map_to_list mp)).
  apply submseteq_length, NoDup_submseteq; [done|].
  intros x Hx. destruct (Hin x Hx) as [f Hf].
  apply list_elem_of_fmap. exists (x, f). split; [done|]. by apply elem_of_map_to_list.
Qed.

(** The loop never writes outside the slice: the fields it has placed
    and the one it is about to place have distinct names, all of them
    in the map, which holds no more names than the schema has fields. *)
Lemma sortSchema_in_range mp columns seen i schema :
  NoDup (seen ++ columns) → length seen = i →
  (∀ x, x ∈ seen → is_Some (mp !! x)) → (size mp ≤ length schema)%nat →
  sortSchema mp columns i schema ≠ OutOfRange.
Proof.
  revert seen i schema.
  induction columns as [|c columns IH]; intros seen i schema Hnd Hlen Hseen Hsz; simpl.
  - done.
  - destruct (mp !! c) as [f|] eqn:Hc; [|done].
    assert (NoDup ((seen ++ [c]) ++ columns)) as Hnd'
      by (by rewrite <- app_assoc).
    assert (length (seen ++ [c]) ≤ size mp)%nat as Hle.
    { apply keys_length.
      - by apply NoDup_app in Hnd' as [? _].
      - intros x [Hx|Hx%list_elem_of_singleton]%elem_of_app; [by apply Hseen|subst; by eexists]. }
    rewrite length_app in Hle. simpl in Hle.
    assert ((i <? length schema)%nat = true) as -> by (apply Nat.ltb_lt; lia).
    apply (IH (seen ++ [c])%list).
    + done.
    + rewrite length_app. simpl. lia.
    + intros x [Hx|Hx%list_elem_of_singleton]%elem_of_app; [by apply Hseen|subst; by eexists].
    + by rewrite length_insert.
Qed.

(** When the loop gets through, it has put the fields of the columns,
    in order, at the positions from [i] on and left the rest alone. *)
Lemma sortSchema_sorted mp columns i schema s :
  sortSchema mp columns i schema = SortedSchema s →
  length s = length schema ∧
  take i s = take i schema ∧
  drop (i + length columns) s = drop (i + length columns) schema ∧
  Forall2 (fun c f => mp !! c = Some f) columns (take (length columns) (drop i s)).
Proof.
  revert i schema. induction columns as [|c columns IH]; intros i schema; simpl.
  - intros [= <-]. rewrite Nat.add_0_r. by repeat split.
  - destruct (mp !! c) as [f|] eqn:Hc; [|done].
    destruct (i <? length schema)%nat eqn:Hi; [|done]. apply Nat.ltb_lt in Hi.
    intros Hs. destruct (IH _ _ Hs) as (Hlen & Htake & Hdrop & Hall).
    rewrite length_insert in Hlen.
    assert (s !! i = Some f) as Hsi.
    { rewrite <- (lookup_take_lt s (S i) i) by lia. rewrite Htake.
      rewrite lookup_take_lt by lia. by apply list_lookup_insert_eq. }
    split; [done|]. split; [|split].
    + replace i with (min i (S i)) at 1 2 by lia.
      rewrite <- !take_take, Htake. rewrite !take_take.
      replace (min i (S i)) with i by lia. apply take_insert_ge. lia.
    + replace (i + S (length columns))%nat with (S i + length columns)%nat by lia.
      rewrite Hdrop. apply drop_insert_lt. lia.
    + rewrite (drop_S s f i Hsi). simpl. by constructor.
Qed.

Lemma sortSchema_missing mp columns i schema field :
  sortSchema mp columns i schema = Missing field →
  field ∈ columns ∧ mp !! field = None.
Proof.
  revert i schema. induction columns as [|c columns IH]; intros i schema; simpl; [done|].
  destruct (mp !! c) as [f|] eqn:Hc.
  - destruct (i <? length schema)%nat; [|done].
    intros H. destruct (IH _ _ H). split; [by right|done].
  - intros [= <-]. split; [by left|done].
Qed.

(** LoadTable on a table whose metadata it gets. *)
Lemma LoadTable_with_metadata
      (TableName : string → string)
      (runLoad : string → list FieldSchema → option error)
      (bq : Client) (targetTable : Table) (meta : BQTable) :
  Metadata bq (TableName (Name targetTable)) = inr meta →
  let tableName := TableName (Name targetTable) in
  let columns := SortedColumnNames targetTable in
  let load := LoadTable TableName None runLoad bq targetTable in
  snd load ≠ ClickHouse.Panicked ∧
  match fst load with
  | Some s =>
      length s = length (Schema meta) ∧
      map fieldName (take (length columns) s) = columns ∧
      Forall (fun f => f ∈ Schema meta) (take (length columns) s) ∧
      drop (length columns) s = drop (length columns) (Schema meta) ∧
      snd load = ClickHouse.Returned (option_map wrapLoad (runLoad tableName s))
  | None =>
      ∃ field,
        field ∈ columns ∧ (field ∉ map fieldName (Schema meta)) ∧
        snd load
        = ClickHouse.Returned
            (Some (wrapLoad (errorf "field %s is not in table schema" [field])))
  end.
Proof.
  intros Hmeta. cbv zeta. unfold LoadTable. rewrite Hmeta.
  pose proof (sortSchema_in_range (schemaMap (Schema meta))
                (SortedColumnNames targetTable) [] 0 (Schema meta)) as Hrange.
  destruct (sortSchema _ _ _ _) as [field| |s] eqn:Hsort; simpl.
  - split; [done|]. apply sortSchema_missing in Hsort as [Hin Hnone].
    exists field. split; [done|]. split; [|done].
    intros Hf. assert (is_Some (schemaMap (Schema meta) !! field)) as [? ?].
    { apply schemaFold_is_Some. by left. }
    rewrite Hnone in H. done.
  - exfalso. apply Hrange; try done.
    + apply SortedColumnNames_NoDup.
    + by intros x ?%elem_of_nil.
    + pose proof (schemaFold_size (Schema meta) ∅) as H.
      rewrite map_size_empty in H. unfold schemaMap. lia.
  - split; [done|].
    apply sortSchema_sorted in Hsort as (Hlen & _ & Hdrop & Hall). simpl in *.
    rewrite drop_0 in Hall.
    split; [done|]. split; [|split; [|done]].
    + clear -Hall. induction Hall as [|c f cs fs Hc Hall IH]; simpl; [done|].
      unfold schemaMap in Hc. apply schemaFold_Some in Hc as [[_ Hn]|Hc]; [|done].
      by rewrite Hn, IH.
    + clear -Hall. induction Hall as [|c f cs fs Hc Hall IH]; [done|].
      constructor; [|done].
      unfold schemaMap in Hc. by apply schemaFold_Some in Hc as [[Hin _]|Hc].
Qed.

(** X27. How LoadTable ends.  When Metadata fails (the table does not
    exist, the client is down) it panics: the error is never looked at
    and the nil metadata is dereferenced.  Otherwise it never writes
    outside the schema slice, and either a column of the target has no
    field in the table's schema, which is the error returned, before
    any load job runs; or the load job runs with a schema of the same
    length whose first fields are those of the target's columns, in
    SortedColumnNames order, the fields after them left where they
    were, and LoadTable returns what the job returns. *)
Theorem LoadTable_outcomes
        (TableName : string → string)
        (runLoad : string → list FieldSchema → option error)
        (bq : Client) (targetTable : Table) :
  let tableName := TableName (Name targetTable) in
  let columns := SortedColumnNames targetTable in
  let load := LoadTable TableName None runLoad bq targetTable in
  match Metadata bq tableName with
  | inl _ => load = (None, ClickHouse.Panicked)
  | inr meta =>
      snd load ≠ ClickHouse.Panicked ∧
      match fst load with
      | Some s =>
          length s = length (Schema meta) ∧
          map fieldName (take (length columns) s) = columns ∧
          Forall (fun f => f ∈ Schema meta) (take (length columns) s) ∧
          drop (length columns) s = drop (length columns) (Schema meta) ∧
          snd load = ClickHouse.Returned (option_map wrapLoad (runLoad tableName s))
      | None =>
          ∃ field,
            field ∈ columns ∧ (field ∉ map fieldName (Schema meta)) ∧
            snd load
            = ClickHouse.Returned
                (Some (wrapLoad (errorf "field %s is not in table schema" [field])))
      end
  end.
Proof.
  cbv zeta.
  destruct (Metadata bq (TableName (Name targetTable))) as [err|meta] eqn:Hmeta.
  - unfold LoadTable. by rewrite Hmeta.
  - by apply LoadTable_with_metadata.
Qed.

(** X28. When the target table has exactly the columns of the table's
    schema, whose field names are distinct, the schema LoadTable hands
    to the loader is the table's schema reordered by field name: the
    same fields, their names in ascending order, as the columns of the
    staging file are. *)
Theorem LoadTable_sorts_schema
        (TableName : string → string)
        (runLoad : string → list FieldSchema → option error)
        (bq : Client) (targetTable : Table) (meta : BQTable) :
  Metadata bq (TableName (Name targetTable)) = inr meta →
  NoDup (map fieldName (Schema meta)) →
  (∀ c, is_Some (Columns targetTable !! c) ↔ c ∈ map fieldName (Schema meta)) →
  ∃ s, LoadTable TableName None runLoad bq targetTable
       = (Some s, ClickHouse.Returned
                    (option_map wrapLoad (runLoad (TableName (Name targetTable)) s))) ∧
       s ≡ₚ Schema meta ∧
       map fieldName s = SortedColumnNames targetTable ∧
       Sorted string_le (map fieldName s).
Proof.
  intros Hmeta Hnd Hcols.
  pose proof (LoadTable_with_metadata TableName runLoad bq targetTable meta Hmeta)
    as [_ H].
  cbv zeta in H.
  assert (SortedColumnNames targetTable ≡ₚ map fieldName (Schema meta)) as Hperm.
  { apply NoDup_Permutation; [apply SortedColumnNames_NoDup|done|].
    intros c. by rewrite SortedColumnNames_elem, Hcols. }
  assert (length (SortedColumnNames targetTable) = length (Schema meta)) as Hn
    by (by rewrite Hperm, length_map).
  destruct (LoadTable TableName None runLoad bq targetTable) as [[s|] out]; simpl in H.
  - destruct H as (Hlen & Hnames & Hin & _ & ->).
    rewrite Hn, <- Hlen, take_ge in Hnames, Hin by lia.
    exists s. split; [done|]. split; [|split; [done|]].
    + apply submseteq_length_Permutation; [|lia].
      apply NoDup_submseteq; [|by apply Forall_forall].
      apply (NoDup_fmap_1 fieldName). change (NoDup (map fieldName s)).
      rewrite Hnames. apply SortedColumnNames_NoDup.
    + rewrite Hnames. apply CopyFacts.SortedColumnNames_sorted.
  - destruct H as (field & Hin & Hnot & _). exfalso. apply Hnot.
    by rewrite <- Hperm.
Qed.

(** A table to evaluate on: fields b, a in the warehouse, columns a, b
    in the target. *)
Definition ab_client : Client :=
  mkClient {[ "events" := mkBQTable [mkFieldSchema "b" "STRING";
                                     mkFieldSchema "a" "INTEGER"] [] [] ]} None.

Definition ab_table : Table :=
  mkTable "events" {[ "a" := mkSQLColumn "INTEGER" None false;
                      "b" := mkSQLColumn "STRING" None false ]} ∅ "".

Lemma LoadTable_sorts_schema_witness :
  ∃ s, fst (LoadTable id None (fun _ _ => None) ab_client ab_table) = Some s ∧
       map fieldName s = ["a"; "b"].
Proof.
  destruct (LoadTable_sorts_schema id (fun _ _ => None) ab_client ab_table
              (mkBQTable [mkFieldSchema "b" "STRING"; mkFieldSchema "a" "INTEGER"] [] []))
    as (s & H1 & _ & H2 & _).
  - reflexivity.
  - by apply (bool_decide_unpack _); vm_compute.
  - intros c. simpl. rewrite !elem_of_cons, elem_of_nil.
    rewrite lookup_insert, lookup_singleton.
    repeat case_decide; subst; split; try done; try (by eexists); try (by intros [? ?]).
    + by intros _; right; left.
    + by intros _; left.
    + by intros [?|[?|?]].
  - exists s. rewrite H1. split; [reflexivity|]. rewrite H2. by vm_compute.
Defined.

End LoadSchemaFacts.
